(* ===================================================================== *)
(*  pbrt-v4: scattering distributions (src/pbrt/bxdfs.h) and the          *)
(*  volumetric path integrator (src/pbrt/integrators/volpath.cpp).        *)
(*                                                                       *)
(*  Shallow embedding.  A [Float] is an exact rational: rounding, NaN    *)
(*  and infinities are outside the model, and a division by zero yields  *)
(*  0 (as [Qdiv] does), so a statement about a quotient carries the      *)
(*  hypothesis that its divisor is not zero.                             *)
(* ===================================================================== *)

From Stdlib Require Import QArith Qabs ZArith List Bool Lia Lqa.
Import ListNotations.

Set Implicit Arguments.
Local Open Scope Q_scope.

(* --------------------------------------------------------------------- *)
(** * Numbers                                                             *)
(* --------------------------------------------------------------------- *)

(** [using Float = float;] (src/core/pbrt.h). *)
Definition Float := Q.

(** The C++ comparison operators on [Float], as booleans. *)
Definition Flt (a b : Float) : bool := negb (Qle_bool b a).
Definition Feq (a b : Float) : bool := Qeq_bool a b.
Definition Fle (a b : Float) : bool := Qle_bool a b.

Infix "<?" := Flt (at level 70, no associativity) : Q_scope.
Infix "=?" := Feq (at level 70, no associativity) : Q_scope.
Infix "<=?" := Fle (at level 70, no associativity) : Q_scope.
Notation "a >? b" := (Flt b a) (at level 70, no associativity) : Q_scope.

(** [std::max(a, b)] is [(a < b) ? b : a]; [std::min(a, b)] is
    [(b < a) ? b : a]; [std::abs]. *)
Definition std_max (a b : Float) : Float := if a <? b then b else a.
Definition std_min (a b : Float) : Float := if b <? a then b else a.
Definition std_abs (a : Float) : Float := Qabs a.

(** The sum of a list of values. *)
Definition total (ts : list Float) : Float := fold_right Qplus 0 ts.

(** [std::numeric_limits<float>::min()]: the smallest positive normal
    single-precision value, 2^-126. *)
Definition FloatMin : Float := 1 # (2 ^ 126).

(** The development computes with rationals.  Where what the code does
    with an infinity or a NaN is at stake, a float is one of the values
    below, compared as IEEE 754 has it: [a < b] is false as soon as one of
    the two is a NaN. *)
Inductive XFloat :=
  | Finite (v : Float)
  | PInf
  | NInf
  | NaN.

Definition xlt (a b : XFloat) : bool :=
  match a, b with
  | NaN, _ => false
  | _, NaN => false
  | NInf, NInf => false
  | NInf, _ => true
  | PInf, _ => false
  | Finite _, NInf => false
  | Finite _, PInf => true
  | Finite u, Finite v => u <? v
  end.

(** [std::max(a, b)] on these values: still [(a < b) ? b : a], so a NaN
    first argument is returned as it is. *)
Definition xmax (a b : XFloat) : XFloat := if xlt a b then b else a.

Definition xpositive (a : XFloat) : bool := xlt (Finite 0) a.

(* --------------------------------------------------------------------- *)
(** * Geometry                                                            *)
(* --------------------------------------------------------------------- *)

(** Modelled from the spec: the vector classes of pbrt/util/vecmath.h are
    not among the sources; a direction is a "3-vector in a local shading
    frame whose z-axis is the shading normal", a sample point a pair. *)
Record Vector3f := mkVector3f { x : Float; y : Float; z : Float }.
Record Point2f := mkPoint2f { px : Float; py : Float }.

(** Their componentwise operators: [-v], [a + b], [a * s]. *)
Definition vneg (v : Vector3f) : Vector3f :=
  mkVector3f (- x v) (- y v) (- z v).
Definition vadd (a b : Vector3f) : Vector3f :=
  mkVector3f (x a + x b) (y a + y b) (z a + z b).
Definition vscale (a : Vector3f) (s : Float) : Vector3f :=
  mkVector3f (x a * s) (y a * s) (z a * s).
(** [wi.z *= -1]. *)
Definition flip_z (v : Vector3f) : Vector3f :=
  mkVector3f (x v) (y v) (z v * - (1)).
Definition vzero : Vector3f := mkVector3f 0 0 0.

(** [enum class TransportMode { Radiance, Importance }] (src/core/pbrt.h);
    [~mode] swaps the two. *)
Inductive TransportMode := Radiance | Importance.

Definition mode_flip (m : TransportMode) : TransportMode :=
  match m with Radiance => Importance | Importance => Radiance end.

Definition is_Radiance (m : TransportMode) : bool :=
  match m with Radiance => true | Importance => false end.

(* --------------------------------------------------------------------- *)
(** * Spectral values                                                     *)
(* --------------------------------------------------------------------- *)

(** Modelled from the spec: [SampledSpectrum] (pbrt/util/spectrum.h, not
    among the sources) is "a fixed-size ordered tuple of floats with
    elementwise +, x, / and a max-component reduction".  The tuple is a
    list; its length is the constant [NSpectrumSamples] below. *)
Definition Spectrum := list Float.

Fixpoint szip (op : Float -> Float -> Float) (a b : Spectrum) : Spectrum :=
  match a, b with
  | c :: a', d :: b' => op c d :: szip op a' b'
  | _, _ => []
  end.

Definition sadd : Spectrum -> Spectrum -> Spectrum := szip Qplus.
Definition smul : Spectrum -> Spectrum -> Spectrum := szip Qmult.
Definition sscale (a : Spectrum) (s : Float) : Spectrum :=
  map (fun c => c * s) a.
Definition sdiv (a : Spectrum) (s : Float) : Spectrum :=
  map (fun c => c / s) a.

(** Its conversion to [bool], as in [if (!f)]: some channel differs from
    zero ("zero value"). *)
Definition snonzero (a : Spectrum) : bool :=
  existsb (fun c => negb (c =? 0)) a.

(** [MaxComponentValue()], the "max-component reduction". *)
Definition MaxComponentValue (a : Spectrum) : Float :=
  match a with
  | [] => 0
  | c :: a' => fold_left std_max a' c
  end.

(* --------------------------------------------------------------------- *)
(** * Lobe flags                                                          *)
(* --------------------------------------------------------------------- *)

(** Modelled from the spec: the flag enumerations of pbrt/base/bxdf.h are
    not among the sources; the spec describes the flag set as
    "Reflection|Transmission x Diffuse|Glossy|Specular" and the lobe mask
    as a subset of {Reflection, Transmission}.  One bit per name. *)
Module BxDFReflTransFlags.
Definition Unset : Z := 0.
Definition Reflection : Z := 1.
Definition Transmission : Z := 2.
Definition All : Z := Z.lor Reflection Transmission.
End BxDFReflTransFlags.

Module BxDFFlags.
Definition Unset : Z := 0.
Definition Reflection : Z := 1.
Definition Transmission : Z := 2.
Definition Diffuse : Z := 4.
Definition Glossy : Z := 8.
Definition Specular : Z := 16.
Definition DiffuseReflection : Z := Z.lor Diffuse Reflection.
Definition DiffuseTransmission : Z := Z.lor Diffuse Transmission.
Definition GlossyReflection : Z := Z.lor Glossy Reflection.
Definition GlossyTransmission : Z := Z.lor Glossy Transmission.
Definition SpecularReflection : Z := Z.lor Specular Reflection.
Definition SpecularTransmission : Z := Z.lor Specular Transmission.
End BxDFFlags.

(** [flags & bit] read as a condition. *)
Definition has_flag (flags bit : Z) : bool :=
  negb (Z.eqb (Z.land flags bit) 0).

Definition IsReflective (f : Z) := has_flag f BxDFFlags.Reflection.
Definition IsTransmissive (f : Z) := has_flag f BxDFFlags.Transmission.
Definition IsDiffuse (f : Z) := has_flag f BxDFFlags.Diffuse.
Definition IsGlossy (f : Z) := has_flag f BxDFFlags.Glossy.
Definition IsSpecular (f : Z) := has_flag f BxDFFlags.Specular.

(* --------------------------------------------------------------------- *)
(** * Samples                                                             *)
(* --------------------------------------------------------------------- *)

(** Modelled from the spec: [BSDFSample] (pbrt/base/bxdf.h) is not among
    the sources.  The spec gives it as "{spectral value f, direction wi,
    density pdf, flag set, validity bit}": the four-argument constructor
    builds a sample whose validity bit is set, [return {}] the
    default-constructed sample whose bit is clear, and the conversion to
    [bool] used by [if (!bs)] reads the bit. *)
Record BSDFSample := mkBSDFSample {
  bs_f : Spectrum;
  bs_wi : Vector3f;
  bs_pdf : Float;
  bs_flags : Z;
  bs_valid : bool
}.

Definition BSDFSample_ctor (f : Spectrum) (wi : Vector3f) (pdf : Float)
    (flags : Z) : BSDFSample :=
  mkBSDFSample f wi pdf flags true.

Definition BSDFSample_none : BSDFSample :=
  mkBSDFSample [] vzero 0 BxDFFlags.Unset false.

Definition bs_IsReflection (s : BSDFSample) := IsReflective (bs_flags s).
Definition bs_IsTransmission (s : BSDFSample) := IsTransmissive (bs_flags s).

(** The lobe of a valid sample is one the mask allows. *)
Definition within_mask (s : BSDFSample) (fl : Z) : Prop :=
  bs_valid s = true ->
  (bs_IsReflection s = true ->
   has_flag fl BxDFReflTransFlags.Reflection = true)
  /\ (bs_IsTransmission s = true ->
      has_flag fl BxDFReflTransFlags.Transmission = true).

(** The flags of a sample are among the flags of the distribution. *)
Definition lobe_of (sample_flags flags : Z) : Prop :=
  Z.land sample_flags flags = sample_flags.

(** A valid sample with its direction mirrored through the origin. *)
Definition mirror_wi (s : BSDFSample) : BSDFSample :=
  if bs_valid s
  then mkBSDFSample (bs_f s) (vneg (bs_wi s)) (bs_pdf s) (bs_flags s) true
  else s.

(** Two spectral values equal channel by channel. *)
Definition same_spectrum (a b : Spectrum) : Prop := Forall2 Qeq a b.

(** Modelled from the spec: [PhaseFunctionSample] (pbrt/base/medium.h), the
    volumetric analogue, with the same validity convention. *)
Record PhaseFunctionSample := mkPhaseFunctionSample {
  ps_p : Float;
  ps_wi : Vector3f;
  ps_pdf : Float;
  ps_valid : bool
}.

(* --------------------------------------------------------------------- *)
(** * Collaborators that are not among the sources                        *)
(* --------------------------------------------------------------------- *)

(** Constants, helpers and classes that bxdfs.h includes from other
    headers (util/math.h, util/vecmath.h, util/scattering.h,
    util/sampling.h, util/rng.h, util/hash.h, media.h).  They are taken as
    parameters; nothing is assumed about them except where a theorem says
    so. *)
Class Externals := {
  (* util/math.h *)
  Pi : Float;
  InvPi : Float;
  OneMinusEpsilon : Float;
  Sqr : Float -> Float;
  Radians : Float -> Float;
  Clamp : Float -> Float -> Float -> Float;
  std_exp : Float -> Float;
  (* util/spectrum.h *)
  NSpectrumSamples : nat;
  (* util/vecmath.h *)
  CosTheta : Vector3f -> Float;
  AbsCosTheta : Vector3f -> Float;
  SinTheta : Vector3f -> Float;
  CosDPhi : Vector3f -> Vector3f -> Float;
  SameHemisphere : Vector3f -> Vector3f -> bool;
  Dot : Vector3f -> Vector3f -> Float;
  AbsDot : Vector3f -> Vector3f -> Float;
  LengthSquared : Vector3f -> Float;
  Normalize : Vector3f -> Vector3f;
  FaceForward : Vector3f -> Vector3f -> Vector3f;
  (* util/scattering.h *)
  Reflect : Vector3f -> Vector3f -> Vector3f;
  Refract : Vector3f -> Vector3f -> Float -> option Vector3f;
  FrDielectric : Float -> Float -> Float;
  FrConductor : Float -> Spectrum -> Spectrum -> Spectrum;
  FresnelMoment1 : Float -> Float;
  TrowbridgeReitzDistribution : Type;
  mf_EffectivelySpecular : TrowbridgeReitzDistribution -> bool;
  mf_D : TrowbridgeReitzDistribution -> Vector3f -> Float;
  mf_G : TrowbridgeReitzDistribution -> Vector3f -> Vector3f -> Float;
  mf_PDF : TrowbridgeReitzDistribution -> Vector3f -> Vector3f -> Float;
  mf_Sample_wm : TrowbridgeReitzDistribution -> Vector3f -> Point2f -> Vector3f;
  mf_Regularize : TrowbridgeReitzDistribution -> TrowbridgeReitzDistribution;
  (* util/sampling.h *)
  SampleCosineHemisphere : Point2f -> Vector3f;
  SampleDiscrete : list Float -> Float -> Z * Float;
  SampleExponential : Float -> Float -> Float;
  PowerHeuristic : Z -> Float -> Z -> Float -> Float;
  (* util/hash.h, util/rng.h *)
  Hash_seed_dir : Z -> Vector3f -> Z;
  Hash_dir : Vector3f -> Z;
  Hash_sample : Float -> Point2f -> Z;
  RNG : Type;
  RNG_ctor : Z -> Z -> RNG;
  RNG_Uniform : RNG -> Float * RNG;
  (* media.h: HGPhaseFunction, built from the anisotropy g *)
  HG_p : Float -> Vector3f -> Vector3f -> Float;
  HG_PDF : Float -> Vector3f -> Vector3f -> Float;
  HG_Sample_p : Float -> Vector3f -> Point2f -> PhaseFunctionSample
}.

(** Modelled from the spec: [Lerp] (pbrt/util/math.h) is not among the
    sources; the spec has the layered density "blend the stochastic
    estimate with a constant isotropic term (weight 0.1)", which is
    [Lerp(t, a, b) = (1 - t) a + t b] at [t = 0.9]. *)
Definition Lerp (t a b : Float) : Float := (1 - t) * a + t * b.

(** Modelled from the spec: [GetOptions()] returns the global options; the
    [Options] record of src/core/pbrt.h, with the global [seed] the spec's
    RNG stream is keyed by. *)
Record Options := mkOptions {
  nThreads : Z;
  seed : Z;
  quickRender : bool;
  quiet : bool
}.

Section BxDFs.
Context {E : Externals}.

(** [SampledSpectrum(c)]: every channel equal to [c]. *)
Definition SampledSpectrum (c : Float) : Spectrum := repeat c NSpectrumSamples.

(** The interface the template parameters [TopBxDF] and [BottomBxDF] are
    used through. *)
Class BxDF (T : Type) := {
  f : T -> Vector3f -> Vector3f -> TransportMode -> Spectrum;
  Sample_f : T -> Vector3f -> Float -> Point2f -> TransportMode -> Z -> BSDFSample;
  PDF : T -> Vector3f -> Vector3f -> TransportMode -> Z -> Float;
  Flags : T -> Z;
  Regularize : T -> T
}.

(* --------------------------------------------------------------------- *)
(** * IdealDiffuseBxDF                                                    *)
(* --------------------------------------------------------------------- *)

Record IdealDiffuseBxDF := mkIdealDiffuseBxDF { id_R : Spectrum }.

Definition IdealDiffuse_f (b : IdealDiffuseBxDF) (wo wi : Vector3f)
    (mode : TransportMode) : Spectrum :=
  if negb (SameHemisphere wo wi) then SampledSpectrum 0
  else sscale (id_R b) InvPi.

Definition IdealDiffuse_Sample_f (b : IdealDiffuseBxDF) (wo : Vector3f)
    (uc : Float) (u : Point2f) (mode : TransportMode) (sampleFlags : Z)
    : BSDFSample :=
  if negb (has_flag sampleFlags BxDFReflTransFlags.Reflection)
  then BSDFSample_none
  else
    let wi := SampleCosineHemisphere u in
    let wi := if z wo <? 0 then flip_z wi else wi in
    let pdf := AbsCosTheta wi * InvPi in
    BSDFSample_ctor (IdealDiffuse_f b wo wi mode) wi pdf
                    BxDFFlags.DiffuseReflection.

Definition IdealDiffuse_PDF (b : IdealDiffuseBxDF) (wo wi : Vector3f)
    (mode : TransportMode) (sampleFlags : Z) : Float :=
  if negb (has_flag sampleFlags BxDFReflTransFlags.Reflection) then 0
  else if SameHemisphere wo wi then AbsCosTheta wi * InvPi
  else 0.

Definition IdealDiffuse_Flags (b : IdealDiffuseBxDF) : Z :=
  if snonzero (id_R b) then BxDFFlags.DiffuseReflection else BxDFFlags.Unset.

#[export] Instance IdealDiffuse_BxDF : BxDF IdealDiffuseBxDF := {
  f := IdealDiffuse_f;
  Sample_f := IdealDiffuse_Sample_f;
  PDF := IdealDiffuse_PDF;
  Flags := IdealDiffuse_Flags;
  Regularize := fun b => b
}.

(* --------------------------------------------------------------------- *)
(** * DiffuseBxDF                                                         *)
(* --------------------------------------------------------------------- *)

Record DiffuseBxDF := mkDiffuseBxDF {
  df_R : Spectrum; df_T : Spectrum; df_A : Float; df_B : Float
}.

Definition DiffuseBxDF_ctor (R T : Spectrum) (sigma : Float) : DiffuseBxDF :=
  let sigma2 := Sqr (Radians sigma) in
  mkDiffuseBxDF R T
    (1 - sigma2 / (2 * (sigma2 + (33 # 100))))
    ((45 # 100) * sigma2 / (sigma2 + (9 # 100))).

Definition Diffuse_f (b : DiffuseBxDF) (wo wi : Vector3f)
    (mode : TransportMode) : Spectrum :=
  if df_B b =? 0 then
    (if SameHemisphere wo wi then sscale (df_R b) InvPi
     else sscale (df_T b) InvPi)
  else if (SameHemisphere wo wi && negb (snonzero (df_R b)))
          || (negb (SameHemisphere wo wi) && negb (snonzero (df_T b)))
  then SampledSpectrum 0
  else
    let sinTheta_i := SinTheta wi in
    let sinTheta_o := SinTheta wo in
    let maxCos :=
      if (sinTheta_i >? 0) && (sinTheta_o >? 0)
      then std_max 0 (CosDPhi wi wo) else 0 in
    let '(sinAlpha, tanBeta) :=
      if AbsCosTheta wi >? AbsCosTheta wo
      then (sinTheta_o, sinTheta_i / AbsCosTheta wi)
      else (sinTheta_i, sinTheta_o / AbsCosTheta wo) in
    if SameHemisphere wo wi
    then sscale (sscale (df_R b) InvPi)
                (df_A b + df_B b * maxCos * sinAlpha * tanBeta)
    else sscale (sscale (df_T b) InvPi)
                (df_A b + df_B b * maxCos * sinAlpha * tanBeta).

Definition Diffuse_Sample_f (b : DiffuseBxDF) (wo : Vector3f)
    (uc : Float) (u : Point2f) (mode : TransportMode) (sampleFlags : Z)
    : BSDFSample :=
  let pr := MaxComponentValue (df_R b) in
  let pt := MaxComponentValue (df_T b) in
  let pr := if negb (has_flag sampleFlags BxDFReflTransFlags.Reflection)
            then 0 else pr in
  let pt := if negb (has_flag sampleFlags BxDFReflTransFlags.Transmission)
            then 0 else pt in
  if (pr =? 0) && (pt =? 0) then BSDFSample_none
  else
    let '(idx, cpdf) := SampleDiscrete [pr; pt] uc in
    if Z.eqb idx 0 then
      let wi := SampleCosineHemisphere u in
      let wi := if z wo <? 0 then flip_z wi else wi in
      let pdf := AbsCosTheta wi * InvPi * cpdf in
      BSDFSample_ctor (Diffuse_f b wo wi mode) wi pdf
                      BxDFFlags.DiffuseReflection
    else
      let wi := SampleCosineHemisphere u in
      let wi := if z wo >? 0 then flip_z wi else wi in
      let pdf := AbsCosTheta wi * InvPi * cpdf in
      BSDFSample_ctor (Diffuse_f b wo wi mode) wi pdf
                      BxDFFlags.DiffuseTransmission.

Definition Diffuse_PDF (b : DiffuseBxDF) (wo wi : Vector3f)
    (mode : TransportMode) (sampleFlags : Z) : Float :=
  let pr := MaxComponentValue (df_R b) in
  let pt := MaxComponentValue (df_T b) in
  let pr := if negb (has_flag sampleFlags BxDFReflTransFlags.Reflection)
            then 0 else pr in
  let pt := if negb (has_flag sampleFlags BxDFReflTransFlags.Transmission)
            then 0 else pt in
  if (pr =? 0) && (pt =? 0) then 0
  else if SameHemisphere wo wi
  then pr / (pr + pt) * AbsCosTheta wi * InvPi
  else pt / (pr + pt) * AbsCosTheta wi * InvPi.

Definition Diffuse_Flags (b : DiffuseBxDF) : Z :=
  Z.lor (if snonzero (df_R b) then BxDFFlags.DiffuseReflection
         else BxDFFlags.Unset)
        (if snonzero (df_T b) then BxDFFlags.DiffuseTransmission
         else BxDFFlags.Unset).

#[export] Instance Diffuse_BxDF : BxDF DiffuseBxDF := {
  f := Diffuse_f;
  Sample_f := Diffuse_Sample_f;
  PDF := Diffuse_PDF;
  Flags := Diffuse_Flags;
  Regularize := fun b => b
}.

(* --------------------------------------------------------------------- *)
(** * DielectricInterfaceBxDF                                             *)
(* --------------------------------------------------------------------- *)

Record DielectricInterfaceBxDF := mkDielectricInterfaceBxDF {
  di_eta : Float;
  di_mfDistrib : TrowbridgeReitzDistribution
}.

(** [: eta(eta == 1 ? 1.001 : eta), mfDistrib(mfDistrib) {}] *)
Definition DielectricInterfaceBxDF_ctor (eta : Float)
    (mfDistrib : TrowbridgeReitzDistribution) : DielectricInterfaceBxDF :=
  mkDielectricInterfaceBxDF (if eta =? 1 then 1001 # 1000 else eta) mfDistrib.

Definition up : Vector3f := mkVector3f 0 0 1.

Definition DielectricInterface_Flags (b : DielectricInterfaceBxDF) : Z :=
  Z.lor (Z.lor BxDFFlags.Reflection BxDFFlags.Transmission)
        (if mf_EffectivelySpecular (di_mfDistrib b)
         then BxDFFlags.Specular else BxDFFlags.Glossy).

Definition DielectricInterface_f (b : DielectricInterfaceBxDF)
    (wo wi : Vector3f) (mode : TransportMode) : Spectrum :=
  let eta := di_eta b in
  let mf := di_mfDistrib b in
  if mf_EffectivelySpecular mf then SampledSpectrum 0
  else if SameHemisphere wo wi then
    (* reflection at the non-delta interface *)
    let cosTheta_o := AbsCosTheta wo in
    let cosTheta_i := AbsCosTheta wi in
    let wh := vadd wi wo in
    if (cosTheta_i =? 0) || (cosTheta_o =? 0) then SampledSpectrum 0
    else if (x wh =? 0) && (y wh =? 0) && (z wh =? 0) then SampledSpectrum 0
    else
      let wh := Normalize wh in
      let F := FrDielectric (Dot wi (FaceForward wh up)) eta in
      SampledSpectrum (mf_D mf wh * mf_G mf wo wi * F
                       / (4 * cosTheta_i * cosTheta_o))
  else
    (* transmission at the non-delta interface *)
    let cosTheta_o := CosTheta wo in
    let cosTheta_i := CosTheta wi in
    if (cosTheta_i =? 0) || (cosTheta_o =? 0) then SampledSpectrum 0
    else
      let etap := if CosTheta wo >? 0 then eta else 1 / eta in
      let wh := vadd wo (vscale wi etap) in
      if LengthSquared wh =? 0 then SampledSpectrum 0
      else
        let wh := FaceForward (Normalize wh) up in
        if Dot wi wh * Dot wo wh >? 0 then SampledSpectrum 0
        else
          let F := FrDielectric (Dot wo wh) eta in
          let sqrtDenom := Dot wo wh + etap * Dot wi wh in
          let factor := if is_Radiance mode then Sqr (1 / etap) else 1 in
          SampledSpectrum
            ((1 - F) * factor *
             std_abs (mf_D mf wh * mf_G mf wo wi * AbsDot wi wh * AbsDot wo wh
                      / (cosTheta_i * cosTheta_o * Sqr sqrtDenom))).

Definition DielectricInterface_Sample_f (b : DielectricInterfaceBxDF)
    (wo : Vector3f) (uc : Float) (u : Point2f) (mode : TransportMode)
    (sampleFlags : Z) : BSDFSample :=
  let eta := di_eta b in
  let mf := di_mfDistrib b in
  if z wo =? 0 then BSDFSample_none
  else if mf_EffectivelySpecular mf then
    (* delta interface *)
    let R := FrDielectric (CosTheta wo) eta in
    let T := 1 - R in
    let pr := if negb (has_flag sampleFlags BxDFReflTransFlags.Reflection)
              then 0 else R in
    let pt := if negb (has_flag sampleFlags BxDFReflTransFlags.Transmission)
              then 0 else T in
    if (pr =? 0) && (pt =? 0) then BSDFSample_none
    else if uc <? pr / (pr + pt) then
      let wi := mkVector3f (- x wo) (- y wo) (z wo) in
      let fr := SampledSpectrum (R / AbsCosTheta wi) in
      BSDFSample_ctor fr wi (pr / (pr + pt)) BxDFFlags.SpecularReflection
    else
      let entering := CosTheta wo >? 0 in
      let etap := if entering then eta else 1 / eta in
      match Refract wo (FaceForward up wo) etap with
      | None => BSDFSample_none
      | Some wi =>
          let ft := SampledSpectrum (T / AbsCosTheta wi) in
          let ft := if is_Radiance mode then sdiv ft (Sqr etap) else ft in
          BSDFSample_ctor ft wi (pt / (pr + pt))
                          BxDFFlags.SpecularTransmission
      end
  else
    (* non-delta interface *)
    let wh := mf_Sample_wm mf wo u in
    let F := FrDielectric (Dot (Reflect wo wh) (FaceForward wh up)) eta in
    let R := F in
    let T := 1 - R in
    let pr := if negb (has_flag sampleFlags BxDFReflTransFlags.Reflection)
              then 0 else R in
    let pt := if negb (has_flag sampleFlags BxDFReflTransFlags.Transmission)
              then 0 else T in
    if (pr =? 0) && (pt =? 0) then BSDFSample_none
    else if uc <? pr / (pr + pt) then
      let wi := Reflect wo wh in
      if negb (SameHemisphere wo wi) || (Dot wo wh <=? 0) then BSDFSample_none
      else
        let pdf := mf_PDF mf wo wh / (4 * Dot wo wh) * pr / (pr + pt) in
        let cosTheta_o := AbsCosTheta wo in
        let cosTheta_i := AbsCosTheta wi in
        if (cosTheta_i =? 0) || (cosTheta_o =? 0) then BSDFSample_none
        else
          let f := SampledSpectrum (mf_D mf wh * mf_G mf wo wi * F
                                    / (4 * cosTheta_i * cosTheta_o)) in
          if mf_EffectivelySpecular mf
          then BSDFSample_ctor (sdiv f pdf) wi 1 BxDFFlags.SpecularReflection
          else BSDFSample_ctor f wi pdf BxDFFlags.GlossyReflection
    else
      let etap := if CosTheta wo >? 0 then eta else 1 / eta in
      let refracted := Refract wo wh etap in
      let wi := match refracted with Some v => v | None => vzero end in
      let tir := match refracted with Some _ => false | None => true end in
      if SameHemisphere wo wi then BSDFSample_none
      else if tir || (z wi =? 0) then BSDFSample_none
      else
        let wh := FaceForward wh up in
        let sqrtDenom := Dot wo wh + etap * Dot wi wh in
        let factor := if is_Radiance mode then Sqr (1 / etap) else 1 in
        let f := SampledSpectrum
                   ((1 - F) * factor *
                    std_abs (mf_D mf wh * mf_G mf wo wi * AbsDot wi wh
                             * AbsDot wo wh
                             / (AbsCosTheta wi * AbsCosTheta wo
                                * Sqr sqrtDenom))) in
        let dwh_dwi := AbsDot wi wh / Sqr (Dot wo wh + etap * Dot wi wh) in
        let pdf := mf_PDF mf wo wh * dwh_dwi * pt / (pr + pt) in
        if mf_EffectivelySpecular mf
        then BSDFSample_ctor (sdiv f pdf) wi 1 BxDFFlags.SpecularTransmission
        else BSDFSample_ctor f wi pdf BxDFFlags.GlossyTransmission.

Definition DielectricInterface_PDF (b : DielectricInterfaceBxDF)
    (wo wi : Vector3f) (mode : TransportMode) (sampleFlags : Z) : Float :=
  let eta := di_eta b in
  let mf := di_mfDistrib b in
  if mf_EffectivelySpecular mf then 0
  else if SameHemisphere wo wi then
    if negb (has_flag sampleFlags BxDFReflTransFlags.Reflection) then 0
    else
      let wh := vadd wo wi in
      if (LengthSquared wh =? 0) || (Dot wo wh <=? 0) then 0
      else
        let wh := Normalize wh in
        let F := FrDielectric (Dot wi (FaceForward wh up)) eta in
        let pr := F in
        let pt := if negb (has_flag sampleFlags BxDFReflTransFlags.Transmission)
                  then 0 else 1 - F in
        mf_PDF mf wo wh / (4 * Dot wo wh) * pr / (pr + pt)
  else
    if negb (has_flag sampleFlags BxDFReflTransFlags.Transmission) then 0
    else
      let etap := if CosTheta wo >? 0 then eta else 1 / eta in
      let wh := vadd wo (vscale wi etap) in
      if LengthSquared wh =? 0 then 0
      else
        let wh := Normalize wh in
        if Dot wi wh * Dot wo wh >? 0 then 0
        else
          let F := FrDielectric (Dot wo (FaceForward wh up)) eta in
          let pt := 1 - F in
          if pt =? 0 then 0
          else
            let pr := if negb (has_flag sampleFlags
                                 BxDFReflTransFlags.Reflection)
                      then 0 else F in
            let dwh_dwi :=
              AbsDot wi wh / Sqr (Dot wo wh + etap * Dot wi wh) in
            mf_PDF mf wo wh * dwh_dwi * pt / (pr + pt).

Definition DielectricInterface_Regularize (b : DielectricInterfaceBxDF)
    : DielectricInterfaceBxDF :=
  mkDielectricInterfaceBxDF (di_eta b) (mf_Regularize (di_mfDistrib b)).

#[export] Instance DielectricInterface_BxDF : BxDF DielectricInterfaceBxDF := {
  f := DielectricInterface_f;
  Sample_f := DielectricInterface_Sample_f;
  PDF := DielectricInterface_PDF;
  Flags := DielectricInterface_Flags;
  Regularize := DielectricInterface_Regularize
}.

(* --------------------------------------------------------------------- *)
(** * ThinDielectricBxDF                                                  *)
(* --------------------------------------------------------------------- *)

Record ThinDielectricBxDF := mkThinDielectricBxDF { td_eta : Float }.

Definition ThinDielectric_f (b : ThinDielectricBxDF) (wo wi : Vector3f)
    (mode : TransportMode) : Spectrum :=
  SampledSpectrum 0.

Definition ThinDielectric_Sample_f (b : ThinDielectricBxDF) (wo : Vector3f)
    (uc : Float) (u : Point2f) (mode : TransportMode) (sampleFlags : Z)
    : BSDFSample :=
  let R := FrDielectric (CosTheta wo) (td_eta b) in
  let T := 1 - R in
  (* scattering between the two interfaces *)
  let '(R, T) :=
    if R <? 1 then
      let R' := R + T * T * R / (1 - R * R) in (R', 1 - R')
    else (R, T) in
  let pr := if negb (has_flag sampleFlags BxDFReflTransFlags.Reflection)
            then 0 else R in
  let pt := if negb (has_flag sampleFlags BxDFReflTransFlags.Transmission)
            then 0 else T in
  if (pr =? 0) && (pt =? 0) then BSDFSample_none
  else if uc <? pr / (pr + pt) then
    let wi := mkVector3f (- x wo) (- y wo) (z wo) in
    let fr := SampledSpectrum (R / AbsCosTheta wi) in
    BSDFSample_ctor fr wi (pr / (pr + pt)) BxDFFlags.SpecularReflection
  else
    let wi := vneg wo in
    let ft := SampledSpectrum (T / AbsCosTheta wi) in
    BSDFSample_ctor ft wi (pt / (pr + pt)) BxDFFlags.SpecularTransmission.

Definition ThinDielectric_PDF (b : ThinDielectricBxDF) (wo wi : Vector3f)
    (mode : TransportMode) (sampleFlags : Z) : Float := 0.

Definition ThinDielectric_Flags (b : ThinDielectricBxDF) : Z :=
  Z.lor (Z.lor BxDFFlags.Reflection BxDFFlags.Transmission) BxDFFlags.Specular.

#[export] Instance ThinDielectric_BxDF : BxDF ThinDielectricBxDF := {
  f := ThinDielectric_f;
  Sample_f := ThinDielectric_Sample_f;
  PDF := ThinDielectric_PDF;
  Flags := ThinDielectric_Flags;
  Regularize := fun b => b
}.

(* --------------------------------------------------------------------- *)
(** * ConductorBxDF                                                       *)
(* --------------------------------------------------------------------- *)

Record ConductorBxDF := mkConductorBxDF {
  cd_mfDistrib : TrowbridgeReitzDistribution;
  cd_eta : Spectrum;
  cd_k : Spectrum
}.

Definition Conductor_Flags (b : ConductorBxDF) : Z :=
  if mf_EffectivelySpecular (cd_mfDistrib b)
  then Z.lor BxDFFlags.Reflection BxDFFlags.Specular
  else Z.lor BxDFFlags.Reflection BxDFFlags.Glossy.

Definition Conductor_f (b : ConductorBxDF) (wo wi : Vector3f)
    (mode : TransportMode) : Spectrum :=
  let mf := cd_mfDistrib b in
  if negb (SameHemisphere wo wi) then SampledSpectrum 0
  else if mf_EffectivelySpecular mf then SampledSpectrum 0
  else
    let cosTheta_o := AbsCosTheta wo in
    let cosTheta_i := AbsCosTheta wi in
    let wh := vadd wi wo in
    if (cosTheta_i =? 0) || (cosTheta_o =? 0) then SampledSpectrum 0
    else if (x wh =? 0) && (y wh =? 0) && (z wh =? 0) then SampledSpectrum 0
    else
      let wh := Normalize wh in
      let frCosTheta_i := AbsDot wi (FaceForward wh up) in
      let F := FrConductor frCosTheta_i (cd_eta b) (cd_k b) in
      sdiv (sscale F (mf_D mf wh * mf_G mf wo wi))
           (4 * cosTheta_i * cosTheta_o).

Definition Conductor_Sample_f (b : ConductorBxDF) (wo : Vector3f)
    (uc : Float) (u : Point2f) (mode : TransportMode) (sampleFlags : Z)
    : BSDFSample :=
  let mf := cd_mfDistrib b in
  if negb (has_flag sampleFlags BxDFReflTransFlags.Reflection)
  then BSDFSample_none
  else if mf_EffectivelySpecular mf then
    (* perfect specular reflection *)
    let wi := mkVector3f (- x wo) (- y wo) (z wo) in
    let f := sdiv (FrConductor (AbsCosTheta wi) (cd_eta b) (cd_k b))
                  (AbsCosTheta wi) in
    BSDFSample_ctor f wi 1 BxDFFlags.SpecularReflection
  else if z wo =? 0 then BSDFSample_none
  else
    let wh := mf_Sample_wm mf wo u in
    let wi := Reflect wo wh in
    if negb (SameHemisphere wo wi) || (Dot wo wh <=? 0) then BSDFSample_none
    else
      let pdf := mf_PDF mf wo wh / (4 * Dot wo wh) in
      let cosTheta_o := AbsCosTheta wo in
      let cosTheta_i := AbsCosTheta wi in
      if (cosTheta_i =? 0) || (cosTheta_o =? 0) then BSDFSample_none
      else
        let frCosTheta_i := AbsDot wi (FaceForward wh up) in
        let F := FrConductor frCosTheta_i (cd_eta b) (cd_k b) in
        let f := sdiv (sscale F (mf_D mf wh * mf_G mf wo wi))
                      (4 * cosTheta_i * cosTheta_o) in
        BSDFSample_ctor f wi pdf BxDFFlags.GlossyReflection.

Definition Conductor_PDF (b : ConductorBxDF) (wo wi : Vector3f)
    (mode : TransportMode) (sampleFlags : Z) : Float :=
  let mf := cd_mfDistrib b in
  if negb (has_flag sampleFlags BxDFReflTransFlags.Reflection) then 0
  else if negb (SameHemisphere wo wi) then 0
  else if mf_EffectivelySpecular mf then 0
  else
    let wh := vadd wo wi in
    if (LengthSquared wh =? 0) || (Dot wo wh <=? 0) then 0
    else
      let wh := Normalize wh in
      mf_PDF mf wo wh / (4 * Dot wo wh).

Definition Conductor_Regularize (b : ConductorBxDF) : ConductorBxDF :=
  mkConductorBxDF (mf_Regularize (cd_mfDistrib b)) (cd_eta b) (cd_k b).

#[export] Instance Conductor_BxDF : BxDF ConductorBxDF := {
  f := Conductor_f;
  Sample_f := Conductor_Sample_f;
  PDF := Conductor_PDF;
  Flags := Conductor_Flags;
  Regularize := Conductor_Regularize
}.

(* --------------------------------------------------------------------- *)
(** * BSSRDFAdapter                                                       *)
(* --------------------------------------------------------------------- *)

Record BSSRDFAdapter := mkBSSRDFAdapter { ba_eta : Float }.

Definition BSSRDFAdapter_f (b : BSSRDFAdapter) (wo wi : Vector3f)
    (mode : TransportMode) : Spectrum :=
  if negb (SameHemisphere wo wi) then SampledSpectrum 0
  else
    let c := 1 - 2 * FresnelMoment1 (1 / ba_eta b) in
    let f := SampledSpectrum
               ((1 - FrDielectric (CosTheta wi) (ba_eta b)) / (c * Pi)) in
    if is_Radiance mode then sscale f (Sqr (ba_eta b)) else f.

Definition BSSRDFAdapter_PDF (b : BSSRDFAdapter) (wo wi : Vector3f)
    (mode : TransportMode) (sampleFlags : Z) : Float :=
  if negb (has_flag sampleFlags BxDFReflTransFlags.Reflection) then 0
  else if SameHemisphere wo wi then AbsCosTheta wi * InvPi else 0.

Definition BSSRDFAdapter_Sample_f (b : BSSRDFAdapter) (wo : Vector3f)
    (uc : Float) (u : Point2f) (mode : TransportMode) (sampleFlags : Z)
    : BSDFSample :=
  if negb (has_flag sampleFlags BxDFReflTransFlags.Reflection)
  then BSDFSample_none
  else
    let wi := SampleCosineHemisphere u in
    let wi := if z wo <? 0 then flip_z wi else wi in
    BSDFSample_ctor (BSSRDFAdapter_f b wo wi mode) wi
                    (BSSRDFAdapter_PDF b wo wi mode sampleFlags)
                    BxDFFlags.DiffuseReflection.

Definition BSSRDFAdapter_Flags (b : BSSRDFAdapter) : Z :=
  Z.lor BxDFFlags.Reflection BxDFFlags.Diffuse.

#[export] Instance BSSRDFAdapter_BxDF : BxDF BSSRDFAdapter := {
  f := BSSRDFAdapter_f;
  Sample_f := BSSRDFAdapter_Sample_f;
  PDF := BSSRDFAdapter_PDF;
  Flags := BSSRDFAdapter_Flags;
  Regularize := fun b => b
}.

(* --------------------------------------------------------------------- *)
(** * Random numbers inside the layered evaluator                         *)
(* --------------------------------------------------------------------- *)

(** Code that draws from the local [RNG rng] threads its state. *)
Definition Rand (A : Type) : Type := RNG -> A * RNG.

Definition ret {A} (a : A) : Rand A := fun rng => (a, rng).
Definition bind {A B} (c : Rand A) (k : A -> Rand B) : Rand B :=
  fun rng => let '(a, rng') := c rng in k a rng'.

Notation "v <- c ;; k" := (bind c (fun v => k))
  (at level 61, c at next level, right associativity).

(** [auto r = [&rng]() { return std::min<Float>(rng.Uniform<Float>(),
    OneMinusEpsilon); };] *)
Definition r : Rand Float :=
  fun rng => let '(v, rng') := RNG_Uniform rng in
             (std_min v OneMinusEpsilon, rng').

(** [Point2f u(r(), r())], the first coordinate drawn first. *)
Definition r2 : Rand Point2f :=
  a <- r ;; b <- r ;; ret (mkPoint2f a b).




(** What an iteration of a [for] loop decides: go on with the next
    iteration ([continue], or the end of the body), or leave the loop
    ([break]). *)
Inductive Ctl (S : Type) := Continue (s : S) | Break (s : S).
Arguments Continue {S} s.
Arguments Break {S} s.

(* --------------------------------------------------------------------- *)
(** * TopOrBottomBxDF and LayeredBxDF                                     *)
(* --------------------------------------------------------------------- *)

Record LayeredBxDFConfig := mkLayeredBxDFConfig {
  maxDepth : nat;     (* uint8_t maxDepth = 10 *)
  nSamples : nat;     (* uint8_t nSamples = 1 *)
  twoSided : bool     (* uint8_t twoSided = true *)
}.

Section Layered.
Context {TopBxDF BottomBxDF : Type}.
Context {TopOps : BxDF TopBxDF} {BottomOps : BxDF BottomBxDF}.
Variable SupportAttenuation : bool.

(** Exactly one of the two pointers of a [TopOrBottomBxDF] is set. *)
Inductive TopOrBottomBxDF :=
  | tb_top (t : TopBxDF)
  | tb_bottom (b : BottomBxDF).

Definition tb_f (i : TopOrBottomBxDF) wo wi mode : Spectrum :=
  match i with tb_top t => f t wo wi mode | tb_bottom b => f b wo wi mode end.
Definition tb_Sample_f (i : TopOrBottomBxDF) wo uc u mode sampleFlags :=
  match i with
  | tb_top t => Sample_f t wo uc u mode sampleFlags
  | tb_bottom b => Sample_f b wo uc u mode sampleFlags
  end.
Definition tb_PDF (i : TopOrBottomBxDF) wo wi mode sampleFlags : Float :=
  match i with
  | tb_top t => PDF t wo wi mode sampleFlags
  | tb_bottom b => PDF b wo wi mode sampleFlags
  end.
Definition tb_Flags (i : TopOrBottomBxDF) : Z :=
  match i with tb_top t => Flags t | tb_bottom b => Flags b end.

Record LayeredBxDF := mkLayeredBxDF {
  top : TopBxDF;
  bottom : BottomBxDF;
  thickness : Float;
  g : Float;
  albedo : Spectrum;
  config : LayeredBxDFConfig
}.

(** The constructor clamps the thickness from below.  This is the
    constructor on the rationals the development computes with;
    [thickness_init] below is its clamp on every value the argument can
    hold. *)
Definition LayeredBxDF_ctor (top : TopBxDF) (bottom : BottomBxDF)
    (thickness : Float) (albedo : Spectrum) (g : Float)
    (config : LayeredBxDFConfig) : LayeredBxDF :=
  mkLayeredBxDF top bottom (std_max thickness FloatMin) g albedo config.

(** The member initialiser [thickness(std::max(thickness,
    std::numeric_limits<Float>::min()))] on every value a [Float] argument
    can hold. *)
Definition thickness_init (thickness : XFloat) : XFloat :=
  xmax thickness (Finite FloatMin).

(** [LayeredBxDF() = default;].  [top], [bottom] and [albedo] are
    default-constructed, [config] takes its default member initialisers;
    [thickness] and [g] have none and keep what their storage held. *)
Definition LayeredBxDF_default (top : TopBxDF) (bottom : BottomBxDF)
    (albedo : Spectrum) (thickness_unset g_unset : Float) : LayeredBxDF :=
  mkLayeredBxDF top bottom thickness_unset g_unset albedo
                (mkLayeredBxDFConfig 10 1 true).

Definition Layered_Regularize (l : LayeredBxDF) : LayeredBxDF :=
  mkLayeredBxDF (Regularize (top l)) (Regularize (bottom l))
                (thickness l) (g l) (albedo l) (config l).

(** [Flags()] starts with a [CHECK] that one of the two interfaces
    transmits; [None] is the failed check. *)
Definition Layered_Flags (l : LayeredBxDF) : option Z :=
  let topFlags := Flags (top l) in
  let bottomFlags := Flags (bottom l) in
  if negb (IsTransmissive topFlags || IsTransmissive bottomFlags) then None
  else
    let flags := BxDFFlags.Reflection in
    let flags := if IsSpecular topFlags
                 then Z.lor flags BxDFFlags.Specular else flags in
    let flags :=
      if IsDiffuse topFlags || IsDiffuse bottomFlags || snonzero (albedo l)
      then Z.lor flags BxDFFlags.Diffuse
      else if IsGlossy topFlags || IsGlossy bottomFlags
      then Z.lor flags BxDFFlags.Glossy else flags in
    let flags := if IsTransmissive topFlags && IsTransmissive bottomFlags
                 then Z.lor flags BxDFFlags.Transmission else flags in
    Some flags.

(** [LayeredBxDF::Tr].  For a direction along the surface the quotient
    [-std::abs(dz) / AbsCosTheta(w)] has a zero divisor under a numerator
    that is not zero: it is minus infinity, and [std::exp] of it is 0. *)
Definition Tr (dz : Float) (w : Vector3f) : Float :=
  if std_abs dz <=? FloatMin then 1
  else if AbsCosTheta w =? 0 then 0
  else std_exp (- std_abs dz / AbsCosTheta w).

(** ** LayeredBxDF::f *)

(** The state of the random walk of [f]: throughput, direction, depth in
    the slab, and the estimate accumulated so far. *)
Record WalkState := mkWalkState {
  ws_beta : Spectrum;
  ws_w : Vector3f;
  ws_z : Float;
  ws_f : Spectrum
}.

(** "Possibly terminate layered BSDF random walk with Russian Roulette":
    [None] is the [break], [Some beta'] the throughput the walk goes on
    with. *)
Definition f_roulette (depth : nat) (beta : Spectrum)
    : Rand (option Spectrum) :=
  if (3 <? depth)%nat && (MaxComponentValue beta <? (1 # 4)) then
    let q := std_max 0 (1 - MaxComponentValue beta) in
    v <- r ;;
    if v <? q then ret None
    else ret (Some (sdiv beta (1 - q)))
  else ret (Some beta).

Section Walk.
Variable l : LayeredBxDF.
Variables (wo wi : Vector3f) (mode : TransportMode).
Variables (exitInterface nonExitInterface : TopOrBottomBxDF).
Variable exitZ : Float.
Variables (wis : BSDFSample) (betaExit : Spectrum).

(** The body of the [depth] loop after the roulette. *)
Definition f_walk_event (st : WalkState) : Rand (Ctl WalkState) :=
  let beta := ws_beta st in
  let w := ws_w st in
  let z0 := ws_z st in
  let facc := ws_f st in
  (* the part shared by the two ways of reaching a boundary *)
  let boundary (beta : Spectrum) (z1 : Float) : Rand (Ctl WalkState) :=
    if z1 =? exitZ then
      (* reflection at the exit interface *)
      uc <- r ;; u <- r2 ;;
      let bs := tb_Sample_f exitInterface (vneg w) uc u mode
                            BxDFReflTransFlags.Reflection in
      if negb (bs_valid bs) || (bs_pdf bs =? 0) || (z (bs_wi bs) =? 0)
      then ret (Break (mkWalkState beta w z1 facc))
      else
        let beta := smul beta (sdiv (sscale (bs_f bs) (AbsCosTheta (bs_wi bs)))
                                    (bs_pdf bs)) in
        ret (Continue (mkWalkState beta (bs_wi bs) z1 facc))
    else
      (* scattering at the other interface *)
      let facc :=
        if negb (IsSpecular (tb_Flags nonExitInterface)) then
          let wt :=
            if negb (IsSpecular (tb_Flags exitInterface))
            then PowerHeuristic 1 (bs_pdf wis) 1
                   (tb_PDF nonExitInterface (vneg w) (vneg (bs_wi wis)) mode
                           BxDFReflTransFlags.All)
            else 1 in
          sadd facc
            (smul (sscale (sscale (sscale
                     (smul beta (tb_f nonExitInterface (vneg w)
                                      (vneg (bs_wi wis)) mode))
                     (AbsCosTheta (bs_wi wis))) wt)
                     (Tr (thickness l) (bs_wi wis)))
                  betaExit)
        else facc in
      uc <- r ;; u <- r2 ;;
      let bs := tb_Sample_f nonExitInterface (vneg w) uc u mode
                            BxDFReflTransFlags.Reflection in
      if negb (bs_valid bs) || (z (bs_wi bs) =? 0)
      then ret (Break (mkWalkState beta w z1 facc))
      else
        let beta := smul beta (sdiv (sscale (bs_f bs) (AbsCosTheta (bs_wi bs)))
                                    (bs_pdf bs)) in
        let w := bs_wi bs in
        let facc :=
          if negb (IsSpecular (tb_Flags exitInterface)) then
            let fExit := tb_f exitInterface (vneg w) wi mode in
            if snonzero fExit then
              let wt :=
                if negb (IsSpecular (tb_Flags nonExitInterface))
                then PowerHeuristic 1 (bs_pdf bs) 1
                       (tb_PDF exitInterface (vneg w) wi mode
                               BxDFReflTransFlags.Transmission)
                else 1 in
              sadd facc
                (sscale (smul (sscale beta (Tr (thickness l) (bs_wi bs)))
                              fExit) wt)
            else facc
          else facc in
        ret (Continue (mkWalkState beta w z1 facc)) in
  if SupportAttenuation && snonzero (albedo l) then
    (* medium scattering *)
    let sigma_t := 1 in
    v <- r ;;
    let dz := SampleExponential v (sigma_t / AbsCosTheta w) in
    let zp := if z w >? 0 then z0 + dz else z0 - dz in
    if z0 =? zp then ret (Continue (mkWalkState beta w z0 facc))
    else if (0 <? zp) && (zp <? thickness l) then
      (* scattering event inside the medium *)
      let wt :=
        if negb (IsSpecular (tb_Flags exitInterface))
        then PowerHeuristic 1 (bs_pdf wis) 1
               (HG_PDF (g l) (vneg w) (vneg (bs_wi wis)))
        else 1 in
      let te := Tr (zp - exitZ) (bs_wi wis) in
      let facc :=
        sadd facc
          (smul (sscale (sscale (sscale (smul beta (albedo l))
                   (HG_p (g l) (vneg w) (vneg (bs_wi wis)))) wt) te)
                betaExit) in
      u <- r2 ;;
      let ps := HG_Sample_p (g l) (vneg w) u in
      if negb (ps_valid ps) || (z (ps_wi ps) =? 0)
      then ret (Continue (mkWalkState beta w z0 facc))
      else
        let beta := smul beta (sdiv (sscale (albedo l) (ps_p ps)) (ps_pdf ps)) in
        let w := ps_wi ps in
        let facc :=
          if negb (IsSpecular (tb_Flags exitInterface)) then
            let fExit := tb_f exitInterface (vneg w) wi mode in
            if snonzero fExit then
              let exitPDF := tb_PDF exitInterface (vneg w) wi mode
                                    BxDFReflTransFlags.Transmission in
              let weight := PowerHeuristic 1 (ps_pdf ps) 1 exitPDF in
              sadd facc
                (sscale (smul (sscale beta (Tr (zp - exitZ) (ps_wi ps)))
                              fExit) weight)
            else facc
          else facc in
        ret (Continue (mkWalkState beta w zp facc))
    else boundary beta (Clamp zp 0 (thickness l))
  else
    (* advance to the next layer boundary *)
    let z1 := if z0 =? thickness l then 0 else thickness l in
    boundary (sscale beta (Tr (thickness l) w)) z1.

(** One iteration of [for (int depth = 0; depth < config.maxDepth;
    ++depth)]. *)
Definition f_walk_step (depth : nat) (st : WalkState)
    : Rand (Ctl WalkState) :=
  rr <- f_roulette depth (ws_beta st) ;;
  match rr with
  | None => ret (Break st)
  | Some beta =>
      f_walk_event (mkWalkState beta (ws_w st) (ws_z st) (ws_f st))
  end.

(** The loop: [n] iterations remain, the counter stands at [depth]. *)
Fixpoint f_walk (n depth : nat) (st : WalkState) : Rand WalkState :=
  match n with
  | O => ret st
  | S n' =>
      c <- f_walk_step depth st ;;
      match c with
      | Break st' => ret st'
      | Continue st' => f_walk n' (S depth) st'
      end
  end.

End Walk.

(** An integer count converted to [Float]. *)
Definition of_count (n : nat) : Float := inject_Z (Z.of_nat n).

(** One iteration of [for (int s = 0; s < config.nSamples; ++s)]: a random
    walk through the layers, added to the running estimate [facc]. *)
Definition f_sample (l : LayeredBxDF) (wo wi : Vector3f)
    (mode : TransportMode) (enteredTop : bool)
    (enterInterface exitInterface nonExitInterface : TopOrBottomBxDF)
    (exitZ : Float) (facc : Spectrum) : Rand Spectrum :=
  (* transmission direction through the entrance interface *)
  uc <- r ;; u <- r2 ;;
  let wos := tb_Sample_f enterInterface wo uc u mode
                         BxDFReflTransFlags.Transmission in
  if negb (bs_valid wos) || (z (bs_wi wos) =? 0) then ret facc
  else
    (* BSDF sample for NEE in wi's direction *)
    uc <- r ;; u <- r2 ;;
    let wis := tb_Sample_f exitInterface wi uc u (mode_flip mode)
                           BxDFReflTransFlags.Transmission in
    if negb (bs_valid wis) || (z (bs_wi wis) =? 0) then ret facc
    else
      let beta := sdiv (sscale (bs_f wos) (AbsCosTheta (bs_wi wos)))
                       (bs_pdf wos) in
      let betaExit := sdiv (bs_f wis) (bs_pdf wis) in
      let w := bs_wi wos in
      let z0 := if enteredTop then thickness l else 0 in
      st <- f_walk l wi mode exitInterface nonExitInterface exitZ wis betaExit
                   (maxDepth (config l)) 0 (mkWalkState beta w z0 facc) ;;
      ret (ws_f st).

Fixpoint f_samples (n : nat) (body : Spectrum -> Rand Spectrum)
    (facc : Spectrum) : Rand Spectrum :=
  match n with
  | O => ret facc
  | S n' => facc' <- body facc ;; f_samples n' body facc'
  end.

(** The evaluation proper, from the stream [rng] on; [wo] and [wi] are the
    directions after the two-sided flip. *)
Definition f_from (l : LayeredBxDF) (wo wi : Vector3f) (mode : TransportMode)
    (rng : RNG) : Spectrum :=
  let enteredTop := z wo >? 0 in
  let enterInterface :=
    if enteredTop then tb_top (top l) else tb_bottom (bottom l) in
  let exitInterface :=
    if xorb (SameHemisphere wo wi) enteredTop
    then tb_bottom (bottom l) else tb_top (top l) in
  let nonExitInterface :=
    if xorb (SameHemisphere wo wi) enteredTop
    then tb_top (top l) else tb_bottom (bottom l) in
  let exitZ :=
    if xorb (SameHemisphere wo wi) enteredTop then 0 else thickness l in
  (* reflection at the entrance interface *)
  let f0 :=
    if SameHemisphere wo wi
    then sscale (tb_f enterInterface wo wi mode) (of_count (nSamples (config l)))
    else SampledSpectrum 0 in
  let fsum :=
    fst (f_samples (nSamples (config l))
           (f_sample l wo wi mode enteredTop enterInterface exitInterface
                     nonExitInterface exitZ)
           f0 rng) in
  sdiv fsum (of_count (nSamples (config l))).

(** The directions [PDF] and [f] work with: both negated when the layers
    are two-sided and [wo] is below the surface. *)
Definition two_sided_flip (l : LayeredBxDF) (wo wi : Vector3f)
    : Vector3f * Vector3f :=
  if twoSided (config l) && (z wo <? 0) then (vneg wo, vneg wi) else (wo, wi).

(** [LayeredBxDF::f].  The stream is [RNG rng(Hash(GetOptions().seed, wo),
    Hash(wi))]. *)
Definition Layered_f (opts : Options) (l : LayeredBxDF) (wo wi : Vector3f)
    (mode : TransportMode) : Spectrum :=
  let '(wo, wi) := two_sided_flip l wo wi in
  f_from l wo wi mode (RNG_ctor (Hash_seed_dir (seed opts) wo) (Hash_dir wi)).

(** ** LayeredBxDF::Sample_f *)

(** The state of the sampling walk. *)
Record SampleState := mkSampleState {
  ss_f : Spectrum;
  ss_pdf : Float;
  ss_w : Vector3f;
  ss_z : Float
}.

(** What an iteration of the sampling loop decides: [return] a sample, or
    go on. *)
Inductive SampleCtl :=
  | Return (bs : BSDFSample)
  | Next (st : SampleState).

(** How [Sample_f] classifies a path that leaves the layers in direction
    [w]: glossy reflection when [w] is on the side of [wo], glossy
    transmission otherwise, the direction mirrored back when [wo] was. *)
Definition classified (wo : Vector3f) (flipWi : bool) (s : BSDFSample)
    : Prop :=
  exists w,
    bs_wi s = (if flipWi then vneg w else w)
    /\ bs_flags s = (if SameHemisphere wo w then BxDFFlags.GlossyReflection
                     else BxDFFlags.GlossyTransmission).


(** The effect of [flipWi] on what an iteration decides. *)
Definition mirror_ctl (c : SampleCtl) : SampleCtl :=
  match c with
  | Return s => Return (mirror_wi s)
  | Next st => Next st
  end.

(** "Possibly terminate layered BSDF sampling with Russian Roulette":
    [None] is [return {}], [Some pdf'] the density the walk goes on with. *)
Definition Sample_f_roulette (depth : nat) (f : Spectrum) (pdf : Float)
    : Rand (option Float) :=
  let rrBeta := MaxComponentValue f / pdf in
  if (3 <? depth)%nat && (rrBeta <? (1 # 4)) then
    let q := std_max 0 (1 - rrBeta) in
    v <- r ;;
    if v <? q then ret None
    else ret (Some (pdf * (1 - q)))
  else ret (Some pdf).

Definition Sample_f_event (l : LayeredBxDF) (wo : Vector3f)
    (mode : TransportMode) (flipWi : bool) (st : SampleState)
    : Rand SampleCtl :=
  let f := ss_f st in
  let pdf := ss_pdf st in
  let w := ss_w st in
  let z0 := ss_z st in
  let at_interface (f : Spectrum) (z1 : Float) : Rand SampleCtl :=
    let interface :=
      if z1 =? 0 then tb_bottom (bottom l) else tb_top (top l) in
    uc <- r ;; u <- r2 ;;
    let bs := tb_Sample_f interface (vneg w) uc u mode
                          BxDFReflTransFlags.All in
    if negb (bs_valid bs) || (z (bs_wi bs) =? 0) then ret (Return BSDFSample_none)
    else
      let f := smul f (bs_f bs) in
      let pdf := pdf * bs_pdf bs in
      let w := bs_wi bs in
      if bs_IsTransmission bs then
        let flags := if SameHemisphere wo w then BxDFFlags.GlossyReflection
                     else BxDFFlags.GlossyTransmission in
        let w := if flipWi then vneg w else w in
        ret (Return (BSDFSample_ctor f w pdf flags))
      else
        ret (Next (mkSampleState (sscale f (AbsCosTheta (bs_wi bs))) pdf w z1))
  in
  if z w =? 0 then ret (Return BSDFSample_none)
  else if SupportAttenuation && snonzero (albedo l) then
    let sigma_t := 1 in
    v <- r ;;
    let dz := SampleExponential v (sigma_t / AbsCosTheta w) in
    let zp := if z w >? 0 then z0 + dz else z0 - dz in
    if zp =? z0 then ret (Return BSDFSample_none)
    else if (0 <? zp) && (zp <? thickness l) then
      u <- r2 ;;
      let ps := HG_Sample_p (g l) (vneg w) u in
      if negb (ps_valid ps) || (z (ps_wi ps) =? 0)
      then ret (Return BSDFSample_none)
      else
        ret (Next (mkSampleState (smul f (sscale (albedo l) (ps_p ps)))
                                 (pdf * ps_pdf ps) (ps_wi ps) zp))
    else at_interface f (Clamp zp 0 (thickness l))
  else
    let z1 := if z0 =? thickness l then 0 else thickness l in
    at_interface (sscale f (Tr (thickness l) w)) z1.

Definition Sample_f_step (l : LayeredBxDF) (wo : Vector3f)
    (mode : TransportMode) (flipWi : bool) (depth : nat) (st : SampleState)
    : Rand SampleCtl :=
  rr <- Sample_f_roulette depth (ss_f st) (ss_pdf st) ;;
  match rr with
  | None => ret (Return BSDFSample_none)
  | Some pdf =>
      Sample_f_event l wo mode flipWi
                     (mkSampleState (ss_f st) pdf (ss_w st) (ss_z st))
  end.

Fixpoint Sample_f_walk (l : LayeredBxDF) (wo : Vector3f)
    (mode : TransportMode) (flipWi : bool) (n depth : nat) (st : SampleState)
    : Rand BSDFSample :=
  match n with
  | O => ret BSDFSample_none
  | S n' =>
      c <- Sample_f_step l wo mode flipWi depth st ;;
      match c with
      | Return bs => ret bs
      | Next st' => Sample_f_walk l wo mode flipWi n' (S depth) st'
      end
  end.

(** [LayeredBxDF::Sample_f].  [None] is the failed
    [CHECK(sampleFlags == BxDFReflTransFlags::All)]. *)
Definition Layered_Sample_f (opts : Options) (l : LayeredBxDF)
    (wo : Vector3f) (uc : Float) (u : Point2f) (mode : TransportMode)
    (sampleFlags : Z) : option BSDFSample :=
  if negb (Z.eqb sampleFlags BxDFReflTransFlags.All) then None
  else
    let '(wo, flipWi) :=
      if twoSided (config l) && (z wo <? 0) then (vneg wo, true)
      else (wo, false) in
    let enteredTop := z wo >? 0 in
    let bs :=
      if enteredTop
      then Sample_f (top l) wo uc u mode BxDFReflTransFlags.All
      else Sample_f (bottom l) wo uc u mode BxDFReflTransFlags.All in
    if negb (bs_valid bs) then Some BSDFSample_none
    else if bs_IsReflection bs then
      Some (if flipWi
            then mkBSDFSample (bs_f bs) (vneg (bs_wi bs)) (bs_pdf bs)
                              (bs_flags bs) (bs_valid bs)
            else bs)
    else
      let w := bs_wi bs in
      let rng := RNG_ctor (Hash_seed_dir (seed opts) wo) (Hash_sample uc u) in
      let f := sscale (bs_f bs) (AbsCosTheta (bs_wi bs)) in
      let pdf := bs_pdf bs in
      let z0 := if enteredTop then thickness l else 0 in
      Some (fst (Sample_f_walk l wo mode flipWi (maxDepth (config l)) 0
                               (mkSampleState f pdf w z0) rng)).

(** ** LayeredBxDF::PDF *)

(** One iteration of the sample loop of [PDF]: the TRT estimate for
    directions in the same hemisphere, the TT estimate otherwise. *)
Definition PDF_sample (l : LayeredBxDF) (wo wi : Vector3f)
    (mode : TransportMode) (enteredTop : bool) (pdfSum : Float)
    : Rand Float :=
  if SameHemisphere wo wi then
    let rInterface :=
      if enteredTop then tb_bottom (bottom l) else tb_top (top l) in
    let tInterface :=
      if enteredTop then tb_top (top l) else tb_bottom (bottom l) in
    uc <- r ;; u <- r2 ;;
    let wos := tb_Sample_f tInterface wo uc u mode BxDFReflTransFlags.All in
    if negb (bs_valid wos) || (z (bs_wi wos) =? 0) || bs_IsReflection wos
    then ret (pdfSum + tb_PDF tInterface wo wi mode BxDFReflTransFlags.All)
    else
      uc <- r ;; u <- r2 ;;
      let wis := tb_Sample_f tInterface wi uc u (mode_flip mode)
                             BxDFReflTransFlags.All in
      if negb (bs_valid wis) || (z (bs_wi wis) =? 0) || bs_IsReflection wis
      then ret pdfSum
      else ret (pdfSum + tb_PDF rInterface (vneg (bs_wi wos))
                                (vneg (bs_wi wis)) mode BxDFReflTransFlags.All)
  else
    let toInterface :=
      if enteredTop then tb_top (top l) else tb_bottom (bottom l) in
    let tiInterface :=
      if enteredTop then tb_bottom (bottom l) else tb_top (top l) in
    uc <- r ;; u <- r2 ;;
    let wos := tb_Sample_f toInterface wo uc u mode BxDFReflTransFlags.All in
    if negb (bs_valid wos) || (z (bs_wi wos) =? 0) || bs_IsReflection wos
    then ret pdfSum
    else
      uc <- r ;; u <- r2 ;;
      let wis := tb_Sample_f tiInterface wi uc u (mode_flip mode)
                             BxDFReflTransFlags.All in
      if negb (bs_valid wis) || (z (bs_wi wis) =? 0) || bs_IsReflection wis
      then ret pdfSum
      else if IsSpecular (tb_Flags toInterface)
      then ret (pdfSum + tb_PDF tiInterface (vneg (bs_wi wos)) wi mode
                                BxDFReflTransFlags.All)
      else if IsSpecular (tb_Flags tiInterface)
      then ret (pdfSum + tb_PDF toInterface wo (vneg (bs_wi wis)) mode
                                BxDFReflTransFlags.All)
      else ret (pdfSum +
                (tb_PDF toInterface wo (vneg (bs_wi wis)) mode
                        BxDFReflTransFlags.All
                 + tb_PDF tiInterface (vneg (bs_wi wos)) wi mode
                          BxDFReflTransFlags.All) / 2).

Fixpoint PDF_samples (n : nat) (body : Float -> Rand Float) (pdfSum : Float)
    : Rand Float :=
  match n with
  | O => ret pdfSum
  | S n' => pdfSum' <- body pdfSum ;; PDF_samples n' body pdfSum'
  end.

(** The terms the sample loop adds to [pdfSum], one per sample, in the
    order of the samples: what an iteration makes of a sum of zero. *)
Fixpoint PDF_terms (n : nat) (body : Float -> Rand Float) (rng : RNG)
    : list Float :=
  match n with
  | O => []
  | S n' => let '(t, rng') := body 0 rng in t :: PDF_terms n' body rng'
  end.

(** The density of the reflection at the entrance interface, which [PDF]
    adds [nSamples] times before the loop. *)
Definition PDF_entrance (l : LayeredBxDF) (wo wi : Vector3f)
    (mode : TransportMode) : Float :=
  if SameHemisphere wo wi then
    if z wo >? 0
    then PDF (top l) wo wi mode BxDFReflTransFlags.Reflection
    else PDF (bottom l) wo wi mode BxDFReflTransFlags.Reflection
  else 0.

(** The value of [pdfSum] when the sample loop is left; [wo] and [wi] are
    the directions after the two-sided flip. *)
Definition PDF_sum (l : LayeredBxDF) (wo wi : Vector3f) (mode : TransportMode)
    (rng : RNG) : Float :=
  let enteredTop := z wo >? 0 in
  let pdfSum := 0 in
  let pdfSum :=
    if SameHemisphere wo wi then
      if enteredTop
      then pdfSum + of_count (nSamples (config l))
                    * PDF (top l) wo wi mode BxDFReflTransFlags.Reflection
      else pdfSum + of_count (nSamples (config l))
                    * PDF (bottom l) wo wi mode BxDFReflTransFlags.Reflection
    else pdfSum in
  fst (PDF_samples (nSamples (config l)) (PDF_sample l wo wi mode enteredTop)
                   pdfSum rng).

(** [LayeredBxDF::PDF].  [None] is the failed
    [CHECK(sampleFlags == BxDFReflTransFlags::All)]. *)
Definition Layered_PDF (opts : Options) (l : LayeredBxDF) (wo wi : Vector3f)
    (mode : TransportMode) (sampleFlags : Z) : option Float :=
  if negb (Z.eqb sampleFlags BxDFReflTransFlags.All) then None
  else
    let '(wo, wi) := two_sided_flip l wo wi in
    let rng := RNG_ctor (Hash_seed_dir (seed opts) wo) (Hash_dir wi) in
    let pdfSum := PDF_sum l wo wi mode rng in
    Some (Lerp (9 # 10) (1 / (4 * Pi))
               (pdfSum / of_count (nSamples (config l)))).

End Layered.

(** The two instances of the template the header declares. *)
Definition CoatedDiffuseBxDF :=
  @LayeredBxDF DielectricInterfaceBxDF IdealDiffuseBxDF.
Definition CoatedConductorBxDF :=
  @LayeredBxDF DielectricInterfaceBxDF ConductorBxDF.

End BxDFs.

(* --------------------------------------------------------------------- *)
(** * HairBxDF and MeasuredBxDF: the private helpers                      *)
(* --------------------------------------------------------------------- *)

Section PrivateHelpers.
Context {E : Externals}.

(** [SafeSqrt] (util/math.h) and [TrimmedLogistic] (util/sampling.h) are
    not among the sources. *)
Variable SafeSqrt : Float -> Float.
Variable TrimmedLogistic : Float -> Float -> Float -> Float -> Float.

(** [Ap] declares its array without an initialiser: what the last entry
    holds when the test before its assignment fails. *)
Variable ap_unset : Spectrum.

(** [static constexpr int pMax = 3]. *)
Definition pMax : nat := 3.

(** [Float - SampledSpectrum] and [SampledSpectrum / SampledSpectrum],
    channel by channel. *)
Definition ssub_from (c : Float) (a : Spectrum) : Spectrum :=
  map (fun v => c - v) a.
Definition sdivs : Spectrum -> Spectrum -> Spectrum := szip Qdiv.

(** [for (int p = 2; p < pMax; ++p) ap[p] = ap[p - 1] * T * f]: the [n]
    entries that follow [prev], and the last of them. *)
Fixpoint Ap_orders (n : nat) (prev T : Spectrum) (f : Float)
    : list Spectrum * Spectrum :=
  match n with
  | O => ([], prev)
  | S n' =>
      let next := sscale (smul prev T) f in
      let '(rest, last) := Ap_orders n' next T f in
      (next :: rest, last)
  end.

(** [HairBxDF::Ap]: the attenuation of the orders of scattering
    [0 .. pMax]. *)
Definition Hair_Ap (cosTheta_o eta h : Float) (T : Spectrum)
    : list Spectrum :=
  let cosGamma_o := SafeSqrt (1 - h * h) in
  let cosTheta := cosTheta_o * cosGamma_o in
  let f := FrDielectric cosTheta eta in
  let ap0 := SampledSpectrum f in
  let ap1 := sscale T (Sqr (1 - f)) in
  let '(mid, last) := Ap_orders (pMax - 2) ap1 T f in
  let rest := ssub_from 1 (sscale T f) in
  let apMax :=
    if snonzero rest
    then sdivs (smul (sscale last f) T) rest
    else ap_unset in
  ap0 :: ap1 :: mid ++ [apMax].

(** [HairBxDF::Phi]. *)
Definition Hair_Phi (p : Z) (gamma_o gamma_t : Float) : Float :=
  inject_Z (2 * p) * gamma_t - 2 * gamma_o + inject_Z p * Pi.

(** [while (dphi > Pi) dphi -= 2 * Pi;] and
    [while (dphi < -Pi) dphi += 2 * Pi;], each run for at most [fuel]
    rounds; [None] is a loop still running when they are used up. *)
Fixpoint wrap_down (fuel : nat) (dphi : Float) : option Float :=
  if dphi >? Pi then
    match fuel with
    | O => None
    | S fuel' => wrap_down fuel' (dphi - 2 * Pi)
    end
  else Some dphi.

Fixpoint wrap_up (fuel : nat) (dphi : Float) : option Float :=
  if dphi <? - Pi then
    match fuel with
    | O => None
    | S fuel' => wrap_up fuel' (dphi + 2 * Pi)
    end
  else Some dphi.

(** "Remap dphi to [-pi, pi]". *)
Definition Hair_remap (fuel : nat) (dphi : Float) : option Float :=
  match wrap_down fuel dphi with
  | Some d => wrap_up fuel d
  | None => None
  end.

(** [HairBxDF::Np]. *)
Definition Hair_Np (fuel : nat) (phi : Float) (p : Z)
    (s gamma_o gamma_t : Float) : option Float :=
  let dphi := phi - Hair_Phi p gamma_o gamma_t in
  match Hair_remap fuel dphi with
  | Some dphi => Some (TrimmedLogistic dphi s (- Pi) Pi)
  | None => None
  end.

(** [MeasuredBxDF::u2theta], [u2phi] and [phi2u]. *)
Definition Measured_u2theta (u : Float) : Float := Sqr u * (Pi / 2).
Definition Measured_u2phi (u : Float) : Float := (2 * u - 1) * Pi.
Definition Measured_phi2u (phi : Float) : Float := (phi + Pi) / (2 * Pi).

End PrivateHelpers.

(* ===================================================================== *)
(** * The volumetric path integrator (integrators/volpath.cpp)            *)
(* ===================================================================== *)

Module VolPath.

(** Modelled from the spec: the [BxDFType] bits of core/reflection.h are
    not among the sources; the same flag set as above, [BSDF_ALL] all five
    bits. *)
Definition BSDF_TRANSMISSION : Z := 2.
Definition BSDF_SPECULAR : Z := 16.
Definition BSDF_ALL : Z := 31.

(** The scene, the media, the lights, the materials and the sampler: the
    collaborators [Li] calls, none of them among the sources.  A routine
    that draws from the sampler returns the sampler it leaves behind. *)
Class Scene := {
  Ray : Type;
  Medium : Type;
  MediumInteraction : Type;
  SurfaceInteraction : Type;
  BSDF : Type;
  BSSRDF : Type;
  Light : Type;
  Sampler : Type;
  ray_d : Ray -> Vector3f;
  ray_medium : Ray -> option Medium;
  Get1D : Sampler -> Float * Sampler;
  Get2D : Sampler -> Point2f * Sampler;
  (* scene.Intersect(ray, &isect) *)
  Intersect : Ray -> option SurfaceInteraction;
  infiniteLights : list Light;
  light_Le : Light -> Ray -> Spectrum;
  (* ray.medium->Sample(ray, sampler, arena, &mi); [None] is an [mi] that
     is not valid *)
  Medium_Sample :
    Medium -> Ray -> Sampler -> Spectrum * option MediumInteraction * Sampler;
  EstimateLd_medium : MediumInteraction -> Sampler -> Spectrum * Sampler;
  EstimateLd_surface : SurfaceInteraction -> Sampler -> Spectrum * Sampler;
  phase_Sample_p : MediumInteraction -> Vector3f -> Point2f -> Vector3f;
  mi_SpawnRay : MediumInteraction -> Vector3f -> Ray;
  isect_Le : SurfaceInteraction -> Vector3f -> Spectrum;
  ComputeScatteringFunctions : SurfaceInteraction -> Ray -> SurfaceInteraction;
  (* isect.bsdf and isect.bssrdf, possibly null *)
  isect_bsdf : SurfaceInteraction -> option BSDF;
  isect_bssrdf : SurfaceInteraction -> option BSSRDF;
  (* pi.bsdf, dereferenced without a test *)
  pi_bsdf : SurfaceInteraction -> BSDF;
  isect_n : SurfaceInteraction -> Vector3f;
  isect_shading_n : SurfaceInteraction -> Vector3f;
  isect_wo : SurfaceInteraction -> Vector3f;
  (* isect.SpawnRay(d) and isect.SpawnRay(ray, wi, flags, eta) *)
  isect_SpawnRay : SurfaceInteraction -> Vector3f -> Ray;
  isect_SpawnRay_scatter :
    SurfaceInteraction -> Ray -> Vector3f -> Z -> Float -> Ray;
  (* bsdf->Sample_f(wo, &wi, u, &pdf, type, &flags): f, wi, pdf, flags *)
  BSDF_Sample_f :
    BSDF -> Vector3f -> Point2f -> Z -> Spectrum * Vector3f * Float * Z;
  BSDF_eta : BSDF -> Float;
  (* bssrdf->Sample_S(scene, u1, u2, arena, &pi, &pdf): S, pi, pdf *)
  BSSRDF_Sample_S :
    BSSRDF -> Float -> Point2f -> Spectrum * SurfaceInteraction * Float;
  Dot3 : Vector3f -> Vector3f -> Float;
  AbsDot3 : Vector3f -> Vector3f -> Float
}.

Section Integrator.
Context {Sc : Scene}.

(** The fields of the integrator [Li] reads. *)
Variable maxDepth : Z.
Variable rrThreshold : Float.

(** The locals of [Li] that live across iterations. *)
Record PathState := mkPathState {
  L : Spectrum;
  beta : Spectrum;
  ray : Ray;
  specularBounce : bool;
  depth : Z;
  etaScale : Float;
  sampler : Sampler
}.

(** How an iteration of [for (depth = 0;; ++depth)] ends: [break],
    [continue], or by reaching the roulette at the end of the body. *)
Inductive Flow :=
  | brk (st : PathState)
  | cont (st : PathState)
  | fall (st : PathState).

(** "Sample the participating medium, if present". *)
Definition sample_medium (st : PathState)
    : Spectrum * option MediumInteraction * Sampler :=
  match ray_medium (ray st) with
  | Some m =>
      let '(w, mi, s) := Medium_Sample m (ray st) (sampler st) in
      (smul (beta st) w, mi, s)
  | None => (beta st, None, sampler st)
  end.

(** "Possibly add emitted light at intersection". *)
Definition add_emitted (st : PathState) (found : option SurfaceInteraction)
    (beta : Spectrum) : Spectrum :=
  if Z.eqb (depth st) 0 || specularBounce st then
    match found with
    | Some isect => sadd (L st) (smul beta (isect_Le isect (vneg (ray_d (ray st)))))
    | None =>
        fold_left (fun acc light => sadd acc (smul beta (light_Le light (ray st))))
                  infiniteLights (L st)
    end
  else L st.

(** "Account for attenuated subsurface scattering": entered with the state
    after the surface bounce. *)
Definition subsurface (bssrdf : BSSRDF) (st : PathState) : Flow :=
  let '(u1, s) := Get1D (sampler st) in
  let '(u2, s) := Get2D s in
  let '(Sv, pi, pdf) := BSSRDF_Sample_S bssrdf u1 u2 in
  if negb (snonzero Sv) || (pdf =? 0)
  then brk (mkPathState (L st) (beta st) (ray st) (specularBounce st)
                        (depth st) (etaScale st) s)
  else
    let beta1 := smul (beta st) (sdiv Sv pdf) in
    let '(Ld, s) := EstimateLd_surface pi s in
    let L1 := sadd (L st) (smul beta1 Ld) in
    let '(u, s) := Get2D s in
    let '(f, wi, pdf, flags) :=
      BSDF_Sample_f (pi_bsdf pi) (isect_wo pi) u BSDF_ALL in
    if negb (snonzero f) || (pdf =? 0)
    then brk (mkPathState L1 beta1 (ray st) (specularBounce st)
                          (depth st) (etaScale st) s)
    else
      let beta2 :=
        smul beta1 (sdiv (sscale f (AbsDot3 wi (isect_shading_n pi))) pdf) in
      fall (mkPathState L1 beta2 (isect_SpawnRay pi wi)
                        (has_flag flags BSDF_SPECULAR)
                        (depth st) (etaScale st) s).

(** The body of the loop up to the roulette. *)
Definition Li_vertex (st : PathState) : Flow :=
  let found := Intersect (ray st) in
  let '(beta1, mi, s) := sample_medium st in
  if negb (snonzero beta1)
  then brk (mkPathState (L st) beta1 (ray st) (specularBounce st)
                        (depth st) (etaScale st) s)
  else
    match mi with
    | Some mi =>
        (* scattering at a point in the medium *)
        if Z.geb (depth st) maxDepth
        then brk (mkPathState (L st) beta1 (ray st) (specularBounce st)
                              (depth st) (etaScale st) s)
        else
          let '(Ld, s) := EstimateLd_medium mi s in
          let L1 := sadd (L st) (smul beta1 Ld) in
          let wo := vneg (ray_d (ray st)) in
          let '(u, s) := Get2D s in
          let wi := phase_Sample_p mi wo u in
          fall (mkPathState L1 beta1 (mi_SpawnRay mi wi) (specularBounce st)
                            (depth st) (etaScale st) s)
    | None =>
        (* scattering at a point on a surface *)
        let L1 := add_emitted st found beta1 in
        match found with
        | None =>
            brk (mkPathState L1 beta1 (ray st) (specularBounce st)
                             (depth st) (etaScale st) s)
        | Some isect =>
            if Z.geb (depth st) maxDepth
            then brk (mkPathState L1 beta1 (ray st) (specularBounce st)
                                  (depth st) (etaScale st) s)
            else
              let isect := ComputeScatteringFunctions isect (ray st) in
              match isect_bsdf isect with
              | None =>
                  (* skip over the medium boundary *)
                  cont (mkPathState L1 beta1
                          (isect_SpawnRay isect (ray_d (ray st)))
                          (specularBounce st) (depth st - 1)%Z
                          (etaScale st) s)
              | Some bsdf =>
                  let '(Ld, s) := EstimateLd_surface isect s in
                  let L2 := sadd L1 (smul beta1 Ld) in
                  let wo := vneg (ray_d (ray st)) in
                  let '(u, s) := Get2D s in
                  let '(f, wi, pdf, flags) :=
                    BSDF_Sample_f bsdf wo u BSDF_ALL in
                  if negb (snonzero f) || (pdf =? 0)
                  then brk (mkPathState L2 beta1 (ray st) (specularBounce st)
                                        (depth st) (etaScale st) s)
                  else
                    let beta2 :=
                      smul beta1
                        (sdiv (sscale f (AbsDot3 wi (isect_shading_n isect)))
                              pdf) in
                    let specularBounce' := has_flag flags BSDF_SPECULAR in
                    let etaScale' :=
                      if has_flag flags BSDF_SPECULAR
                         && has_flag flags BSDF_TRANSMISSION
                      then
                        let eta := BSDF_eta bsdf in
                        etaScale st *
                        (if Dot3 wo (isect_n isect) >? 0
                         then eta * eta else 1 / (eta * eta))
                      else etaScale st in
                    let ray' :=
                      isect_SpawnRay_scatter isect (ray st) wi flags
                                             (BSDF_eta bsdf) in
                    let st' := mkPathState L2 beta2 ray' specularBounce'
                                           (depth st) etaScale' s in
                    match isect_bssrdf isect with
                    | Some bssrdf =>
                        if has_flag flags BSDF_TRANSMISSION
                        then subsurface bssrdf st'
                        else fall st'
                    | None => fall st'
                    end
              end
        end
    end.

(** "Possibly terminate the path with Russian roulette". *)
Definition Li_roulette (st : PathState) : Flow :=
  let rrBeta := sscale (beta st) (etaScale st) in
  if (MaxComponentValue rrBeta <? rrThreshold) && Z.gtb (depth st) 3 then
    let q := std_max (5 # 100) (1 - MaxComponentValue rrBeta) in
    let '(v, s) := Get1D (sampler st) in
    if v <? q
    then brk (mkPathState (L st) (beta st) (ray st) (specularBounce st)
                          (depth st) (etaScale st) s)
    else cont (mkPathState (L st) (sdiv (beta st) (1 - q)) (ray st)
                           (specularBounce st) (depth st) (etaScale st) s)
  else cont st.

(** One full iteration of the loop body. *)
Definition Li_body (st : PathState) : Flow :=
  match Li_vertex st with
  | brk st' => brk st'
  | cont st' => cont st'
  | fall st' => Li_roulette st'
  end.

(** [++depth]. *)
Definition next_depth (st : PathState) : PathState :=
  mkPathState (L st) (beta st) (ray st) (specularBounce st)
              (depth st + 1)%Z (etaScale st) (sampler st).

(** The loop has no bound of its own; [fuel] bounds the iterations the
    model runs, and [None] is a path still alive when it runs out. *)
Fixpoint Li_loop (fuel : nat) (st : PathState) : option Spectrum :=
  match fuel with
  | O => None
  | S fuel' =>
      match Li_body st with
      | brk st' => Some (L st')
      | cont st' | fall st' => Li_loop fuel' (next_depth st')
      end
  end.

(** [VolPathIntegrator::Li]: [Spectrum L(0.f), beta(1.f)], no specular
    bounce yet, [depth = 0], [etaScale = 1]. *)
Definition Li (nchannels : nat) (fuel : nat) (r : Ray) (smp : Sampler)
    : option Spectrum :=
  Li_loop fuel (mkPathState (repeat 0 nchannels) (repeat 1 nchannels) r false
                            0%Z 1 smp).

End Integrator.
End VolPath.

(* ===================================================================== *)
(** * Concrete collaborators, to run the definitions                      *)
(* ===================================================================== *)

Module Run.

(** A microfacet distribution is its two roughness values. *)
Definition TR := (Float * Float)%type.

(** [SampleDiscrete] over a list of weights: the index whose cumulative
    weight first exceeds [u] times the total, with its probability. *)
Fixpoint pick (ws : list Float) (total up : Float) (i : Z) : Z * Float :=
  match ws with
  | [] => ((-1)%Z, 0)
  | w :: ws' =>
      match ws' with
      | [] => (i, w / total)
      | _ => if up <? w then (i, w / total)
             else pick ws' total (up - w) (i + 1)%Z
      end
  end.

Definition sample_discrete (ws : list Float) (u : Float) : Z * Float :=
  let total := fold_left Qplus ws 0 in
  if total =? 0 then ((-1)%Z, 0) else pick ws total (u * total) 0%Z.

Definition dot (a b : Vector3f) : Float := x a * x b + y a * y b + z a * z b.

(** Rational stand-ins for the collaborators.  The vector algebra, the
    power heuristic, [Clamp] and [SampleDiscrete] are the usual ones; what
    needs a square root, a logarithm or an exponential is replaced by a
    rational function with the same sign behaviour, and the generator by a
    counter.  [Pi], [InvPi] and [OneMinusEpsilon] are the single-precision
    constants. *)
#[export] Instance E0 : Externals := {
  Pi := 13176795 # 4194304;
  InvPi := 10680707 # 33554432;
  OneMinusEpsilon := 16777215 # 16777216;
  Sqr := fun v => v * v;
  Radians := fun deg => (13176795 # 4194304) / 180 * deg;
  Clamp := fun v lo hi => if v <? lo then lo else if v >? hi then hi else v;
  std_exp := fun v => 1 / (1 + std_abs v);
  NSpectrumSamples := 4;
  CosTheta := z;
  AbsCosTheta := fun w => std_abs (z w);
  SinTheta := fun w => std_max 0 (1 - z w * z w);
  CosDPhi := fun a b => x a * x b + y a * y b;
  SameHemisphere := fun w wp => z w * z wp >? 0;
  Dot := dot;
  AbsDot := fun a b => std_abs (dot a b);
  LengthSquared := fun v => dot v v;
  Normalize := fun v => v;
  FaceForward := fun n v => if dot n v <? 0 then vneg n else n;
  Reflect := fun wo n => vadd (vneg wo) (vscale n (2 * dot wo n));
  Refract := fun wi n eta =>
    Some (mkVector3f (- x wi / eta) (- y wi / eta) (- z wi));
  FrDielectric := fun c eta => ((eta - 1) / (eta + 1)) * ((eta - 1) / (eta + 1));
  FrConductor := fun c eta k => map (fun _ => 1 # 2) eta;
  FresnelMoment1 := fun eta => 0;
  TrowbridgeReitzDistribution := TR;
  mf_EffectivelySpecular := fun d => std_max (fst d) (snd d) <? (1 # 1000);
  mf_D := fun d wh => 1;
  mf_G := fun d wo wi => 1;
  mf_PDF := fun d wo wh => 1;
  mf_Sample_wm := fun d wo u => mkVector3f 0 0 1;
  mf_Regularize := fun d => d;
  SampleCosineHemisphere := fun u =>
    let dx := 2 * px u - 1 in
    let dy := 2 * py u - 1 in
    mkVector3f dx dy (std_max 0 (1 - dx * dx - dy * dy));
  SampleDiscrete := sample_discrete;
  SampleExponential := fun u a => u / a;
  PowerHeuristic := fun nf fPdf ng gPdf =>
    let f := inject_Z nf * fPdf in
    let g := inject_Z ng * gPdf in
    (f * f) / (f * f + g * g);
  Hash_seed_dir := fun seed w => (seed + Qnum (z w))%Z;
  Hash_dir := fun w => Qnum (z w);
  Hash_sample := fun uc u => Qnum uc;
  RNG := Z;
  RNG_ctor := fun seq off => (seq + off)%Z;
  RNG_Uniform := fun s => (inject_Z (s mod 16) / 16, (s + 1)%Z);
  HG_p := fun g wo wi => 1 / (4 * (13176795 # 4194304));
  HG_PDF := fun g wo wi => 1 / (4 * (13176795 # 4194304));
  HG_Sample_p := fun g wo u =>
    mkPhaseFunctionSample (1 / (4 * (13176795 # 4194304)))
                          (mkVector3f 0 0 1)
                          (1 / (4 * (13176795 # 4194304))) true
}.

(** A white, a grey and a black diffuse reflector, and a coating on a
    diffuse base. *)
Definition white : Spectrum := [1; 1; 1; 1].
Definition grey : Spectrum := [1 # 2; 1 # 2; 1 # 2; 1 # 2].
Definition black : Spectrum := [0; 0; 0; 0].

Definition straight_up : Vector3f := mkVector3f 0 0 1.
Definition grazing : Vector3f := mkVector3f 1 0 0.
Definition centre : Point2f := mkPoint2f (1 # 2) (1 # 2).

Definition default_config : LayeredBxDFConfig := mkLayeredBxDFConfig 10 1 true.

Definition diffuse_pair : @LayeredBxDF IdealDiffuseBxDF IdealDiffuseBxDF :=
  LayeredBxDF_ctor (mkIdealDiffuseBxDF grey) (mkIdealDiffuseBxDF grey)
                   (1 # 100) black 0 default_config.

(** A smooth dielectric coating on a grey diffuse base, and an opaque
    smooth conductor on top of the same base. *)
Definition coated : @LayeredBxDF DielectricInterfaceBxDF IdealDiffuseBxDF :=
  LayeredBxDF_ctor (DielectricInterfaceBxDF_ctor (3 # 2) (0, 0))
                   (mkIdealDiffuseBxDF grey) (1 # 100) black 0 default_config.

Definition mirror_top : @LayeredBxDF ConductorBxDF IdealDiffuseBxDF :=
  LayeredBxDF_ctor (mkConductorBxDF (0, 0) white white)
                   (mkIdealDiffuseBxDF grey) (1 # 100) black 0 default_config.

Definition straight_down : Vector3f := mkVector3f 0 0 (- (1)).


Definition options_a : Options := mkOptions 1 7 false false.
Definition options_b : Options := mkOptions 8 7 true true.



(** A small scene for the integrator.  A ray records its direction,
    whether it travels inside the medium, and the surface it will hit.
    Surface 0 is a bare medium boundary (no BSDF), surface 1 a black
    surface (its BSDF sample has zero value and density), any other a
    dim diffuse surface.  The medium attenuates by one half without an
    interior vertex.  The sampler is a counter; its one-dimensional draw
    is a tenth of the count. *)
Record ray0 := mkRay0 {
  rdir : Vector3f;
  rmed : bool;
  rhit : option nat
}.

Definition rgb (c : Float) : Spectrum := [c; c; c].

#[export] Instance Sc0 : VolPath.Scene := {
  VolPath.Ray := ray0;
  VolPath.Medium := unit;
  VolPath.MediumInteraction := unit;
  VolPath.SurfaceInteraction := nat;
  VolPath.BSDF := nat;
  VolPath.BSSRDF := unit;
  VolPath.Light := unit;
  VolPath.Sampler := nat;
  VolPath.ray_d := rdir;
  VolPath.ray_medium := fun ry => if rmed ry then Some tt else None;
  VolPath.Get1D := fun s => (inject_Z (Z.of_nat s) / 10, S s);
  VolPath.Get2D := fun s => (centre, S s);
  VolPath.Intersect := rhit;
  VolPath.infiniteLights := [];
  VolPath.light_Le := fun _ _ => rgb 0;
  VolPath.Medium_Sample := fun _ _ s => (rgb (1 # 2), None, s);
  VolPath.EstimateLd_medium := fun _ s => (rgb 0, s);
  VolPath.EstimateLd_surface := fun _ s => (rgb (1 # 4), s);
  VolPath.phase_Sample_p := fun _ wo _ => wo;
  VolPath.mi_SpawnRay := fun _ wi => mkRay0 wi true None;
  VolPath.isect_Le := fun _ _ => rgb 0;
  VolPath.ComputeScatteringFunctions := fun i _ => i;
  VolPath.isect_bsdf := fun i => match i with O => None | _ => Some i end;
  VolPath.isect_bssrdf := fun _ => None;
  VolPath.pi_bsdf := fun i => i;
  VolPath.isect_n := fun _ => straight_up;
  VolPath.isect_shading_n := fun _ => straight_up;
  VolPath.isect_wo := fun _ => straight_up;
  VolPath.isect_SpawnRay := fun _ d => mkRay0 d false (Some 2%nat);
  VolPath.isect_SpawnRay_scatter := fun i _ wi _ _ => mkRay0 wi false (Some i);
  VolPath.BSDF_Sample_f := fun b _ _ _ =>
    match b with
    | 1%nat => (rgb 0, straight_up, 0, 0%Z)
    | _ => (rgb (1 # 10), straight_up, 1, 5%Z)
    end;
  VolPath.BSDF_eta := fun _ => 1;
  VolPath.BSSRDF_Sample_S := fun _ _ _ => (rgb 0, O, 0);
  VolPath.Dot3 := dot;
  VolPath.AbsDot3 := fun a b => std_abs (dot a b)
}.

(** A path about to cross the medium boundary, one about to hit the black
    surface, and one deep enough for the roulette to apply. *)
Definition at_boundary : VolPath.PathState :=
  VolPath.mkPathState (rgb 0) (rgb 1) (mkRay0 straight_up true (Some 0%nat))
                      false 1 1 0%nat.
Definition at_black : VolPath.PathState :=
  VolPath.mkPathState (rgb 0) (rgb 1) (mkRay0 straight_up false (Some 1%nat))
                      false 0 1 0%nat.
Definition deep_dim : VolPath.PathState :=
  VolPath.mkPathState (rgb 0) (rgb 1) (mkRay0 straight_up false (Some 2%nat))
                      false 4 1 0%nat.

(** A second scene, in which every surface has a BSDF, the medium always
    scatters at a vertex inside it, and one infinite light shines from
    all around. *)
Definition Sc1 : VolPath.Scene := {|
  VolPath.Ray := ray0;
  VolPath.Medium := unit;
  VolPath.MediumInteraction := unit;
  VolPath.SurfaceInteraction := nat;
  VolPath.BSDF := nat;
  VolPath.BSSRDF := unit;
  VolPath.Light := unit;
  VolPath.Sampler := nat;
  VolPath.ray_d := rdir;
  VolPath.ray_medium := fun ry => if rmed ry then Some tt else None;
  VolPath.Get1D := fun s => (inject_Z (Z.of_nat s) / 10, S s);
  VolPath.Get2D := fun s => (centre, S s);
  VolPath.Intersect := rhit;
  VolPath.infiniteLights := [tt];
  VolPath.light_Le := fun _ _ => rgb (1 # 4);
  VolPath.Medium_Sample := fun _ _ s => (rgb (1 # 2), Some tt, s);
  VolPath.EstimateLd_medium := fun _ s => (rgb (1 # 8), s);
  VolPath.EstimateLd_surface := fun _ s => (rgb (1 # 4), s);
  VolPath.phase_Sample_p := fun _ wo _ => wo;
  VolPath.mi_SpawnRay := fun _ wi => mkRay0 wi true None;
  VolPath.isect_Le := fun _ _ => rgb 0;
  VolPath.ComputeScatteringFunctions := fun i _ => i;
  VolPath.isect_bsdf := fun i => Some i;
  VolPath.isect_bssrdf := fun _ => None;
  VolPath.pi_bsdf := fun i => i;
  VolPath.isect_n := fun _ => straight_up;
  VolPath.isect_shading_n := fun _ => straight_up;
  VolPath.isect_wo := fun _ => straight_up;
  VolPath.isect_SpawnRay := fun _ d => mkRay0 d false (Some 2%nat);
  VolPath.isect_SpawnRay_scatter := fun i _ wi _ _ => mkRay0 wi false (Some i);
  VolPath.BSDF_Sample_f := fun b _ _ _ => (rgb (1 # 10), straight_up, 1, 5%Z);
  VolPath.BSDF_eta := fun _ => 1;
  VolPath.BSSRDF_Sample_S := fun _ _ _ => (rgb 0, O, 0);
  VolPath.Dot3 := dot;
  VolPath.AbsDot3 := fun a b => std_abs (dot a b)
|}.

(** A path with a black throughput, a path inside the medium of the
    second scene at depth 5, and a ray of that scene that leaves it. *)
Definition spent : VolPath.PathState :=
  VolPath.mkPathState (rgb (1 # 4)) (rgb 0)
                      (mkRay0 straight_up false (Some 2%nat)) false 2 1 0%nat.
Definition in_fog : @VolPath.PathState Sc1 :=
  @VolPath.mkPathState Sc1 (rgb (1 # 4)) (rgb 1)
                       (mkRay0 straight_up true (Some 2%nat)) false 5 1 0%nat.
Definition to_sky : ray0 := mkRay0 straight_up false None.

End Run.

(* ===================================================================== *)
(** * Properties                                                          *)
(* ===================================================================== *)

(** ** Comparisons and [std::max] *)

Lemma Flt_true (a b : Float) : (a <? b) = true <-> a < b.
Proof.
  unfold Flt. rewrite negb_true_iff, <- not_true_iff_false, Qle_bool_iff.
  split; [apply Qnot_le_lt | apply Qlt_not_le].
Qed.

Lemma Flt_false (a b : Float) : (a <? b) = false <-> b <= a.
Proof.
  unfold Flt. rewrite negb_false_iff, Qle_bool_iff. tauto.
Qed.

Lemma Feq_true (a b : Float) : (a =? b) = true <-> a == b.
Proof. unfold Feq. apply Qeq_bool_iff. Qed.

Lemma Feq_false (a b : Float) : (a =? b) = false <-> ~ a == b.
Proof.
  unfold Feq. rewrite <- not_true_iff_false, Qeq_bool_iff. tauto.
Qed.

Lemma std_max_lower_r (a b : Float) : b <= std_max a b.
Proof.
  unfold std_max. destruct (a <? b) eqn:H.
  - apply Qle_refl.
  - apply Flt_false in H. exact H.
Qed.

Lemma std_max_lower_l (a b : Float) : a <= std_max a b.
Proof.
  unfold std_max. destruct (a <? b) eqn:H.
  - apply Flt_true in H. apply Qlt_le_weak. exact H.
  - apply Qle_refl.
Qed.

Lemma FloatMin_positive : 0 < FloatMin.
Proof. reflexivity. Qed.

(** ** Constructors *)

Section Constructors.
Context {E : Externals}.
Context {TopBxDF BottomBxDF : Type}.
Context {TopOps : BxDF TopBxDF} {BottomOps : BxDF BottomBxDF}.

(** C9, as the code has it.  For every thickness argument that is not a
    NaN (zero, negative and infinite values included) the six-argument
    constructor stores [max(thickness, numeric_limits<Float>::min())],
    which is at least that smallest positive value, hence strictly
    positive.  On the rationals this is the stored field of
    [LayeredBxDF_ctor], and the only member that rebuilds the object,
    [Regularize], leaves it alone, so [f], [Sample_f], [PDF] and [Tr] see
    a strictly positive thickness. *)
Theorem LayeredBxDF_ctor_thickness_positive
    (top : TopBxDF) (bottom : BottomBxDF) (t : XFloat) (albedo : Spectrum)
    (g : Float) (config : LayeredBxDFConfig) :
  t <> NaN ->
  xpositive (thickness_init t) = true
  /\ xlt (thickness_init t) (Finite FloatMin) = false
  /\ (t = PInf -> thickness_init t = PInf)
  /\ (t = NInf -> thickness_init t = Finite FloatMin)
  /\ forall v, t = Finite v ->
       let l := LayeredBxDF_ctor top bottom v albedo g config in
       thickness_init t = Finite (thickness l)
       /\ thickness l = std_max v FloatMin
       /\ FloatMin <= thickness l
       /\ 0 < thickness l
       /\ thickness (Layered_Regularize l) = thickness l
       /\ 0 < thickness (Layered_Regularize l).
Proof.
  intro Hnan.
  assert (Hfin : forall v,
             FloatMin <= std_max v FloatMin /\ 0 < std_max v FloatMin).
  { intro v.
    assert (Hmin : FloatMin <= std_max v FloatMin) by apply std_max_lower_r.
    split; [exact Hmin |].
    eapply Qlt_le_trans; [apply FloatMin_positive | exact Hmin]. }
  destruct t as [v | | |]; [| | | contradiction].
  - destruct (Hfin v) as [Hmin Hpos].
    assert (Hinit : thickness_init (Finite v) = Finite (std_max v FloatMin)).
    { unfold thickness_init, xmax, xlt, std_max.
      destruct (v <? FloatMin); reflexivity. }
    rewrite Hinit. cbn [xpositive xlt].
    repeat apply conj.
    + apply Flt_true. exact Hpos.
    + apply Flt_false. exact Hmin.
    + intro H. discriminate H.
    + intro H. discriminate H.
    + intros v' Hv. injection Hv as <-. cbn.
      repeat split; assumption.
  - repeat apply conj; try reflexivity.
    + intro H. discriminate H.
    + intros v H. discriminate H.
  - repeat apply conj; try reflexivity.
    + intro H. discriminate H.
    + intros v H. discriminate H.
Qed.

(** C10.  The constructor stores 1.001 when [eta] equals 1 and [eta]
    itself otherwise, so the stored ratio never equals 1. *)
Theorem DielectricInterfaceBxDF_ctor_eta
    (eta : Float) (mfDistrib : TrowbridgeReitzDistribution) :
  let b := DielectricInterfaceBxDF_ctor eta mfDistrib in
  ~ di_eta b == 1
  /\ (eta == 1 -> di_eta b = 1001 # 1000)
  /\ (~ eta == 1 -> di_eta b = eta)
  /\ di_mfDistrib b = mfDistrib.
Proof.
  cbn. destruct (eta =? 1) eqn:H.
  - apply Feq_true in H. repeat split.
    + intro H1. discriminate H1.
    + intro Hne. contradiction.
  - apply Feq_false in H. repeat split.
    + exact H.
    + intro H1. contradiction.
Qed.

End Constructors.

(** A negative thickness is raised to the smallest positive value. *)
Lemma LayeredBxDF_ctor_thickness_positive_witness :
  xpositive (thickness_init (Finite (- (1)))) = true
  /\ thickness (LayeredBxDF_ctor (mkIdealDiffuseBxDF Run.grey)
                   (mkIdealDiffuseBxDF Run.grey) (- (1)) Run.black 0
                   Run.default_config)
     = FloatMin.
Proof.
  assert (Hnan : Finite (- (1)) <> NaN) by discriminate.
  destruct (@LayeredBxDF_ctor_thickness_positive _ _
              (@IdealDiffuse_BxDF Run.E0) (@IdealDiffuse_BxDF Run.E0)
              (mkIdealDiffuseBxDF Run.grey) (mkIdealDiffuseBxDF Run.grey)
              (Finite (- (1))) Run.black 0 Run.default_config Hnan)
    as [Hpos [_ [_ [_ Hfin]]]].
  split; [exact Hpos |].
  destruct (Hfin (- (1)) eq_refl) as [_ [Hmax _]].
  rewrite Hmax. reflexivity.
Defined.

(** C9 as stated fails: a NaN thickness is not below the smallest positive
    value, so [std::max] returns it and the stored thickness is a NaN,
    which is not positive; and the defaulted constructor stores nothing,
    so that the field holds what its storage held, zero for one. *)
Lemma LayeredBxDF_ctor_thickness_counterexample :
  thickness_init NaN = NaN
  /\ xpositive (thickness_init NaN) = false
  /\ thickness (LayeredBxDF_default (mkIdealDiffuseBxDF Run.grey)
                   (mkIdealDiffuseBxDF Run.grey) Run.black 0 0) = 0
  /\ ~ 0 < thickness (LayeredBxDF_default (mkIdealDiffuseBxDF Run.grey)
                        (mkIdealDiffuseBxDF Run.grey) Run.black 0 0).
Proof.
  repeat split. intro H. discriminate H.
Qed.

(** An index-matched argument is replaced, any other is kept. *)
Lemma DielectricInterfaceBxDF_ctor_eta_witness :
  di_eta (DielectricInterfaceBxDF_ctor (E := Run.E0) 1 (1 # 2, 1 # 2))
    = 1001 # 1000
  /\ di_eta (DielectricInterfaceBxDF_ctor (E := Run.E0) (3 # 2) (1 # 2, 1 # 2))
    = 3 # 2.
Proof.
  split.
  - apply (DielectricInterfaceBxDF_ctor_eta (E := Run.E0) 1 (1 # 2, 1 # 2)).
    reflexivity.
  - apply (DielectricInterfaceBxDF_ctor_eta (E := Run.E0) (3 # 2) (1 # 2, 1 # 2)).
    intro H. discriminate H.
Defined.

(** ** Russian roulette inside the layered evaluator *)

Section LayeredRoulette.
Context {E : Externals}.




End LayeredRoulette.

(** The roulette kills the whole iteration: [f] leaves its walk with the
    state it had, [Sample_f] returns the invalid sample. *)
Lemma f_walk_step_killed {E : Externals} {TopBxDF BottomBxDF : Type}
    {TopOps : BxDF TopBxDF} {BottomOps : BxDF BottomBxDF}
    (att : bool) (l : LayeredBxDF) (wi : Vector3f) (mode : TransportMode)
    (exitI nonExitI : TopOrBottomBxDF) (exitZ : Float) (wis : BSDFSample)
    (betaExit : Spectrum) (depth : nat) (st : WalkState) (rng rng' : RNG) :
  f_roulette depth (ws_beta st) rng = (None, rng') ->
  f_walk_step att l wi mode exitI nonExitI exitZ wis betaExit depth st rng
  = (Break st, rng').
Proof.
  intro H. unfold f_walk_step, bind. rewrite H. reflexivity.
Qed.

Lemma Sample_f_step_killed {E : Externals} {TopBxDF BottomBxDF : Type}
    {TopOps : BxDF TopBxDF} {BottomOps : BxDF BottomBxDF}
    (att : bool) (l : LayeredBxDF) (wo : Vector3f) (mode : TransportMode)
    (flipWi : bool) (depth : nat) (st : SampleState) (rng rng' : RNG) :
  Sample_f_roulette depth (ss_f st) (ss_pdf st) rng = (None, rng') ->
  Sample_f_step att l wo mode flipWi depth st rng
  = (Return BSDFSample_none, rng').
Proof.
  intro H. unfold Sample_f_step, bind. rewrite H. reflexivity.
Qed.

Section LayeredRouletteWalks.
Context {E : Externals}.
Context {TopBxDF BottomBxDF : Type}.
Context {TopOps : BxDF TopBxDF} {BottomOps : BxDF BottomBxDF}.
Variable SupportAttenuation : bool.
Variable l : @LayeredBxDF TopBxDF BottomBxDF.
Variables (wo wi : Vector3f) (mode : TransportMode) (flipWi : bool).
Variables (exitInterface nonExitInterface : @TopOrBottomBxDF TopBxDF BottomBxDF).
Variable exitZ : Float.
Variables (wis : BSDFSample) (betaExit : Spectrum).


End LayeredRouletteWalks.

Section LayeredRouletteRuns.
Existing Instance Run.E0.



End LayeredRouletteRuns.

(** ** The path loop of the integrator *)

Module VolPathProps.
Import VolPath.

Section Loop.
Context {Sc : Scene}.
Variable maxDepth : Z.
Variable rrThreshold : Float.

Local Abbreviation Li_vertex := (VolPath.Li_vertex maxDepth).
Local Abbreviation Li_body := (VolPath.Li_body maxDepth rrThreshold).
Local Abbreviation Li_loop := (VolPath.Li_loop maxDepth rrThreshold).

(** A [break] ends the loop at once with the radiance of that moment. *)
Lemma Li_loop_break (st st' : PathState) (fuel : nat) :
  Li_body st = brk st' -> Li_loop (S fuel) st = Some (L st').
Proof. intro H. cbn. rewrite H. reflexivity. Qed.

(** C2.  Take an iteration that reaches the BSDF sampling at a surface
    vertex: the throughput after the medium sample is not black, no medium
    vertex was sampled, the ray hit a surface, the depth is below
    [maxDepth] and the surface has a BSDF.  If the sampled [f] is black or
    the sampled [pdf] is zero, the iteration breaks; [Li] returns the
    radiance accumulated up to the light sample that precedes the BSDF
    sample, the throughput is the one before the sample, and no further
    iteration runs. *)
Theorem Li_invalid_sample_ends_path
    (st : PathState) (isect0 : SurfaceInteraction) (bsdf : BSDF) :
  let beta1 := fst (fst (sample_medium st)) in
  let mi := snd (fst (sample_medium st)) in
  let s0 := snd (sample_medium st) in
  let isect := ComputeScatteringFunctions isect0 (ray st) in
  let Ld := fst (EstimateLd_surface isect s0) in
  let s1 := snd (EstimateLd_surface isect s0) in
  let L2 := sadd (add_emitted st (Some isect0) beta1) (smul beta1 Ld) in
  let u := fst (Get2D s1) in
  let s2 := snd (Get2D s1) in
  let bs := BSDF_Sample_f bsdf (vneg (ray_d (ray st))) u BSDF_ALL in
  let f := fst (fst (fst bs)) in
  let pdf := snd (fst bs) in
  snonzero beta1 = true ->
  mi = None ->
  Intersect (ray st) = Some isect0 ->
  (depth st < maxDepth)%Z ->
  isect_bsdf isect = Some bsdf ->
  snonzero f = false \/ pdf == 0 ->
  Li_body st = brk (mkPathState L2 beta1 (ray st) (specularBounce st)
                                (depth st) (etaScale st) s2)
  /\ forall fuel, Li_loop (S fuel) st = Some L2.
Proof.
  intros beta1 mi s0 isect Ld s1 L2 u s2 bs f pdf
         Hbeta Hmi Hhit Hdepth Hbsdf Hbad.
  assert (Hbody :
    Li_body st = brk (mkPathState L2 beta1 (ray st) (specularBounce st)
                                  (depth st) (etaScale st) s2)).
  { unfold VolPath.Li_body, VolPath.Li_vertex.
    subst beta1 mi s0.
    destruct (sample_medium st) as [[b m] s]; cbn [fst snd] in *.
    rewrite Hbeta; cbn. subst m. rewrite Hhit.
    assert (Hge : (depth st >=? maxDepth)%Z = false) by (rewrite Z.geb_leb; apply Z.leb_gt; lia).
    rewrite Hge. fold isect. rewrite Hbsdf.
    subst L2 Ld s1 u s2 f pdf bs.
    destruct (EstimateLd_surface isect s) as [ld sa]; cbn [fst snd] in *.
    destruct (Get2D sa) as [uu sb]; cbn [fst snd] in *.
    destruct (BSDF_Sample_f bsdf (vneg (ray_d (ray st))) uu BSDF_ALL)
      as [[[ff wi] pp] fl]; cbn [fst snd] in *.
    assert (Hif : negb (snonzero ff) || (pp =? 0) = true).
    { destruct Hbad as [Hf | Hp].
      - rewrite Hf. reflexivity.
      - apply Feq_true in Hp. rewrite Hp. apply orb_true_r. }
    rewrite Hif. reflexivity. }
  split; [exact Hbody |].
  intro fuel. rewrite (Li_loop_break _ fuel Hbody). reflexivity.
Qed.

(** The second BSDF sample, taken at the exit point of a subsurface walk,
    is treated the same way: a black [f] or a zero [pdf] breaks, and the
    radiance keeps the light sample taken at the exit point just before. *)
Lemma subsurface_invalid_sample_breaks (bssrdf : BSSRDF) (st : PathState) :
  let u1 := fst (Get1D (sampler st)) in
  let sa := snd (Get1D (sampler st)) in
  let u2 := fst (Get2D sa) in
  let sb := snd (Get2D sa) in
  let Sv := fst (fst (BSSRDF_Sample_S bssrdf u1 u2)) in
  let pi := snd (fst (BSSRDF_Sample_S bssrdf u1 u2)) in
  let pdfS := snd (BSSRDF_Sample_S bssrdf u1 u2) in
  let beta1 := smul (beta st) (sdiv Sv pdfS) in
  let L1 := sadd (L st) (smul beta1 (fst (EstimateLd_surface pi sb))) in
  let sc := snd (EstimateLd_surface pi sb) in
  let bs := BSDF_Sample_f (pi_bsdf pi) (isect_wo pi) (fst (Get2D sc)) BSDF_ALL in
  snonzero Sv = true -> ~ pdfS == 0 ->
  snonzero (fst (fst (fst bs))) = false \/ snd (fst bs) == 0 ->
  subsurface bssrdf st
  = brk (mkPathState L1 beta1 (ray st) (specularBounce st) (depth st)
                     (etaScale st) (snd (Get2D sc))).
Proof.
  cbv zeta. intros HS Hp Hbad. unfold subsurface.
  destruct (Get1D (sampler st)) as [u1 sa]; cbn [fst snd] in *.
  destruct (Get2D sa) as [u2 sb]; cbn [fst snd] in *.
  destruct (BSSRDF_Sample_S bssrdf u1 u2) as [[Sv pi] pdfS]; cbn [fst snd] in *.
  rewrite HS. apply Feq_false in Hp. rewrite Hp. cbn.
  destruct (EstimateLd_surface pi sb) as [ld sc]; cbn [fst snd] in *.
  destruct (Get2D sc) as [u sd]; cbn [fst snd] in *.
  destruct (BSDF_Sample_f (pi_bsdf pi) (isect_wo pi) u BSDF_ALL)
    as [[[ff wi] pp] fl]; cbn [fst snd] in *.
  assert (Hif : negb (snonzero ff) || (pp =? 0) = true).
  { destruct Hbad as [Hf | Hq].
    - rewrite Hf. reflexivity.
    - apply Feq_true in Hq. rewrite Hq. apply orb_true_r. }
  rewrite Hif. reflexivity.
Qed.

(** C4.  Take an iteration that reaches the roulette with state [st1], and
    let [m] be the largest channel of [beta * etaScale].  When [depth > 3]
    and [m < rrThreshold], with [q = max(0.05, 1 - m)]: the path ends
    exactly when the draw [Get1D()] is below [q] (and [Li] returns the
    radiance accumulated so far), and otherwise [beta] is divided by
    [1 - q].  When [depth <= 3] or [m >= rrThreshold], nothing is drawn,
    the path goes on and [beta] is left as it is. *)
Theorem Li_roulette_bounce (st st1 : PathState) :
  Li_vertex st = fall st1 ->
  let m := MaxComponentValue (sscale (beta st1) (etaScale st1)) in
  let q := std_max (5 # 100) (1 - m) in
  let v := fst (Get1D (sampler st1)) in
  let s := snd (Get1D (sampler st1)) in
  (m < rrThreshold -> (3 < depth st1)%Z ->
     5 # 100 <= q
     /\ (v < q ->
         Li_body st = brk (mkPathState (L st1) (beta st1) (ray st1)
                             (specularBounce st1) (depth st1) (etaScale st1) s)
         /\ forall fuel, Li_loop (S fuel) st = Some (L st1))
     /\ (~ v < q ->
         Li_body st = cont (mkPathState (L st1) (sdiv (beta st1) (1 - q))
                              (ray st1) (specularBounce st1) (depth st1)
                              (etaScale st1) s)
         /\ (v < 1 -> 0 < 1 - q)))
  /\ ((depth st1 <= 3)%Z \/ rrThreshold <= m -> Li_body st = cont st1).
Proof.
  intros Hfall m q v s. unfold VolPath.Li_body. rewrite Hfall.
  unfold Li_roulette. fold m. fold q. split.
  - intros Hm Hd.
    assert (Hgate : (m <? rrThreshold) && (depth st1 >? 3)%Z = true).
    { apply andb_true_iff. split; [apply Flt_true; exact Hm |].
      apply Z.gtb_lt. exact Hd. }
    rewrite Hgate. subst v s.
    destruct (Get1D (sampler st1)) as [v s] eqn:HG; cbn.
    split; [apply std_max_lower_l |]. split.
    + intro Hv. apply Flt_true in Hv. rewrite Hv.
      split; [reflexivity |]. intro fuel.
      change (L st1)
        with (L (mkPathState (L st1) (beta st1) (ray st1) (specularBounce st1)
                             (depth st1) (etaScale st1) s)).
      apply Li_loop_break.
      unfold VolPath.Li_body. rewrite Hfall. unfold Li_roulette.
      fold m. fold q. rewrite Hgate, HG, Hv. reflexivity.
    + intro Hv. split.
      * destruct (v <? q) eqn:Hlt.
        -- apply Flt_true in Hlt. contradiction.
        -- reflexivity.
      * intro H1. apply Qnot_lt_le in Hv. lra.
  - intros Hg.
    assert (Hgate : (m <? rrThreshold) && (depth st1 >? 3)%Z = false).
    { apply andb_false_iff. destruct Hg as [Hd | Hm].
      - right. rewrite Z.gtb_ltb. apply Z.ltb_ge. exact Hd.
      - left. apply Flt_false. exact Hm. }
    rewrite Hgate. reflexivity.
Qed.

(** C7, as the code has it.  Take an iteration that reaches a surface
    without a BSDF: the throughput after the medium sample is not black,
    no medium vertex was sampled, the ray hit a surface and the depth is
    below [maxDepth].  The iteration continues without roulette; the ray
    is re-spawned from the surface in the direction it had, the depth
    counter is decremented (so that the [++depth] of the loop restores
    it), and [etaScale] and the specular-bounce flag are those at the
    start of the iteration.  The throughput is the one left by the medium
    sample of this iteration, and the radiance includes the emission added
    before the test when [depth == 0] or the previous bounce was specular;
    the branch itself changes neither.  For a ray outside any medium the
    throughput is unchanged, and at [depth > 0] after a non-specular
    bounce so is the radiance. *)
Theorem Li_null_bsdf_free_bounce (st : PathState) (isect0 : SurfaceInteraction) :
  let beta1 := fst (fst (sample_medium st)) in
  let mi := snd (fst (sample_medium st)) in
  let s0 := snd (sample_medium st) in
  let isect := ComputeScatteringFunctions isect0 (ray st) in
  let st' := mkPathState (add_emitted st (Some isect0) beta1) beta1
                         (isect_SpawnRay isect (ray_d (ray st)))
                         (specularBounce st) (depth st - 1)%Z
                         (etaScale st) s0 in
  snonzero beta1 = true ->
  mi = None ->
  Intersect (ray st) = Some isect0 ->
  (depth st < maxDepth)%Z ->
  isect_bsdf isect = None ->
  Li_body st = cont st'
  /\ depth (next_depth st') = depth st
  /\ etaScale st' = etaScale st
  /\ specularBounce st' = specularBounce st
  /\ (ray_medium (ray st) = None -> beta st' = beta st /\ sampler st' = sampler st)
  /\ (depth st <> 0%Z -> specularBounce st = false -> L st' = L st).
Proof.
  intros beta1 mi s0 isect st' Hbeta Hmi Hhit Hdepth Hbsdf.
  split; [| split; [| split; [| split; [| split]]]].
  - unfold VolPath.Li_body, VolPath.Li_vertex.
    subst st' beta1 mi s0.
    destruct (sample_medium st) as [[b m] s]; cbn [fst snd] in *.
    rewrite Hbeta; cbn. subst m. rewrite Hhit.
    assert (Hge : (depth st >=? maxDepth)%Z = false) by (rewrite Z.geb_leb; apply Z.leb_gt; lia).
    rewrite Hge. fold isect. rewrite Hbsdf. reflexivity.
  - cbn. lia.
  - reflexivity.
  - reflexivity.
  - intro Hmed. subst st' beta1 s0. unfold sample_medium. rewrite Hmed.
    cbn. split; reflexivity.
  - intros Hd Hs. subst st'. cbn. unfold add_emitted.
    rewrite Hs. apply Z.eqb_neq in Hd. rewrite Hd. reflexivity.
Qed.

End Loop.
End VolPathProps.

(** The three claims above on the small scene: the black surface ends the
    path with the light sample taken before the BSDF sample; the dim path
    at depth 4 draws 1/10, below [q = 9/10], and ends; the bare boundary is
    crossed without roulette. *)
Lemma Li_invalid_sample_ends_path_witness :
  VolPath.Li_loop (Sc := Run.Sc0) 5 1 1 Run.at_black = Some (Run.rgb (1 # 4)).
Proof.
  refine (proj2 (@VolPathProps.Li_invalid_sample_ends_path Run.Sc0
                   5%Z 1 Run.at_black 1%nat 1%nat _ _ _ _ _ _) 0%nat).
  - reflexivity.
  - reflexivity.
  - reflexivity.
  - reflexivity.
  - reflexivity.
  - left. reflexivity.
Defined.

Lemma Li_roulette_bounce_witness :
  VolPath.Li_loop (Sc := Run.Sc0) 5 1 1 Run.deep_dim = Some (Run.rgb (1 # 4)).
Proof.
  pose (st1 := VolPath.mkPathState (Sc := Run.Sc0)
                 (Run.rgb (1 # 4)) (Run.rgb (1 # 10))
                 (Run.mkRay0 Run.straight_up false (Some 2%nat))
                 false 4 1 1%nat).
  destruct (@VolPathProps.Li_roulette_bounce Run.Sc0 5%Z 1
              Run.deep_dim st1 eq_refl) as [Hopen _].
  destruct Hopen as [_ [Hkill _]].
  - reflexivity.
  - reflexivity.
  - destruct Hkill as [_ Hloop].
    + reflexivity.
    + exact (Hloop 0%nat).
Defined.

Lemma Li_null_bsdf_free_bounce_witness :
  VolPath.Li_body (Sc := Run.Sc0) 5 1 Run.at_boundary
  = VolPath.cont
      (VolPath.mkPathState (Sc := Run.Sc0)
         (Run.rgb 0) (Run.rgb (1 # 2))
         (Run.mkRay0 Run.straight_up false (Some 2%nat)) false 0 1 0%nat).
Proof.
  refine (proj1 (@VolPathProps.Li_null_bsdf_free_bounce Run.Sc0
                   5%Z 1 Run.at_boundary 0%nat _ _ _ _ _)); reflexivity.
Defined.

(** C7 as stated fails: the ray crosses a bare boundary (no BSDF) while
    inside the medium; the iteration is the free bounce, and yet its
    throughput went from 1 to 1/2, the medium sample of the same
    iteration. *)
Lemma Li_null_bsdf_counterexample :
  @VolPath.isect_bsdf Run.Sc0
    (@VolPath.ComputeScatteringFunctions Run.Sc0 0%nat
       (VolPath.ray Run.at_boundary))
  = None
  /\ exists st',
       VolPath.Li_body (Sc := Run.Sc0) 5 1 Run.at_boundary = VolPath.cont st'
       /\ VolPath.beta Run.at_boundary = Run.rgb 1
       /\ VolPath.beta st' = Run.rgb (1 # 2)
       /\ ~ (1 # 2) == 1.
Proof.
  split; [reflexivity |].
  eexists. split; [reflexivity |]. split; [reflexivity |].
  split; [reflexivity |]. intro H. discriminate H.
Qed.

(** ** The density of the layered composite *)

Section LayeredPDF.
Context {E : Externals}.
Context {TopBxDF BottomBxDF : Type}.
Context {TopOps : BxDF TopBxDF} {BottomOps : BxDF BottomBxDF}.

(** A property of the value of [c] passes through what follows it. *)
Lemma bind_value {A B} (c : Rand A) (k : A -> Rand B) (P : B -> Prop)
    (rng : RNG) :
  (forall a rng', P (fst (k a rng'))) -> P (fst (bind c k rng)).
Proof.
  intro H. unfold bind. destruct (c rng) as [a rng']. apply H.
Qed.

Lemma of_count_nonneg (n : nat) : 0 <= of_count n.
Proof.
  unfold of_count. change 0 with (inject_Z 0). rewrite <- Zle_Qle. lia.
Qed.

Lemma of_count_positive (n : nat) : (0 < n)%nat -> 0 < of_count n.
Proof.
  intro H. unfold of_count. change 0 with (inject_Z 0). rewrite <- Zlt_Qlt. lia.
Qed.

Variable l : @LayeredBxDF TopBxDF BottomBxDF.
Hypothesis top_PDF_nonneg :
  forall wo wi mode fl, 0 <= PDF (top l) wo wi mode fl.
Hypothesis bottom_PDF_nonneg :
  forall wo wi mode fl, 0 <= PDF (bottom l) wo wi mode fl.

Lemma interface_PDF_nonneg (i : TopOrBottomBxDF) :
  i = tb_top (top l) \/ i = tb_bottom (bottom l) ->
  forall wo wi mode fl, 0 <= tb_PDF i wo wi mode fl.
Proof.
  intros [-> | ->] wo wi mode fl; cbn; auto.
Qed.

Lemma pick_interface (c : bool) :
  (if c then tb_top (top l) else tb_bottom (bottom l)) = tb_top (top l)
  \/ (if c then tb_top (top l) else tb_bottom (bottom l)) = tb_bottom (bottom l).
Proof. destruct c; auto. Qed.

Lemma pick_interface' (c : bool) :
  (if c then tb_bottom (bottom l) else tb_top (top l)) = tb_top (top l)
  \/ (if c then tb_bottom (bottom l) else tb_top (top l)) = tb_bottom (bottom l).
Proof. destruct c; auto. Qed.

(** Each sample adds a non-negative term to the running sum. *)
Lemma PDF_sample_nonneg (wo wi : Vector3f) (mode : TransportMode)
    (enteredTop : bool) (pdfSum : Float) (rng : RNG) :
  0 <= pdfSum ->
  0 <= fst (PDF_sample l wo wi mode enteredTop pdfSum rng).
Proof.
  intro Hsum. unfold PDF_sample.
  pose proof (interface_PDF_nonneg (pick_interface enteredTop)) as Ht.
  pose proof (interface_PDF_nonneg (pick_interface' enteredTop)) as Hb.
  set (it := if enteredTop then tb_top (top l) else tb_bottom (bottom l)) in *.
  set (ib := if enteredTop then tb_bottom (bottom l) else tb_top (top l)) in *.
  destruct (SameHemisphere wo wi).
  - apply bind_value; intros uc rng1. apply bind_value; intros u rng2.
    match goal with |- context [if ?c then _ else _] => destruct c end.
    + unfold ret; cbn [fst]. specialize (Ht wo wi mode BxDFReflTransFlags.All). lra.
    + apply bind_value; intros uc' rng3. apply bind_value; intros u' rng4.
      match goal with |- context [if ?c then _ else _] => destruct c end.
      * unfold ret; cbn [fst]. exact Hsum.
      * unfold ret; cbn [fst].
        match goal with |- 0 <= _ + tb_PDF ib ?a ?b ?c ?d =>
          specialize (Hb a b c d) end.
        lra.
  - apply bind_value; intros uc rng1. apply bind_value; intros u rng2.
    match goal with |- context [if ?c then _ else _] => destruct c end.
    + unfold ret; cbn [fst]. exact Hsum.
    + apply bind_value; intros uc' rng3. apply bind_value; intros u' rng4.
      match goal with |- context [if ?c then _ else _] => destruct c end.
      * unfold ret; cbn [fst]. exact Hsum.
      * set (wos := tb_Sample_f it wo uc u mode BxDFReflTransFlags.All).
        set (wis := tb_Sample_f ib wi uc' u' (mode_flip mode)
                                BxDFReflTransFlags.All).
        pose proof (Hb (vneg (bs_wi wos)) wi mode BxDFReflTransFlags.All) as H1.
        pose proof (Ht wo (vneg (bs_wi wis)) mode BxDFReflTransFlags.All) as H2.
        subst wos wis.
        destruct (IsSpecular (tb_Flags it)); [unfold ret; cbn [fst]; lra |].
        destruct (IsSpecular (tb_Flags ib)); [unfold ret; cbn [fst]; lra |].
        unfold ret; cbn [fst].
        match goal with |- 0 <= _ + ?s / 2 =>
          assert (Hhalf : 0 <= s / 2)
            by (apply Qle_shift_div_l; [reflexivity | lra])
        end.
        lra.
Qed.

(** An iteration adds its term to the sum and leaves the stream where the
    term's own computation leaves it. *)
Lemma PDF_sample_adds (wo wi : Vector3f) (mode : TransportMode)
    (enteredTop : bool) (pdfSum : Float) (rng : RNG) :
  fst (PDF_sample l wo wi mode enteredTop pdfSum rng)
  == pdfSum + fst (PDF_sample l wo wi mode enteredTop 0 rng)
  /\ snd (PDF_sample l wo wi mode enteredTop pdfSum rng)
     = snd (PDF_sample l wo wi mode enteredTop 0 rng).
Proof.
  unfold PDF_sample, r2, bind, ret.
  destruct (SameHemisphere wo wi).
  - destruct (r rng) as [uc rng1]. destruct (r rng1) as [u1 rng2].
    destruct (r rng2) as [u2 rng3].
    match goal with |- context [if ?c then _ else _] => destruct c end.
    + cbn [fst snd]. split; [lra | reflexivity].
    + destruct (r rng3) as [uc' rng4]. destruct (r rng4) as [u1' rng5].
      destruct (r rng5) as [u2' rng6].
      match goal with |- context [if ?c then _ else _] => destruct c end;
        cbn [fst snd]; (split; [lra | reflexivity]).
  - destruct (r rng) as [uc rng1]. destruct (r rng1) as [u1 rng2].
    destruct (r rng2) as [u2 rng3].
    match goal with |- context [if ?c then _ else _] => destruct c end.
    + cbn [fst snd]. split; [lra | reflexivity].
    + destruct (r rng3) as [uc' rng4]. destruct (r rng4) as [u1' rng5].
      destruct (r rng5) as [u2' rng6].
      match goal with |- context [if ?c then _ else _] => destruct c end.
      * cbn [fst snd]. split; [lra | reflexivity].
      * destruct (IsSpecular _);
          [cbn [fst snd]; split; [lra | reflexivity] |].
        destruct (IsSpecular _); cbn [fst snd]; (split; [lra | reflexivity]).
Qed.

Lemma PDF_samples_total (wo wi : Vector3f) (mode : TransportMode)
    (enteredTop : bool) (n : nat) :
  forall (pdfSum : Float) (rng : RNG),
    fst (PDF_samples n (PDF_sample l wo wi mode enteredTop) pdfSum rng)
    == pdfSum + total (PDF_terms n (PDF_sample l wo wi mode enteredTop) rng).
Proof.
  induction n as [| n IH]; intros pdfSum rng; cbn [PDF_samples PDF_terms].
  - unfold ret, total. cbn. lra.
  - unfold bind.
    destruct (PDF_sample_adds wo wi mode enteredTop pdfSum rng) as [Hv Hs].
    destruct (PDF_sample l wo wi mode enteredTop pdfSum rng) as [s1 rng1].
    destruct (PDF_sample l wo wi mode enteredTop 0 rng) as [t rng2].
    cbn [fst snd] in *. subst rng2. rewrite IH.
    unfold total. cbn [fold_right]. fold (total (PDF_terms n
      (PDF_sample l wo wi mode enteredTop) rng1)). lra.
Qed.

Lemma PDF_samples_nonneg (wo wi : Vector3f) (mode : TransportMode)
    (enteredTop : bool) (n : nat) :
  forall (pdfSum : Float) (rng : RNG),
    0 <= pdfSum ->
    0 <= fst (PDF_samples n (PDF_sample l wo wi mode enteredTop) pdfSum rng).
Proof.
  induction n as [| n IH]; intros pdfSum rng Hsum; cbn.
  - exact Hsum.
  - unfold bind.
    pose proof (PDF_sample_nonneg wo wi mode enteredTop rng Hsum) as Hstep.
    destruct (PDF_sample l wo wi mode enteredTop pdfSum rng) as [s rng'].
    apply IH. exact Hstep.
Qed.

Lemma PDF_sum_nonneg (wo wi : Vector3f) (mode : TransportMode) (rng : RNG) :
  0 <= PDF_sum l wo wi mode rng.
Proof.
  unfold PDF_sum. apply PDF_samples_nonneg.
  pose proof (of_count_nonneg (nSamples (config l))) as Hn.
  destruct (SameHemisphere wo wi); [| lra].
  destruct (z wo >? 0).
  - pose proof (top_PDF_nonneg wo wi mode BxDFReflTransFlags.Reflection).
    rewrite Qplus_0_l. apply Qmult_le_0_compat; assumption.
  - pose proof (bottom_PDF_nonneg wo wi mode BxDFReflTransFlags.Reflection).
    rewrite Qplus_0_l. apply Qmult_le_0_compat; assumption.
Qed.

Lemma PDF_sum_total (wo wi : Vector3f) (mode : TransportMode) (rng : RNG) :
  PDF_sum l wo wi mode rng
  == of_count (nSamples (config l)) * PDF_entrance l wo wi mode
     + total (PDF_terms (nSamples (config l))
                        (PDF_sample l wo wi mode (z wo >? 0)) rng).
Proof.
  unfold PDF_sum. rewrite PDF_samples_total. unfold PDF_entrance.
  destruct (SameHemisphere wo wi); [destruct (z wo >? 0) |]; lra.
Qed.

(** C1.  With at least one sample and child densities that are never
    negative, [PDF] returns [0.9 * estimate + 0.1 / (4 Pi)], where
    [estimate = pdfSum / nSamples] is the density of the reflection at the
    entrance interface plus the average of the terms the samples add; the
    estimate is non-negative, so the density is at least [0.1 / (4 Pi)]
    and strictly positive, whatever the directions and the transport
    mode. *)
Theorem Layered_PDF_mixture_positive (opts : Options)
    (wo wi : Vector3f) (mode : TransportMode) :
  0 < Pi ->
  (0 < nSamples (config l))%nat ->
  let wo' := fst (two_sided_flip l wo wi) in
  let wi' := snd (two_sided_flip l wo wi) in
  let rng := RNG_ctor (Hash_seed_dir (seed opts) wo') (Hash_dir wi') in
  let n := nSamples (config l) in
  let estimate := PDF_sum l wo' wi' mode rng / of_count n in
  estimate == PDF_entrance l wo' wi' mode
              + total (PDF_terms n (PDF_sample l wo' wi' mode (z wo' >? 0)) rng)
                / of_count n
  /\ 0 <= estimate
  /\ exists pdf,
       Layered_PDF opts l wo wi mode BxDFReflTransFlags.All = Some pdf
       /\ pdf == (9 # 10) * estimate + (1 # 10) * (1 / (4 * Pi))
       /\ (1 # 10) * (1 / (4 * Pi)) <= pdf
       /\ 0 < pdf.
Proof.
  intros HPi Hn wo' wi' rng n estimate.
  assert (Hcount : 0 < of_count n) by (apply of_count_positive; exact Hn).
  assert (Hest : 0 <= estimate).
  { subst estimate. unfold Qdiv. apply Qmult_le_0_compat.
    - apply PDF_sum_nonneg.
    - apply Qinv_le_0_compat. apply Qlt_le_weak. exact Hcount. }
  assert (Hiso : 0 < 1 / (4 * Pi)).
  { unfold Qdiv. rewrite Qmult_1_l. apply Qinv_lt_0_compat. lra. }
  split; [| split; [exact Hest |]].
  - subst estimate. rewrite PDF_sum_total. fold n. field. lra.
  - exists (Lerp (9 # 10) (1 / (4 * Pi)) estimate).
    split.
    + unfold Layered_PDF. cbn [negb Z.eqb BxDFReflTransFlags.All].
      subst estimate n rng wo' wi'.
      destruct (two_sided_flip l wo wi) as [a b]. reflexivity.
    + unfold Lerp. set (c := 1 / (4 * Pi)) in *.
      repeat split; lra.
Qed.

End LayeredPDF.

(** The density of the ideal diffuse reflector is a product of two
    non-negative factors. *)
Lemma IdealDiffuse_PDF_nonneg {E : Externals} (b : IdealDiffuseBxDF)
    (wo wi : Vector3f) (mode : TransportMode) (fl : Z) :
  0 <= InvPi -> (forall w, 0 <= AbsCosTheta w) ->
  0 <= IdealDiffuse_PDF b wo wi mode fl.
Proof.
  intros Hpi Hcos. unfold IdealDiffuse_PDF.
  destruct (negb _); [apply Qle_refl |].
  destruct (SameHemisphere wo wi); [| apply Qle_refl].
  apply Qmult_le_0_compat; [apply Hcos | exact Hpi].
Qed.

#[local] Existing Instance Run.E0.

(** A diffuse layer over a diffuse base, queried along the normal. *)
Lemma Layered_PDF_mixture_positive_witness :
  exists pdf,
    Layered_PDF (E := Run.E0) Run.options_a Run.diffuse_pair
                Run.straight_up Run.straight_up Radiance
                BxDFReflTransFlags.All = Some pdf
    /\ 0 < pdf.
Proof.
  assert (Hchild : forall (b : IdealDiffuseBxDF) wo wi mode fl,
            0 <= PDF b wo wi mode fl).
  { intros. apply (IdealDiffuse_PDF_nonneg (E := Run.E0)).
    - discriminate.
    - intro w. apply Qabs_nonneg. }
  destruct (@Layered_PDF_mixture_positive Run.E0 _ _ _ _ Run.diffuse_pair
              (Hchild _) (Hchild _) Run.options_a
              Run.straight_up Run.straight_up Radiance eq_refl (le_n 1))
    as [_ [_ [pdf [Heq [_ [_ Hpos]]]]]].
  exists pdf. split; assumption.
Defined.

(** ** Reproducibility of the layered evaluator *)

Section StreamOnly.
Context {E : Externals}.







End StreamOnly.


Section Reproducible.
Context {E : Externals}.
Context {TopBxDF BottomBxDF : Type}.
Context {TopOps : BxDF TopBxDF} {BottomOps : BxDF BottomBxDF}.
Variable SupportAttenuation : bool.








End Reproducible.


Section ReproducibleRuns.
Existing Instance Run.E0.


End ReproducibleRuns.

(** ** What [Sample_f] returns as invalid *)

Section InvalidSamples.
Context {E : Externals}.

Lemma masked_zero (fl bit : Z) (p : Q) :
  has_flag fl bit = false \/ p == 0 ->
  (((if negb (has_flag fl bit) then 0 else p) : Q) =? 0) = true.
Proof.
  intros [H | H].
  - rewrite H. reflexivity.
  - destruct (negb (has_flag fl bit)); [reflexivity |].
    apply Feq_true. exact H.
Qed.

(** C6, as the code has it.  A zero [wo.z] is tested by
    [DielectricInterfaceBxDF], and by [ConductorBxDF] on its non-specular
    path only; the other variants have no such test.  Every variant that
    takes a lobe mask returns the invalid sample when the mask leaves it
    no lobe to sample: no reflection for the ideal diffuse reflector, the
    conductor and the subsurface adapter; neither reflection nor
    transmission for the two dielectrics; for [DiffuseBxDF], each of
    reflection and transmission either masked out or of zero weight.
    [LayeredBxDF::Sample_f] accepts the full mask only: any other fails its
    [CHECK] and no sample is returned. *)
Theorem Sample_f_invalid_guards :
  (forall (b : DielectricInterfaceBxDF) wo uc u mode fl,
     z wo == 0 ->
     DielectricInterface_Sample_f b wo uc u mode fl = BSDFSample_none)
  /\ (forall (b : ConductorBxDF) wo uc u mode fl,
        z wo == 0 -> mf_EffectivelySpecular (cd_mfDistrib b) = false ->
        Conductor_Sample_f b wo uc u mode fl = BSDFSample_none)
  /\ (forall (b : IdealDiffuseBxDF) wo uc u mode fl,
        has_flag fl BxDFReflTransFlags.Reflection = false ->
        IdealDiffuse_Sample_f b wo uc u mode fl = BSDFSample_none)
  /\ (forall (b : DiffuseBxDF) wo uc u mode fl,
        has_flag fl BxDFReflTransFlags.Reflection = false
        \/ MaxComponentValue (df_R b) == 0 ->
        has_flag fl BxDFReflTransFlags.Transmission = false
        \/ MaxComponentValue (df_T b) == 0 ->
        Diffuse_Sample_f b wo uc u mode fl = BSDFSample_none)
  /\ (forall (b : DielectricInterfaceBxDF) wo uc u mode fl,
        has_flag fl BxDFReflTransFlags.Reflection = false ->
        has_flag fl BxDFReflTransFlags.Transmission = false ->
        DielectricInterface_Sample_f b wo uc u mode fl = BSDFSample_none)
  /\ (forall (b : ThinDielectricBxDF) wo uc u mode fl,
        has_flag fl BxDFReflTransFlags.Reflection = false ->
        has_flag fl BxDFReflTransFlags.Transmission = false ->
        ThinDielectric_Sample_f b wo uc u mode fl = BSDFSample_none)
  /\ (forall (b : ConductorBxDF) wo uc u mode fl,
        has_flag fl BxDFReflTransFlags.Reflection = false ->
        Conductor_Sample_f b wo uc u mode fl = BSDFSample_none)
  /\ (forall (b : BSSRDFAdapter) wo uc u mode fl,
        has_flag fl BxDFReflTransFlags.Reflection = false ->
        BSSRDFAdapter_Sample_f b wo uc u mode fl = BSDFSample_none)
  /\ (forall (TopBxDF BottomBxDF : Type) (TopOps : BxDF TopBxDF)
             (BottomOps : BxDF BottomBxDF) (att : bool) (opts : Options)
             (l : @LayeredBxDF TopBxDF BottomBxDF) wo uc u mode fl,
        fl <> BxDFReflTransFlags.All ->
        Layered_Sample_f att opts l wo uc u mode fl = None).
Proof.
  repeat apply conj.
  - intros b wo uc u mode fl Hz. unfold DielectricInterface_Sample_f; cbv zeta.
    apply Feq_true in Hz. rewrite Hz. reflexivity.
  - intros b wo uc u mode fl Hz Hrough. unfold Conductor_Sample_f; cbv zeta.
    rewrite Hrough. apply Feq_true in Hz. rewrite Hz.
    destruct (negb _); reflexivity.
  - intros b wo uc u mode fl Hr. unfold IdealDiffuse_Sample_f; cbv zeta.
    rewrite Hr. reflexivity.
  - intros b wo uc u mode fl Hr Ht. unfold Diffuse_Sample_f; cbv zeta.
    rewrite (masked_zero _ _ Hr), (masked_zero _ _ Ht). reflexivity.
  - intros b wo uc u mode fl Hr Ht. unfold DielectricInterface_Sample_f; cbv zeta.
    rewrite Hr, Ht. cbn [negb].
    assert (H0 : (0 =? 0) = true) by reflexivity. rewrite H0. cbn [andb].
    destruct (z wo =? 0); [reflexivity |].
    destruct (mf_EffectivelySpecular (di_mfDistrib b)); reflexivity.
  - intros b wo uc u mode fl Hr Ht. unfold ThinDielectric_Sample_f; cbv zeta.
    rewrite Hr, Ht. cbn [negb].
    destruct (FrDielectric (CosTheta wo) (td_eta b) <? 1); reflexivity.
  - intros b wo uc u mode fl Hr. unfold Conductor_Sample_f; cbv zeta.
    rewrite Hr. reflexivity.
  - intros b wo uc u mode fl Hr. unfold BSSRDFAdapter_Sample_f; cbv zeta.
    rewrite Hr. reflexivity.
  - intros TopBxDF BottomBxDF TopOps BottomOps att opts l wo uc u mode fl Hfl.
    unfold Layered_Sample_f; cbv zeta. apply Z.eqb_neq in Hfl. rewrite Hfl. reflexivity.
Qed.

End InvalidSamples.

(** A rough dielectric seen edge-on, and a diffuse reflector asked for
    transmission only. *)
Lemma Sample_f_invalid_guards_witness :
  DielectricInterface_Sample_f (E := Run.E0)
    (DielectricInterfaceBxDF_ctor (E := Run.E0) (3 # 2) (1 # 2, 1 # 2))
    Run.grazing 0 Run.centre Radiance BxDFReflTransFlags.All
  = BSDFSample_none
  /\ IdealDiffuse_Sample_f (E := Run.E0) (mkIdealDiffuseBxDF Run.white)
       Run.straight_up 0 Run.centre Radiance BxDFReflTransFlags.Transmission
     = BSDFSample_none.
Proof.
  destruct (@Sample_f_invalid_guards Run.E0) as [Hz [_ [Hmask _]]].
  split.
  - apply Hz. reflexivity.
  - apply Hmask. reflexivity.
Defined.

(** C6 as stated fails: [DiffuseBxDF] does not test [wo.z].  With [wo]
    edge-on, a white reflector and transmitter returns a sample built by
    the constructor (validity bit set), with positive density and
    non-zero value; the ideal diffuse reflector returns a valid sample
    too. *)
Lemma Sample_f_grazing_counterexample :
  z Run.grazing == 0
  /\ (let s := Diffuse_Sample_f (E := Run.E0)
                 (mkDiffuseBxDF Run.white Run.white 1 0)
                 Run.grazing 0 Run.centre Radiance BxDFReflTransFlags.All in
      bs_valid s = true /\ 0 < bs_pdf s /\ snonzero (bs_f s) = true)
  /\ (let s := IdealDiffuse_Sample_f (E := Run.E0)
                 (mkIdealDiffuseBxDF Run.white)
                 Run.grazing 0 Run.centre Radiance BxDFReflTransFlags.All in
      bs_valid s = true /\ 0 < bs_pdf s).
Proof.
  repeat split.
Qed.

(** ** What a valid sample carries *)













Section ValidSamples.
Context {E : Externals}.

(** What the spec says of the shading frame: the cosine of a direction is
    its [z] component, and two directions lie in the same hemisphere when
    their [z] components have the same sign. *)
Hypothesis AbsCosTheta_abs : forall w, AbsCosTheta w == Qabs (z w).
Hypothesis SameHemisphere_sign :
  forall w w', SameHemisphere w w' = (z w * z w' >? 0).
Hypothesis InvPi_positive : 0 < InvPi.


Lemma cosine_sample_same_side (wo c : Vector3f) :
  ~ z wo == 0 -> 0 < z c ->
  let wi := if z wo <? 0 then flip_z c else c in
  SameHemisphere wo wi = true /\ ~ z wi == 0.
Proof.
  intros Hwo Hc. cbv zeta. rewrite SameHemisphere_sign.
  destruct (z wo <? 0) eqn:Hneg.
  - apply Flt_true in Hneg. cbn [flip_z z]. split.
    + apply Flt_true. nra.
    + lra.
  - apply Flt_false in Hneg. split.
    + apply Flt_true. assert (0 < z wo) by lra. nra.
    + lra.
Qed.



Lemma AbsCosTheta_nonneg (w : Vector3f) : 0 <= AbsCosTheta w.
Proof. rewrite AbsCosTheta_abs. apply Qabs_nonneg. Qed.

(** *** IdealDiffuseBxDF *)


(** *** BSSRDFAdapter *)


(** *** DiffuseBxDF *)



(** *** ThinDielectricBxDF *)


(** *** ConductorBxDF *)


(** *** DielectricInterfaceBxDF *)


(** *** LayeredBxDF *)

Section LayeredValid.
Context {TopBxDF BottomBxDF : Type}.
Context {TopOps : BxDF TopBxDF} {BottomOps : BxDF BottomBxDF}.
Variable SupportAttenuation : bool.
Variable l : @LayeredBxDF TopBxDF BottomBxDF.

(** What the walk needs of its collaborators: the generator yields
    numbers that are not negative and the draw [r()] stays below 1; a
    valid sample of an interface, drawn with [uc] in [0, 1), and a valid
    sample of the phase function have a positive density when their
    direction is off the horizon. *)
Hypothesis Uniform_nonneg : forall g, 0 <= fst (RNG_Uniform g).
Hypothesis OneMinusEpsilon_range : 0 <= OneMinusEpsilon < 1.
Hypothesis top_positive :
  forall wo uc u mode fl,
    0 <= uc -> uc < 1 ->
    bs_valid (Sample_f (top l) wo uc u mode fl) = true ->
    ~ z (bs_wi (Sample_f (top l) wo uc u mode fl)) == 0 ->
    0 < bs_pdf (Sample_f (top l) wo uc u mode fl).
Hypothesis bottom_positive :
  forall wo uc u mode fl,
    0 <= uc -> uc < 1 ->
    bs_valid (Sample_f (bottom l) wo uc u mode fl) = true ->
    ~ z (bs_wi (Sample_f (bottom l) wo uc u mode fl)) == 0 ->
    0 < bs_pdf (Sample_f (bottom l) wo uc u mode fl).
Hypothesis phase_positive :
  forall wo u,
    ps_valid (HG_Sample_p (g l) wo u) = true ->
    ~ z (ps_wi (HG_Sample_p (g l) wo u)) == 0 ->
    0 < ps_pdf (HG_Sample_p (g l) wo u).







End LayeredValid.


End ValidSamples.






(* ===================================================================== *)
(** * Further properties of the scattering distributions                  *)
(* ===================================================================== *)

(** ** Flag arithmetic *)

Lemma has_flag_lor (a b bit : Z) :
  has_flag (Z.lor a b) bit = has_flag a bit || has_flag b bit.
Proof.
  unfold has_flag. rewrite Z.land_lor_distr_l.
  destruct (Z.eqb_spec (Z.land a bit) 0) as [Ha | Ha];
    destruct (Z.eqb_spec (Z.land b bit) 0) as [Hb | Hb]; cbn.
  - rewrite Ha, Hb. reflexivity.
  - apply negb_true_iff, Z.eqb_neq. intro H.
    apply Z.lor_eq_0_iff in H. tauto.
  - apply negb_true_iff, Z.eqb_neq. intro H.
    apply Z.lor_eq_0_iff in H. tauto.
  - apply negb_true_iff, Z.eqb_neq. intro H.
    apply Z.lor_eq_0_iff in H. tauto.
Qed.

(** ** Choosing between reflection and transmission *)

(** The two dielectrics choose reflection when [uc < pr / (pr + pt)],
    after zeroing the weight of a masked lobe.  For [uc] in [0, 1): a lobe
    of zero weight is never chosen, and a lobe left alone is always
    chosen. *)
Lemma choice_zero_reflection (uc pt : Q) :
  0 <= uc -> (uc <? 0 / (0 + pt)) = false.
Proof.
  intro H. apply Flt_false. unfold Qdiv. rewrite Qmult_0_l. exact H.
Qed.

Lemma choice_zero_transmission (uc pr : Q) :
  uc < 1 -> ~ pr == 0 -> (uc <? pr / (pr + 0)) = true.
Proof.
  intros H Hpr. apply Flt_true.
  assert (Hone : pr / (pr + 0) == 1) by (field; exact Hpr).
  rewrite Hone. exact H.
Qed.

Section LobeMask.
Context {E : Externals}.

Lemma none_within_mask (fl : Z) : within_mask BSDFSample_none fl.
Proof. intro H. discriminate H. Qed.

Lemma reflection_within_mask (f : Spectrum) (wi : Vector3f) (pdf : Float)
    (lobe fl : Z) :
  IsTransmissive lobe = false ->
  has_flag fl BxDFReflTransFlags.Reflection = true ->
  within_mask (BSDFSample_ctor f wi pdf lobe) fl.
Proof.
  intros Hl Hfl _. split; [intros _; exact Hfl |].
  unfold bs_IsTransmission. cbn [bs_flags BSDFSample_ctor].
  rewrite Hl. intro H. discriminate H.
Qed.

Lemma transmission_within_mask (f : Spectrum) (wi : Vector3f) (pdf : Float)
    (lobe fl : Z) :
  IsReflective lobe = false ->
  has_flag fl BxDFReflTransFlags.Transmission = true ->
  within_mask (BSDFSample_ctor f wi pdf lobe) fl.
Proof.
  intros Hl Hfl _. split; [| intros _; exact Hfl].
  unfold bs_IsReflection. cbn [bs_flags BSDFSample_ctor].
  rewrite Hl. intro H. discriminate H.
Qed.

(** The masked weights of the two dielectrics, and what the choice between
    them implies for [uc] in [0, 1). *)
Lemma masked_choice (fl : Z) (R T uc : Q) :
  0 <= uc -> uc < 1 ->
  let pr := if negb (has_flag fl BxDFReflTransFlags.Reflection)
            then 0 else R in
  let pt := if negb (has_flag fl BxDFReflTransFlags.Transmission)
            then 0 else T in
  (pr =? 0) && (pt =? 0) = false ->
  (if uc <? pr / (pr + pt)
   then has_flag fl BxDFReflTransFlags.Reflection
   else has_flag fl BxDFReflTransFlags.Transmission) = true.
Proof.
  intros H0 H1. cbv zeta.
  destruct (has_flag fl BxDFReflTransFlags.Reflection);
    destruct (has_flag fl BxDFReflTransFlags.Transmission); cbn [negb].
  - intros _. destruct (uc <? _); reflexivity.
  - intro Hnz. rewrite andb_true_r in Hnz. apply Feq_false in Hnz.
    rewrite (choice_zero_transmission H1 Hnz). reflexivity.
  - intros _. rewrite (choice_zero_reflection T H0). reflexivity.
  - intro Hnz. discriminate Hnz.
Qed.

(** X1.  Every variant honours the lobe mask: for [uc] in [0, 1), a valid
    sample of the ideal diffuse reflector, the conductor, the subsurface
    adapter, the dielectric interface or the thin dielectric is a
    reflection only if the mask allows reflection, and a transmission only
    if it allows transmission. *)
Theorem Sample_f_within_mask (wo : Vector3f) (uc : Float) (u : Point2f)
    (mode : TransportMode) (fl : Z) :
  0 <= uc -> uc < 1 ->
  (forall b : IdealDiffuseBxDF,
     within_mask (IdealDiffuse_Sample_f b wo uc u mode fl) fl)
  /\ (forall b : ConductorBxDF,
        within_mask (Conductor_Sample_f b wo uc u mode fl) fl)
  /\ (forall b : BSSRDFAdapter,
        within_mask (BSSRDFAdapter_Sample_f b wo uc u mode fl) fl)
  /\ (forall b : DielectricInterfaceBxDF,
        within_mask (DielectricInterface_Sample_f b wo uc u mode fl) fl)
  /\ (forall b : ThinDielectricBxDF,
        within_mask (ThinDielectric_Sample_f b wo uc u mode fl) fl).
Proof.
  intros H0 H1. repeat apply conj.
  - intro b. unfold IdealDiffuse_Sample_f.
    destruct (has_flag fl BxDFReflTransFlags.Reflection) eqn:Hr; cbn [negb].
    + apply reflection_within_mask; [reflexivity | exact Hr].
    + apply none_within_mask.
  - intro b. unfold Conductor_Sample_f; cbv zeta.
    destruct (has_flag fl BxDFReflTransFlags.Reflection) eqn:Hr; cbn [negb];
      [| apply none_within_mask].
    destruct (mf_EffectivelySpecular (cd_mfDistrib b)).
    + apply reflection_within_mask; [reflexivity | exact Hr].
    + destruct (z wo =? 0); [apply none_within_mask |].
      destruct (_ || _); [apply none_within_mask |].
      destruct (_ || _); [apply none_within_mask |].
      apply reflection_within_mask; [reflexivity | exact Hr].
  - intro b. unfold BSSRDFAdapter_Sample_f.
    destruct (has_flag fl BxDFReflTransFlags.Reflection) eqn:Hr; cbn [negb].
    + apply reflection_within_mask; [reflexivity | exact Hr].
    + apply none_within_mask.
  - intro b. unfold DielectricInterface_Sample_f; cbv zeta.
    destruct (z wo =? 0); [apply none_within_mask |].
    destruct (mf_EffectivelySpecular (di_mfDistrib b)) eqn:Hspec.
    + set (R := FrDielectric (CosTheta wo) (di_eta b)).
      pose proof (masked_choice fl R (1 - R) H0 H1) as Hc. cbv zeta in Hc.
      destruct (_ && _); [apply none_within_mask |].
      specialize (Hc eq_refl).
      destruct (uc <? _).
      * apply reflection_within_mask; [reflexivity | exact Hc].
      * destruct (Refract _ _ _); [| apply none_within_mask].
        apply transmission_within_mask; [reflexivity | exact Hc].
    + set (wh := mf_Sample_wm (di_mfDistrib b) wo u).
      set (F := FrDielectric (Dot (Reflect wo wh) (FaceForward wh up))
                             (di_eta b)).
      pose proof (masked_choice fl F (1 - F) H0 H1) as Hc. cbv zeta in Hc.
      destruct (_ && _); [apply none_within_mask |].
      specialize (Hc eq_refl).
      destruct (uc <? _).
      * destruct (_ || _); [apply none_within_mask |].
        destruct (_ || _); [apply none_within_mask |].
        apply reflection_within_mask; [reflexivity | exact Hc].
      * destruct (SameHemisphere wo _); [apply none_within_mask |].
        destruct (_ || _); [apply none_within_mask |].
        apply transmission_within_mask; [reflexivity | exact Hc].
  - intro b. unfold ThinDielectric_Sample_f; cbv zeta.
    set (R0 := FrDielectric (CosTheta wo) (td_eta b)).
    destruct (R0 <? 1).
    + set (R := R0 + (1 - R0) * (1 - R0) * R0 / (1 - R0 * R0)).
      pose proof (masked_choice fl R (1 - R) H0 H1) as Hc. cbv zeta in Hc.
      destruct (_ && _); [apply none_within_mask |].
      specialize (Hc eq_refl).
      destruct (uc <? _).
      * apply reflection_within_mask; [reflexivity | exact Hc].
      * apply transmission_within_mask; [reflexivity | exact Hc].
    + pose proof (masked_choice fl R0 (1 - R0) H0 H1) as Hc. cbv zeta in Hc.
      destruct (_ && _); [apply none_within_mask |].
      specialize (Hc eq_refl).
      destruct (uc <? _).
      * apply reflection_within_mask; [reflexivity | exact Hc].
      * apply transmission_within_mask; [reflexivity | exact Hc].
Qed.

End LobeMask.

(** A thin dielectric asked for reflection only, with [uc = 1/2]. *)
Lemma Sample_f_within_mask_witness :
  within_mask
    (ThinDielectric_Sample_f (E := Run.E0) (mkThinDielectricBxDF (3 # 2))
       Run.straight_up (1 # 2) Run.centre Radiance
       BxDFReflTransFlags.Reflection)
    BxDFReflTransFlags.Reflection.
Proof.
  apply (@Sample_f_within_mask Run.E0 Run.straight_up (1 # 2) Run.centre
           Radiance BxDFReflTransFlags.Reflection).
  - discriminate.
  - reflexivity.
Defined.

(** ** The densities of the specular dielectrics *)

Section SpecularDensities.
Context {E : Externals}.

(** X2.  With both lobes allowed, the specular dielectric interface
    samples reflection with density [R], the Fresnel reflectance at [wo],
    and transmission with density [1 - R]; the value of the reflection is
    [R / |cos wi|] in every channel, so that [f |cos| / pdf] is one
    wherever [R] and the cosine are not zero. *)
Theorem DielectricInterface_specular_density (b : DielectricInterfaceBxDF)
    (wo : Vector3f) (uc : Float) (u : Point2f) (mode : TransportMode)
    (fl : Z) :
  mf_EffectivelySpecular (di_mfDistrib b) = true ->
  has_flag fl BxDFReflTransFlags.Reflection = true ->
  has_flag fl BxDFReflTransFlags.Transmission = true ->
  let R := FrDielectric (CosTheta wo) (di_eta b) in
  let s := DielectricInterface_Sample_f b wo uc u mode fl in
  bs_valid s = true ->
  (bs_IsReflection s = true ->
   bs_pdf s == R
   /\ bs_flags s = BxDFFlags.SpecularReflection
   /\ bs_wi s = mkVector3f (- x wo) (- y wo) (z wo)
   /\ bs_f s = SampledSpectrum (R / AbsCosTheta (bs_wi s)))
  /\ (bs_IsTransmission s = true ->
      bs_pdf s == 1 - R /\ bs_flags s = BxDFFlags.SpecularTransmission).
Proof.
  intros Hspec Hr Ht R s. subst s.
  unfold DielectricInterface_Sample_f; cbv zeta. rewrite Hspec, Hr, Ht.
  cbn [negb]. fold R.
  destruct (z wo =? 0); [intro H; discriminate H |].
  destruct (_ && _); [intro H; discriminate H |].
  assert (Hsum : R + (1 - R) == 1) by ring.
  destruct (uc <? _).
  - intros _. split.
    + intros _. cbn [BSDFSample_ctor bs_pdf bs_flags bs_wi bs_f].
      repeat split. rewrite Hsum. field.
    + intro H. discriminate H.
  - destruct (Refract _ _ _); [| intro H; discriminate H].
    intros _. split.
    + intro H. discriminate H.
    + intros _. cbn [BSDFSample_ctor bs_pdf bs_flags]. split; [| reflexivity].
      rewrite Hsum. field.
Qed.

(** X3.  The thin dielectric folds the bounces between its two faces into
    the reflectance: for a Fresnel reflectance [0 <= R < 1] it reflects
    with density [2R / (1 + R)] and transmits with density
    [(1 - R) / (1 + R)] when both lobes are allowed; the two densities
    lie in [0, 1] and add up to one. *)
Theorem ThinDielectric_density (b : ThinDielectricBxDF)
    (wo : Vector3f) (uc : Float) (u : Point2f) (mode : TransportMode)
    (fl : Z) :
  has_flag fl BxDFReflTransFlags.Reflection = true ->
  has_flag fl BxDFReflTransFlags.Transmission = true ->
  let R := FrDielectric (CosTheta wo) (td_eta b) in
  let s := ThinDielectric_Sample_f b wo uc u mode fl in
  0 <= R -> R < 1 ->
  bs_valid s = true
  /\ (bs_IsReflection s = true ->
      bs_pdf s == 2 * R / (1 + R) /\ bs_wi s = mkVector3f (- x wo) (- y wo) (z wo))
  /\ (bs_IsTransmission s = true ->
      bs_pdf s == (1 - R) / (1 + R) /\ bs_wi s = vneg wo)
  /\ 0 <= 2 * R / (1 + R) <= 1
  /\ 2 * R / (1 + R) + (1 - R) / (1 + R) == 1.
Proof.
  intros Hr Ht R s HR0 HR1. subst s.
  unfold ThinDielectric_Sample_f; cbv zeta. rewrite Hr, Ht. cbn [negb].
  fold R. apply Flt_true in HR1 as Hlt. rewrite Hlt.
  set (R' := R + (1 - R) * (1 - R) * R / (1 - R * R)).
  assert (Hden : ~ 1 - R * R == 0) by nra.
  assert (Hden' : ~ 1 + R == 0) by lra.
  assert (HR' : R' == 2 * R / (1 + R)).
  { subst R'. field. split; [lra | nra]. }
  assert (Hsum : R' + (1 - R') == 1) by ring.
  assert (Hclosed : 0 <= 2 * R / (1 + R) <= 1).
  { split.
    - apply Qle_shift_div_l; lra.
    - apply Qle_shift_div_r; lra. }
  assert (Hnz : (R' =? 0) && (1 - R' =? 0) = false).
  { apply andb_false_iff. destruct (R' =? 0) eqn:H0; [right | left; reflexivity].
    apply Feq_true in H0. apply Feq_false. lra. }
  rewrite Hnz.
  split; [destruct (uc <? _); reflexivity |].
  split; [| split; [| split; [exact Hclosed | field; exact Hden']]].
  - destruct (uc <? _); [| intro H; discriminate H].
    intros _. cbn [BSDFSample_ctor bs_pdf bs_wi]. split; [| reflexivity].
    rewrite Hsum, <- HR'. field.
  - destruct (uc <? _); [intro H; discriminate H |].
    intros _. cbn [BSDFSample_ctor bs_pdf bs_wi]. split; [| reflexivity].
    rewrite Hsum. rewrite HR'. field. exact Hden'.
Qed.

End SpecularDensities.

(** A smooth interface of index 1.5 seen along the normal, [uc = 0]: the
    reflection is chosen, with the Fresnel reflectance as its density. *)
Lemma DielectricInterface_specular_density_witness :
  bs_pdf (DielectricInterface_Sample_f (E := Run.E0)
            (DielectricInterfaceBxDF_ctor (E := Run.E0) (3 # 2) (0, 0))
            Run.straight_up 0 Run.centre Radiance BxDFReflTransFlags.All)
  == FrDielectric (Externals := Run.E0) (CosTheta Run.straight_up) (3 # 2).
Proof.
  apply (proj1 (@DielectricInterface_specular_density Run.E0
                  (DielectricInterfaceBxDF_ctor (E := Run.E0) (3 # 2) (0, 0))
                  Run.straight_up 0 Run.centre Radiance BxDFReflTransFlags.All
                  eq_refl eq_refl eq_refl eq_refl)).
  reflexivity.
Defined.

Lemma ThinDielectric_density_witness :
  bs_valid (ThinDielectric_Sample_f (E := Run.E0) (mkThinDielectricBxDF (3 # 2))
              Run.straight_up 0 Run.centre Radiance BxDFReflTransFlags.All)
  = true.
Proof.
  apply (@ThinDielectric_density Run.E0 (mkThinDielectricBxDF (3 # 2))
           Run.straight_up 0 Run.centre Radiance BxDFReflTransFlags.All
           eq_refl eq_refl).
  - vm_compute. discriminate.
  - reflexivity.
Defined.

(** ** The diffuse variants *)

Section Diffuse.
Context {E : Externals}.

(** X4.  The Oren-Nayar coefficients of a [DiffuseBxDF] built from a
    roughness [sigma]: whenever the squared angle is not negative, [A]
    lies in (1/2, 1] and [B] in [0, 0.45); a zero angle gives [A = 1] and
    [B = 0], the Lambertian case, in which [f] is [R / Pi] for directions
    in the same hemisphere and [T / Pi] otherwise. *)
Theorem DiffuseBxDF_ctor_coefficients (R T : Spectrum) (sigma : Float) :
  let sigma2 := Sqr (Radians sigma) in
  let b := DiffuseBxDF_ctor R T sigma in
  0 <= sigma2 ->
  df_R b = R /\ df_T b = T
  /\ 1 # 2 < df_A b <= 1
  /\ 0 <= df_B b < 45 # 100
  /\ (sigma2 == 0 ->
      df_A b == 1 /\ df_B b == 0
      /\ forall wo wi mode,
           Diffuse_f b wo wi mode
           = if SameHemisphere wo wi then sscale R InvPi else sscale T InvPi).
Proof.
  intros sigma2 b Hs. subst b. unfold DiffuseBxDF_ctor. fold sigma2.
  cbn [df_R df_T df_A df_B].
  assert (Hhalf : 0 <= sigma2 / (2 * (sigma2 + (33 # 100))) < 1 # 2).
  { split.
    - apply Qle_shift_div_l; lra.
    - apply Qlt_shift_div_r; lra. }
  assert (Hb : 0 <= sigma2 / (sigma2 + (9 # 100)) < 1).
  { split.
    - apply Qle_shift_div_l; lra.
    - apply Qlt_shift_div_r; lra. }
  assert (HB : (45 # 100) * sigma2 / (sigma2 + (9 # 100))
               == (45 # 100) * (sigma2 / (sigma2 + (9 # 100)))).
  { field. lra. }
  repeat split; try lra.
  - rewrite H. field.
  - rewrite H. field.
  - intros wo wi mode. unfold Diffuse_f. cbn [df_R df_T df_A df_B].
    assert (Hz : ((45 # 100) * sigma2 / (sigma2 + (9 # 100)) =? 0) = true).
    { apply Feq_true. rewrite H. field. }
    rewrite Hz. reflexivity.
Qed.

(** X5.  [DiffuseBxDF::PDF] splits the cosine density between the two
    hemispheres in proportion to the largest channels of [R] and [T]: for
    two directions of equal |cos|, one on the side of [wo] and one on the
    other, the two densities add up to the cosine density
    [|cos| / Pi], provided the two weights do not cancel. *)
Theorem Diffuse_PDF_hemispheres (b : DiffuseBxDF) (wo wi wi' : Vector3f)
    (mode : TransportMode) :
  let pr := MaxComponentValue (df_R b) in
  let pt := MaxComponentValue (df_T b) in
  ~ pr + pt == 0 ->
  SameHemisphere wo wi = true ->
  SameHemisphere wo wi' = false ->
  AbsCosTheta wi' == AbsCosTheta wi ->
  Diffuse_PDF b wo wi mode BxDFReflTransFlags.All
  + Diffuse_PDF b wo wi' mode BxDFReflTransFlags.All
  == AbsCosTheta wi * InvPi.
Proof.
  intros pr pt Hsum Hsame Hopp Hcos.
  unfold Diffuse_PDF; cbv zeta. cbn [has_flag negb]. fold pr. fold pt.
  change (has_flag BxDFReflTransFlags.All BxDFReflTransFlags.Reflection)
    with true.
  change (has_flag BxDFReflTransFlags.All BxDFReflTransFlags.Transmission)
    with true.
  cbn [negb]. rewrite Hsame, Hopp.
  destruct ((pr =? 0) && (pt =? 0)) eqn:Hz.
  - apply andb_true_iff in Hz. destruct Hz as [Hr Ht].
    apply Feq_true in Hr. apply Feq_true in Ht. exfalso. apply Hsum. lra.
  - rewrite Hcos. field. exact Hsum.
Qed.

End Diffuse.

(** A rough diffuse surface, and a white reflector over a grey
    transmitter seen from above. *)
Lemma DiffuseBxDF_ctor_coefficients_witness :
  1 # 2 < df_A (DiffuseBxDF_ctor (E := Run.E0) Run.white Run.black 20) <= 1.
Proof.
  apply (@DiffuseBxDF_ctor_coefficients Run.E0 Run.white Run.black 20).
  vm_compute. discriminate.
Defined.

Lemma Diffuse_PDF_hemispheres_witness :
  Diffuse_PDF (E := Run.E0) (mkDiffuseBxDF Run.white Run.grey 1 0)
              Run.straight_up Run.straight_up Radiance BxDFReflTransFlags.All
  + Diffuse_PDF (E := Run.E0) (mkDiffuseBxDF Run.white Run.grey 1 0)
                Run.straight_up (vneg Run.straight_up) Radiance
                BxDFReflTransFlags.All
  == AbsCosTheta (Externals := Run.E0) Run.straight_up
     * InvPi (Externals := Run.E0).
Proof.
  apply (@Diffuse_PDF_hemispheres Run.E0 (mkDiffuseBxDF Run.white Run.grey 1 0)
           Run.straight_up Run.straight_up (vneg Run.straight_up) Radiance).
  - intro H. discriminate H.
  - reflexivity.
  - reflexivity.
  - reflexivity.
Defined.

(** ** Sampling agrees with evaluation *)

Section SamplingConsistency.
Context {E : Externals}.

(** Two directions lie in the same hemisphere when their [z] components
    have the same sign. *)
Hypothesis SameHemisphere_sign :
  forall w w', SameHemisphere w w' = (z w * z w' >? 0).

Lemma cosine_sample_other_side (wo c : Vector3f) :
  ~ z wo == 0 -> 0 < z c ->
  let wi := if z wo >? 0 then flip_z c else c in
  SameHemisphere wo wi = false.
Proof.
  intros Hwo Hc. cbv zeta. rewrite SameHemisphere_sign.
  destruct (z wo >? 0) eqn:Hpos.
  - apply Flt_true in Hpos. cbn [flip_z z]. apply Flt_false. nra.
  - apply Flt_false in Hpos. apply Flt_false.
    assert (z wo < 0) by lra. nra.
Qed.

(** X6.  What the diffuse variants sample is what they evaluate: for [wo]
    off the horizon and a cosine-sampled direction above it, a valid
    sample of [IdealDiffuseBxDF] or [BSSRDFAdapter] lies in the hemisphere
    of [wo], carries [f(wo, wi)] as its value and [PDF(wo, wi)] as its
    density; a valid sample of [DiffuseBxDF] does too, on the side of
    [wo] for a reflection and on the other side for a transmission, when
    [SampleDiscrete] reports the probability of the lobe it picks. *)
Theorem diffuse_sample_matches_PDF (wo : Vector3f) (uc : Float) (u : Point2f)
    (mode : TransportMode) (fl : Z) :
  ~ z wo == 0 ->
  0 < z (SampleCosineHemisphere u) ->
  (forall b : IdealDiffuseBxDF,
     let s := IdealDiffuse_Sample_f b wo uc u mode fl in
     bs_valid s = true ->
     SameHemisphere wo (bs_wi s) = true
     /\ bs_f s = IdealDiffuse_f b wo (bs_wi s) mode
     /\ bs_pdf s = IdealDiffuse_PDF b wo (bs_wi s) mode fl)
  /\ (forall b : BSSRDFAdapter,
        let s := BSSRDFAdapter_Sample_f b wo uc u mode fl in
        bs_valid s = true ->
        SameHemisphere wo (bs_wi s) = true
        /\ bs_f s = BSSRDFAdapter_f b wo (bs_wi s) mode
        /\ bs_pdf s = BSSRDFAdapter_PDF b wo (bs_wi s) mode fl
        /\ bs_pdf s = AbsCosTheta (bs_wi s) * InvPi)
  /\ (forall b : DiffuseBxDF,
        let pr := if negb (has_flag fl BxDFReflTransFlags.Reflection)
                  then 0 else MaxComponentValue (df_R b) in
        let pt := if negb (has_flag fl BxDFReflTransFlags.Transmission)
                  then 0 else MaxComponentValue (df_T b) in
        let idx := fst (SampleDiscrete [pr; pt] uc) in
        let cpdf := snd (SampleDiscrete [pr; pt] uc) in
        cpdf == (if Z.eqb idx 0 then pr else pt) / (pr + pt) ->
        let s := Diffuse_Sample_f b wo uc u mode fl in
        bs_valid s = true ->
        SameHemisphere wo (bs_wi s) = Z.eqb idx 0
        /\ bs_IsReflection s = Z.eqb idx 0
        /\ bs_f s = Diffuse_f b wo (bs_wi s) mode
        /\ bs_pdf s == Diffuse_PDF b wo (bs_wi s) mode fl).
Proof.
  intros Hwo Hc.
  destruct (cosine_sample_same_side SameHemisphere_sign wo
              (SampleCosineHemisphere u) Hwo Hc) as [Hside _].
  pose proof (cosine_sample_other_side wo (SampleCosineHemisphere u) Hwo Hc)
    as Hother.
  cbv zeta in Hside, Hother.
  repeat apply conj.
  - intros b. cbv zeta. unfold IdealDiffuse_Sample_f.
    destruct (has_flag fl BxDFReflTransFlags.Reflection) eqn:Hr; cbn [negb];
      [| intro H; discriminate H].
    intros _. cbn [BSDFSample_ctor bs_wi bs_f bs_pdf].
    unfold IdealDiffuse_PDF. rewrite Hr, Hside. cbn [negb].
    repeat split.
  - intros b. cbv zeta. unfold BSSRDFAdapter_Sample_f.
    destruct (has_flag fl BxDFReflTransFlags.Reflection) eqn:Hr; cbn [negb];
      [| intro H; discriminate H].
    intros _. cbn [BSDFSample_ctor bs_wi bs_f bs_pdf].
    unfold BSSRDFAdapter_PDF. rewrite Hr, Hside. cbn [negb].
    repeat split.
  - intros b. cbv zeta. intros Hlaw.
    unfold Diffuse_Sample_f, Diffuse_PDF; cbv zeta.
    set (pr := if negb (has_flag fl BxDFReflTransFlags.Reflection)
               then 0 else MaxComponentValue (df_R b)) in *.
    set (pt := if negb (has_flag fl BxDFReflTransFlags.Transmission)
               then 0 else MaxComponentValue (df_T b)) in *.
    destruct ((pr =? 0) && (pt =? 0)); [intro H; discriminate H |].
    destruct (SampleDiscrete [pr; pt] uc) as [idx cpdf].
    change (cpdf == (if Z.eqb idx 0 then pr else pt) / (pr + pt)) in Hlaw.
    change (fst (idx, cpdf)) with idx.
    destruct (Z.eqb idx 0).
    + intros _. cbn [BSDFSample_ctor bs_wi bs_f bs_pdf bs_flags].
      rewrite Hside. split; [reflexivity |]. split; [reflexivity |].
      split; [reflexivity |]. rewrite Hlaw. unfold Qdiv. ring.
    + intros _. cbn [BSDFSample_ctor bs_wi bs_f bs_pdf bs_flags].
      rewrite Hother. split; [reflexivity |]. split; [reflexivity |].
      split; [reflexivity |]. rewrite Hlaw. unfold Qdiv. ring.
Qed.

End SamplingConsistency.

(** A grey reflector sampled along the normal. *)
Lemma diffuse_sample_matches_PDF_witness :
  let s := IdealDiffuse_Sample_f (E := Run.E0) (mkIdealDiffuseBxDF Run.grey)
             Run.straight_up 0 Run.centre Radiance BxDFReflTransFlags.All in
  bs_pdf s = IdealDiffuse_PDF (E := Run.E0) (mkIdealDiffuseBxDF Run.grey)
               Run.straight_up (bs_wi s) Radiance BxDFReflTransFlags.All.
Proof.
  apply (@diffuse_sample_matches_PDF Run.E0 (fun w w' => eq_refl)
           Run.straight_up 0 Run.centre Radiance BxDFReflTransFlags.All).
  - intro H. discriminate H.
  - reflexivity.
  - reflexivity.
Defined.

(** ** The lobe of a sample and the flags of its distribution *)

Section SampleFlags.
Context {E : Externals}.

(** X7.  A valid sample carries a lobe its distribution declares: the
    flags of a valid sample of the conductor, the dielectric interface,
    the thin dielectric or the subsurface adapter are among [Flags()],
    and the sample of a conductor or dielectric interface is flagged
    specular exactly when the microfacet distribution is effectively
    specular (the specular returns inside the rough paths of
    [DielectricInterfaceBxDF::Sample_f] are never taken).  For the ideal
    diffuse reflector this needs a reflectance that is not black. *)
Theorem sample_flags_declared (wo : Vector3f) (uc : Float) (u : Point2f)
    (mode : TransportMode) (fl : Z) :
  (forall b : ConductorBxDF,
     let s := Conductor_Sample_f b wo uc u mode fl in
     bs_valid s = true ->
     lobe_of (bs_flags s) (Conductor_Flags b)
     /\ IsSpecular (bs_flags s) = mf_EffectivelySpecular (cd_mfDistrib b))
  /\ (forall b : DielectricInterfaceBxDF,
        let s := DielectricInterface_Sample_f b wo uc u mode fl in
        bs_valid s = true ->
        lobe_of (bs_flags s) (DielectricInterface_Flags b)
        /\ IsSpecular (bs_flags s)
           = mf_EffectivelySpecular (di_mfDistrib b))
  /\ (forall b : ThinDielectricBxDF,
        let s := ThinDielectric_Sample_f b wo uc u mode fl in
        bs_valid s = true ->
        lobe_of (bs_flags s) (ThinDielectric_Flags b)
        /\ IsSpecular (bs_flags s) = true)
  /\ (forall b : BSSRDFAdapter,
        let s := BSSRDFAdapter_Sample_f b wo uc u mode fl in
        bs_valid s = true ->
        lobe_of (bs_flags s) (BSSRDFAdapter_Flags b))
  /\ (forall b : IdealDiffuseBxDF,
        snonzero (id_R b) = true ->
        let s := IdealDiffuse_Sample_f b wo uc u mode fl in
        bs_valid s = true ->
        lobe_of (bs_flags s) (IdealDiffuse_Flags b)).
Proof.
  repeat apply conj.
  - intros b. cbv zeta. unfold Conductor_Sample_f, Conductor_Flags; cbv zeta.
    destruct (negb _); [intro H; discriminate H |].
    destruct (mf_EffectivelySpecular (cd_mfDistrib b)).
    + intros _. split; reflexivity.
    + destruct (z wo =? 0); [intro H; discriminate H |].
      destruct (_ || _); [intro H; discriminate H |].
      destruct (_ || _); [intro H; discriminate H |].
      intros _. split; reflexivity.
  - intros b. cbv zeta.
    unfold DielectricInterface_Sample_f, DielectricInterface_Flags; cbv zeta.
    destruct (z wo =? 0); [intro H; discriminate H |].
    destruct (mf_EffectivelySpecular (di_mfDistrib b)).
    + destruct (_ && _); [intro H; discriminate H |].
      destruct (uc <? _).
      * intros _. split; reflexivity.
      * destruct (Refract _ _ _); [| intro H; discriminate H].
        intros _. split; reflexivity.
    + destruct (_ && _); [intro H; discriminate H |].
      destruct (uc <? _).
      * destruct (_ || _); [intro H; discriminate H |].
        destruct (_ || _); [intro H; discriminate H |].
        intros _. split; reflexivity.
      * destruct (SameHemisphere wo _); [intro H; discriminate H |].
        destruct (_ || _); [intro H; discriminate H |].
        intros _. split; reflexivity.
  - intros b. cbv zeta. unfold ThinDielectric_Sample_f, ThinDielectric_Flags.
    cbv zeta. destruct (_ <? 1).
    + destruct (_ && _); [intro H; discriminate H |].
      destruct (uc <? _); intros _; split; reflexivity.
    + destruct (_ && _); [intro H; discriminate H |].
      destruct (uc <? _); intros _; split; reflexivity.
  - intros b. cbv zeta. unfold BSSRDFAdapter_Sample_f, BSSRDFAdapter_Flags.
    destruct (negb _); [intro H; discriminate H |].
    intros _. reflexivity.
  - intros b HR. cbv zeta. unfold IdealDiffuse_Sample_f, IdealDiffuse_Flags.
    rewrite HR.
    destruct (negb _); [intro H; discriminate H |].
    intros _. reflexivity.
Qed.

End SampleFlags.

(** A smooth dielectric interface sampled along the normal: the sample is
    flagged specular. *)
Lemma sample_flags_declared_witness :
  IsSpecular
    (bs_flags (DielectricInterface_Sample_f (E := Run.E0)
                 (DielectricInterfaceBxDF_ctor (E := Run.E0) (3 # 2) (0, 0))
                 Run.straight_up 0 Run.centre Radiance
                 BxDFReflTransFlags.All))
  = true.
Proof.
  destruct (@sample_flags_declared Run.E0 Run.straight_up 0 Run.centre
              Radiance BxDFReflTransFlags.All) as [_ [Hd _]].
  destruct (Hd (DielectricInterfaceBxDF_ctor (E := Run.E0) (3 # 2) (0, 0))
               eq_refl) as [_ Hs].
  exact Hs.
Defined.

(** ** The layered composite *)

Section LayeredProps.
Context {E : Externals}.
Context {TopBxDF BottomBxDF : Type}.
Context {TopOps : BxDF TopBxDF} {BottomOps : BxDF BottomBxDF}.
Variable SupportAttenuation : bool.

(** X8.  [LayeredBxDF::Flags]: the check fails exactly when neither
    interface transmits.  Otherwise the composite always reflects; it
    transmits exactly when both interfaces do; it is specular exactly when
    the top is; it is diffuse exactly when an interface is diffuse or the
    medium scatters, and glossy exactly when it is not diffuse and an
    interface is glossy, so never both. *)
Theorem Layered_Flags_spec (l : @LayeredBxDF TopBxDF BottomBxDF) :
  let t := Flags (top l) in
  let b := Flags (bottom l) in
  (Layered_Flags l = None
   <-> IsTransmissive t = false /\ IsTransmissive b = false)
  /\ forall fl,
       Layered_Flags l = Some fl ->
       IsReflective fl = true
       /\ IsTransmissive fl = IsTransmissive t && IsTransmissive b
       /\ IsSpecular fl = IsSpecular t
       /\ IsDiffuse fl = (IsDiffuse t || IsDiffuse b || snonzero (albedo l))
       /\ IsGlossy fl
          = negb (IsDiffuse t || IsDiffuse b || snonzero (albedo l))
            && (IsGlossy t || IsGlossy b)
       /\ IsDiffuse fl && IsGlossy fl = false.
Proof.
  intros t b. unfold Layered_Flags; cbv zeta. fold t. fold b. split.
  - destruct (IsTransmissive t), (IsTransmissive b); cbn;
      split; try tauto; try discriminate; intros [H1 H2]; discriminate.
  - intros fl.
    destruct (negb (IsTransmissive t || IsTransmissive b)) eqn:Hcheck;
      [intro H; discriminate H |].
    intro H. injection H as <-.
    unfold IsReflective, IsTransmissive, IsSpecular, IsDiffuse, IsGlossy in *.
    destruct (has_flag t BxDFFlags.Specular);
      destruct (has_flag t BxDFFlags.Diffuse || has_flag b BxDFFlags.Diffuse
                || snonzero (albedo l));
      destruct (has_flag t BxDFFlags.Glossy || has_flag b BxDFFlags.Glossy);
      destruct (has_flag t BxDFFlags.Transmission);
      destruct (has_flag b BxDFFlags.Transmission);
      repeat split; reflexivity.
Qed.

Lemma flip_below (l : @LayeredBxDF TopBxDF BottomBxDF) (wo wi : Vector3f) :
  twoSided (config l) = true -> z wo < 0 ->
  two_sided_flip l wo wi = (vneg wo, vneg wi)
  /\ two_sided_flip l (vneg wo) (vneg wi) = (vneg wo, vneg wi).
Proof.
  intros Hts Hz. unfold two_sided_flip. rewrite Hts. cbn [andb].
  apply Flt_true in Hz as Hlt. rewrite Hlt. split; [reflexivity |].
  assert (Hup : (z (vneg wo) <? 0) = false).
  { apply Flt_false. cbn [vneg z]. lra. }
  rewrite Hup. reflexivity.
Qed.

(** X9.  The two-sided convention: a two-sided composite queried with [wo]
    below the surface gives, for [f] and for [PDF], what it gives for the
    two directions mirrored through the origin. *)
Theorem Layered_two_sided (l : @LayeredBxDF TopBxDF BottomBxDF)
    (opts : Options) (wo wi : Vector3f) (mode : TransportMode)
    (sampleFlags : Z) :
  twoSided (config l) = true ->
  z wo < 0 ->
  Layered_f SupportAttenuation opts l wo wi mode
  = Layered_f SupportAttenuation opts l (vneg wo) (vneg wi) mode
  /\ Layered_PDF opts l wo wi mode sampleFlags
     = Layered_PDF opts l (vneg wo) (vneg wi) mode sampleFlags.
Proof.
  intros Hts Hz. destruct (flip_below l wo wi Hts Hz) as [H1 H2].
  unfold Layered_f, Layered_PDF. rewrite H1, H2. split; reflexivity.
Qed.

End LayeredProps.

(** Case analysis over the draws and the tests of a walk. *)
Ltac split_walk :=
  repeat match goal with
         | |- context [let '(_, _) := ?c in _] => destruct c
         | |- context [if ?c then _ else _] => destruct c
         | |- context [match ?c with Some _ => _ | None => _ end] => destruct c
         end.

Section LayeredSampling.
Context {E : Externals}.
Context {TopBxDF BottomBxDF : Type}.
Context {TopOps : BxDF TopBxDF} {BottomOps : BxDF BottomBxDF}.
Variable SupportAttenuation : bool.
Variable l : @LayeredBxDF TopBxDF BottomBxDF.

Lemma Sample_f_event_mirror (wo : Vector3f) (mode : TransportMode)
    (st : SampleState) (rng : RNG) :
  Sample_f_event SupportAttenuation l wo mode true st rng
  = (mirror_ctl (fst (Sample_f_event SupportAttenuation l wo mode false st rng)),
     snd (Sample_f_event SupportAttenuation l wo mode false st rng)).
Proof.
  unfold Sample_f_event, r2, bind, ret. split_walk; reflexivity.
Qed.

Lemma Sample_f_step_mirror (wo : Vector3f) (mode : TransportMode)
    (depth : nat) (st : SampleState) (rng : RNG) :
  Sample_f_step SupportAttenuation l wo mode true depth st rng
  = (mirror_ctl (fst (Sample_f_step SupportAttenuation l wo mode false
                                    depth st rng)),
     snd (Sample_f_step SupportAttenuation l wo mode false depth st rng)).
Proof.
  unfold Sample_f_step, bind.
  destruct (Sample_f_roulette depth (ss_f st) (ss_pdf st) rng) as [[pdf |] rng'].
  - apply Sample_f_event_mirror.
  - reflexivity.
Qed.

Lemma Sample_f_walk_mirror (wo : Vector3f) (mode : TransportMode) (n : nat) :
  forall (depth : nat) (st : SampleState) (rng : RNG),
    fst (Sample_f_walk SupportAttenuation l wo mode true n depth st rng)
    = mirror_wi
        (fst (Sample_f_walk SupportAttenuation l wo mode false n depth st rng)).
Proof.
  induction n as [| n IH]; intros depth st rng; cbn [Sample_f_walk].
  - reflexivity.
  - unfold bind. rewrite Sample_f_step_mirror.
    destruct (Sample_f_step SupportAttenuation l wo mode false depth st rng)
      as [[s | st'] rng']; cbn [fst snd mirror_ctl ret].
    + reflexivity.
    + apply IH.
Qed.

(** X10.  [Sample_f] follows the two-sided convention too: with [wo] below
    the surface of a two-sided composite, the sample is the one drawn for
    the mirrored [wo], from the same stream, with its direction mirrored
    back. *)
Theorem Layered_Sample_f_two_sided (opts : Options) (wo : Vector3f)
    (uc : Float) (u : Point2f) (mode : TransportMode) (sampleFlags : Z) :
  twoSided (config l) = true ->
  z wo < 0 ->
  Layered_Sample_f SupportAttenuation opts l wo uc u mode sampleFlags
  = option_map mirror_wi
      (Layered_Sample_f SupportAttenuation opts l (vneg wo) uc u mode
                        sampleFlags).
Proof.
  intros Hts Hz. unfold Layered_Sample_f. rewrite Hts. cbn [andb].
  destruct (negb (Z.eqb sampleFlags BxDFReflTransFlags.All)); [reflexivity |].
  apply Flt_true in Hz as Hlt. rewrite Hlt.
  assert (Hup : (z (vneg wo) <? 0) = false).
  { apply Flt_false. cbn [vneg z]. lra. }
  rewrite Hup. cbn [option_map].
  set (bs := if z (vneg wo) >? 0
             then Sample_f (top l) (vneg wo) uc u mode BxDFReflTransFlags.All
             else Sample_f (bottom l) (vneg wo) uc u mode
                           BxDFReflTransFlags.All).
  destruct (bs_valid bs) eqn:Hv; cbn [negb]; [| reflexivity].
  destruct (bs_IsReflection bs); cbn [option_map].
  - unfold mirror_wi. rewrite Hv. reflexivity.
  - rewrite Sample_f_walk_mirror. reflexivity.
Qed.

End LayeredSampling.

Section LayeredExit.
Context {E : Externals}.
Context {TopBxDF BottomBxDF : Type}.
Context {TopOps : BxDF TopBxDF} {BottomOps : BxDF BottomBxDF}.
Variable SupportAttenuation : bool.
Variable l : @LayeredBxDF TopBxDF BottomBxDF.

Lemma Sample_f_event_classified (wo : Vector3f) (mode : TransportMode)
    (flipWi : bool) (st : SampleState) (rng : RNG) (s : BSDFSample) :
  fst (Sample_f_event SupportAttenuation l wo mode flipWi st rng) = Return s ->
  bs_valid s = true -> classified wo flipWi s.
Proof.
  unfold Sample_f_event, r2, bind, ret.
  repeat match goal with
         | |- context [let '(_, _) := ?c in _] => destruct c
         | |- context [if ?c then _ else _] => destruct c eqn:?
         end;
    cbn [fst]; intro H; try discriminate H; injection H as <-; intro Hv;
    try discriminate Hv;
    match goal with
    | |- classified _ true (BSDFSample_ctor _ (vneg ?w) _ _) => exists w
    | |- classified _ false (BSDFSample_ctor _ ?w _ _) => exists w
    end;
    (split; [reflexivity |]);
    cbn [bs_flags BSDFSample_ctor]; unfold tb_Sample_f in *;
    match goal with
    | Hs : SameHemisphere _ _ = _ |- _ => rewrite Hs; reflexivity
    end.
Qed.

Lemma Sample_f_walk_classified (wo : Vector3f) (mode : TransportMode)
    (flipWi : bool) (n : nat) :
  forall (depth : nat) (st : SampleState) (rng : RNG),
    bs_valid (fst (Sample_f_walk SupportAttenuation l wo mode flipWi n depth
                                 st rng)) = true ->
    classified wo flipWi
      (fst (Sample_f_walk SupportAttenuation l wo mode flipWi n depth st rng)).
Proof.
  induction n as [| n IH]; intros depth st rng; cbn [Sample_f_walk].
  - intro H. discriminate H.
  - unfold bind.
    destruct (Sample_f_step SupportAttenuation l wo mode flipWi depth st rng)
      as [[s | st'] rng'] eqn:Hstep; cbn [fst ret].
    + intro Hv. unfold Sample_f_step, bind in Hstep.
      destruct (Sample_f_roulette depth (ss_f st) (ss_pdf st) rng)
        as [[pdf |] rng1].
      * apply (@Sample_f_event_classified wo mode flipWi
                 (mkSampleState (ss_f st) pdf (ss_w st) (ss_z st)) rng1);
          [rewrite Hstep; reflexivity | exact Hv].
      * injection Hstep as <- _. discriminate Hv.
    + apply IH.
Qed.

(** X11.  What a valid sample of the composite is: either the reflection
    sampled at the entrance interface (its direction mirrored back when
    [wo] was mirrored), or a path that left the layers, flagged glossy
    reflection when it leaves on the side of [wo] and glossy transmission
    otherwise. *)
Theorem Layered_Sample_f_lobe (opts : Options) (wo : Vector3f)
    (uc : Float) (u : Point2f) (mode : TransportMode) (sampleFlags : Z)
    (s : BSDFSample) :
  Layered_Sample_f SupportAttenuation opts l wo uc u mode sampleFlags = Some s ->
  bs_valid s = true ->
  let flipWi := twoSided (config l) && (z wo <? 0) in
  let wo' := if flipWi then vneg wo else wo in
  let bs := if z wo' >? 0
            then Sample_f (top l) wo' uc u mode BxDFReflTransFlags.All
            else Sample_f (bottom l) wo' uc u mode BxDFReflTransFlags.All in
  sampleFlags = BxDFReflTransFlags.All
  /\ bs_valid bs = true
  /\ ((bs_IsReflection bs = true
       /\ s = if flipWi then mirror_wi bs else bs)
      \/ (bs_IsReflection bs = false /\ classified wo' flipWi s)).
Proof.
  unfold Layered_Sample_f.
  destruct (Z.eqb_spec sampleFlags BxDFReflTransFlags.All) as [Hfl | Hfl];
    cbn [negb]; [| intro H; discriminate H].
  destruct (twoSided (config l) && (z wo <? 0)); cbv zeta.
  - set (bs := if z (vneg wo) >? 0 then _ else _).
    destruct (bs_valid bs) eqn:Hv; cbn [negb].
    + destruct (bs_IsReflection bs).
      * intro H. injection H as <-. intros _.
        split; [exact Hfl |]. split; [reflexivity |]. left.
        split; [reflexivity |]. unfold mirror_wi. rewrite Hv. reflexivity.
      * intro H. injection H as <-. intro Hs.
        split; [exact Hfl |]. split; [reflexivity |]. right.
        split; [reflexivity |].
        apply Sample_f_walk_classified. exact Hs.
    + intro H. injection H as <-. intro Hs. discriminate Hs.
  - set (bs := if z wo >? 0 then _ else _).
    destruct (bs_valid bs) eqn:Hv; cbn [negb].
    + destruct (bs_IsReflection bs).
      * intro H. injection H as <-. intros _.
        split; [exact Hfl |]. split; [reflexivity |]. left.
        split; reflexivity.
      * intro H. injection H as <-. intro Hs.
        split; [exact Hfl |]. split; [reflexivity |]. right.
        split; [reflexivity |].
        apply Sample_f_walk_classified. exact Hs.
    + intro H. injection H as <-. intro Hs. discriminate Hs.
Qed.

End LayeredExit.

(** ** When nothing crosses the entrance interface *)

Lemma same_spectrum_refl (a : Spectrum) : same_spectrum a a.
Proof. induction a; constructor; [reflexivity | assumption]. Qed.

Lemma sdiv_sscale (a : Spectrum) (n : Float) :
  ~ n == 0 -> same_spectrum (sdiv (sscale a n) n) a.
Proof.
  intro Hn. induction a as [| c a IH]; cbn; constructor.
  - field. exact Hn.
  - exact IH.
Qed.

Lemma sdiv_zero (k : nat) (n : Float) :
  same_spectrum (sdiv (repeat 0 k) n) (repeat 0 k).
Proof.
  induction k as [| k IH]; cbn; constructor.
  - unfold Qdiv. ring.
  - exact IH.
Qed.

Section LayeredDirect.
Context {E : Externals}.
Context {TopBxDF BottomBxDF : Type}.
Context {TopOps : BxDF TopBxDF} {BottomOps : BxDF BottomBxDF}.
Variable SupportAttenuation : bool.
Variable l : @LayeredBxDF TopBxDF BottomBxDF.

Lemma f_samples_unchanged (body : Spectrum -> Rand Spectrum) (n : nat) :
  (forall facc rng, fst (body facc rng) = facc) ->
  forall facc rng, fst (f_samples n body facc rng) = facc.
Proof.
  intro Hbody. induction n as [| n IH]; intros facc rng; cbn [f_samples].
  - reflexivity.
  - unfold bind. specialize (Hbody facc rng).
    destruct (body facc rng) as [facc' rng']. cbn [fst] in Hbody. subst facc'.
    apply IH.
Qed.

(** X12.  The random walk of [f] only ever adds to the reflection at the
    entrance interface.  When the walk cannot start (no bounce is allowed,
    or the entrance interface never yields a valid transmission sample,
    as an opaque top layer does), [f] is, channel by channel, the [f] of
    the entrance interface for directions in the same hemisphere and zero
    otherwise. *)
Theorem Layered_f_direct_only (opts : Options) (wo wi : Vector3f)
    (mode : TransportMode) :
  (0 < nSamples (config l))%nat ->
  let wo' := fst (two_sided_flip l wo wi) in
  let wi' := snd (two_sided_flip l wo wi) in
  let enterInterface :=
    if z wo' >? 0 then tb_top (top l) else tb_bottom (bottom l) in
  (maxDepth (config l) = 0%nat
   \/ forall uc u,
        bs_valid (tb_Sample_f enterInterface wo' uc u mode
                              BxDFReflTransFlags.Transmission) = false) ->
  same_spectrum
    (Layered_f SupportAttenuation opts l wo wi mode)
    (if SameHemisphere wo' wi' then tb_f enterInterface wo' wi' mode
     else SampledSpectrum 0).
Proof.
  intros Hn wo' wi' enterInterface Hclosed.
  unfold Layered_f. subst wo' wi'.
  destruct (two_sided_flip l wo wi) as [a b]. cbn [fst snd] in *.
  unfold f_from. fold enterInterface.
  rewrite f_samples_unchanged.
  - assert (Hcount : ~ of_count (nSamples (config l)) == 0).
    { pose proof (of_count_positive Hn). lra. }
    destruct (SameHemisphere a b).
    + apply sdiv_sscale. exact Hcount.
    + apply sdiv_zero.
  - intros facc rng. unfold f_sample, r2, bind, ret.
    destruct Hclosed as [Hdepth | Hopaque].
    + rewrite Hdepth. cbn [f_walk]. unfold ret. split_walk; reflexivity.
    + destruct (r rng) as [uc rng1]. destruct (r rng1) as [u1 rng2].
      destruct (r rng2) as [u2 rng3].
      rewrite (Hopaque uc (mkPoint2f u1 u2)). reflexivity.
Qed.

(** X13.  The transmittance through the slab is a fraction: when [exp]
    maps the non-positive numbers into (0, 1], [Tr] lies in [0, 1]; it is
    positive for a direction off the surface plane, 0 for a direction in it
    once the depth exceeds the smallest positive float, and 1 up to that
    depth; it does not depend on the sign of the depth. *)
Theorem Tr_bounds (dz : Float) (w : Vector3f) :
  (forall v, v <= 0 -> 0 < std_exp v <= 1) ->
  0 <= AbsCosTheta w ->
  0 <= Tr dz w <= 1
  /\ (0 < AbsCosTheta w -> 0 < Tr dz w)
  /\ (AbsCosTheta w == 0 -> FloatMin < std_abs dz -> Tr dz w = 0)
  /\ (std_abs dz <= FloatMin -> Tr dz w = 1)
  /\ Tr (- dz) w = Tr dz w.
Proof.
  intros Hexp Hcos.
  assert (Hin : 0 < AbsCosTheta w ->
                0 < std_exp (- std_abs dz / AbsCosTheta w) <= 1).
  { intro Hpos. apply Hexp.
    pose proof (Qabs_nonneg dz) as Ha. fold (std_abs dz) in Ha.
    apply Qle_shift_div_r; [exact Hpos | lra]. }
  repeat apply conj.
  - unfold Tr. destruct (std_abs dz <=? FloatMin); [lra |].
    destruct (AbsCosTheta w =? 0) eqn:Hz; [lra |].
    apply Feq_false in Hz. assert (Hpos : 0 < AbsCosTheta w) by lra.
    destruct (Hin Hpos). lra.
  - unfold Tr. destruct (std_abs dz <=? FloatMin); [lra |].
    destruct (AbsCosTheta w =? 0) eqn:Hz; [lra |].
    apply Feq_false in Hz. assert (Hpos : 0 < AbsCosTheta w) by lra.
    destruct (Hin Hpos). lra.
  - intro Hpos. unfold Tr. destruct (std_abs dz <=? FloatMin); [lra |].
    destruct (AbsCosTheta w =? 0) eqn:Hz.
    + apply Feq_true in Hz. lra.
    + apply Hin. exact Hpos.
  - intros Hz Hdeep. unfold Tr.
    destruct (std_abs dz <=? FloatMin) eqn:Hthin.
    + unfold Fle in Hthin. apply Qle_bool_iff in Hthin. lra.
    + apply Feq_true in Hz. rewrite Hz. reflexivity.
  - intro H. unfold Tr. unfold Fle.
    apply Qle_bool_iff in H. rewrite H. reflexivity.
  - assert (Habs : std_abs (- dz) = std_abs dz).
    { unfold std_abs. destruct dz as [n d]. cbn. rewrite Z.abs_opp.
      reflexivity. }
    unfold Tr. rewrite Habs. reflexivity.
Qed.

End LayeredDirect.

(** The coating on a diffuse base reflects, is specular and diffuse, and
    does not transmit; seen from below, a two-sided pair of diffuse layers
    behaves as seen from above; an opaque conductor on top leaves its own
    reflection only. *)
Lemma Layered_Flags_spec_witness :
  exists fl, Layered_Flags Run.coated = Some fl /\ IsTransmissive fl = false.
Proof.
  destruct (@Layered_Flags_spec _ _ _ _ Run.coated) as [_ H].
  eexists. split; [reflexivity |].
  destruct (H _ eq_refl) as [_ [Ht _]]. exact Ht.
Defined.

Lemma Layered_two_sided_witness :
  Layered_f false Run.options_a Run.diffuse_pair
            Run.straight_down Run.straight_down Radiance
  = Layered_f false Run.options_a Run.diffuse_pair
              (vneg Run.straight_down) (vneg Run.straight_down) Radiance.
Proof.
  apply (@Layered_two_sided Run.E0 _ _ _ _ false Run.diffuse_pair
           Run.options_a Run.straight_down Run.straight_down Radiance
           BxDFReflTransFlags.All); reflexivity.
Defined.

Lemma Layered_Sample_f_two_sided_witness :
  Layered_Sample_f false Run.options_a Run.diffuse_pair Run.straight_down
                   0 Run.centre Radiance BxDFReflTransFlags.All
  = option_map mirror_wi
      (Layered_Sample_f false Run.options_a Run.diffuse_pair
                        (vneg Run.straight_down) 0 Run.centre Radiance
                        BxDFReflTransFlags.All).
Proof.
  apply (@Layered_Sample_f_two_sided Run.E0 _ _ _ _ false Run.diffuse_pair
           Run.options_a Run.straight_down 0 Run.centre Radiance
           BxDFReflTransFlags.All); reflexivity.
Defined.

(** The coating sampled with [uc = 1/2]: the entrance sample is a
    transmission, and the walk leaves through the coating on the side of
    [wo]. *)
Lemma Layered_Sample_f_lobe_witness :
  exists s,
    Layered_Sample_f false Run.options_a Run.coated Run.straight_up
                     (1 # 2) Run.centre Radiance BxDFReflTransFlags.All
    = Some s
    /\ classified Run.straight_up false s
    /\ bs_flags s = BxDFFlags.GlossyReflection.
Proof.
  assert (Hex : exists s,
            Layered_Sample_f false Run.options_a Run.coated
              Run.straight_up (1 # 2) Run.centre Radiance
              BxDFReflTransFlags.All
            = Some s
            /\ bs_valid s = true
            /\ bs_flags s = BxDFFlags.GlossyReflection)
    by (eexists; split; [reflexivity | split; vm_compute; reflexivity]).
  destruct Hex as [s [Hs [Hv Hfl]]]. exists s. split; [exact Hs |].
  split; [| exact Hfl].
  destruct (@Layered_Sample_f_lobe Run.E0 _ _ _ _ false Run.coated
              Run.options_a Run.straight_up (1 # 2) Run.centre Radiance
              BxDFReflTransFlags.All s Hs Hv)
    as [_ [_ [[Hr _] | [_ Hc]]]].
  - vm_compute in Hr. discriminate Hr.
  - exact Hc.
Defined.

Lemma Layered_f_direct_only_witness :
  same_spectrum
    (Layered_f false Run.options_a Run.mirror_top
               Run.straight_up Run.straight_up Radiance)
    (f (top Run.mirror_top) Run.straight_up Run.straight_up Radiance).
Proof.
  apply (@Layered_f_direct_only Run.E0 _ _ _ _ false Run.mirror_top
           Run.options_a Run.straight_up Run.straight_up Radiance).
  - apply le_n.
  - right. intros uc u. reflexivity.
Defined.

(** The stand-in for [exp] maps the non-positive numbers into (0, 1]. *)
Lemma std_exp_fraction (v : Float) :
  v <= 0 -> 0 < std_exp (Externals := Run.E0) v <= 1.
Proof.
  intros _. unfold std_exp, Run.E0.
  pose proof (Qabs_nonneg v) as Ha. fold (std_abs v) in Ha.
  split.
  - apply Qlt_shift_div_l; lra.
  - apply Qle_shift_div_r; lra.
Qed.

(** A slab of depth 1 seen along the normal, and along the surface. *)
Lemma Tr_bounds_witness :
  0 < Tr (E := Run.E0) 1 Run.straight_up <= 1
  /\ Tr (E := Run.E0) 1 Run.grazing = 0.
Proof.
  split.
  - assert (Hcos : 0 <= AbsCosTheta (Externals := Run.E0) Run.straight_up)
      by discriminate.
    destruct (@Tr_bounds Run.E0 1 Run.straight_up std_exp_fraction Hcos)
      as [[_ Hle] [Hpos _]].
    split; [apply Hpos; reflexivity | exact Hle].
  - assert (Hcos : 0 <= AbsCosTheta (Externals := Run.E0) Run.grazing)
      by discriminate.
    destruct (@Tr_bounds Run.E0 1 Run.grazing std_exp_fraction Hcos)
      as [_ [_ [Hzero _]]].
    apply Hzero; reflexivity.
Defined.

(* ===================================================================== *)
(** * Further properties of the path loop                                 *)
(* ===================================================================== *)

Module VolPathBounds.
Import VolPath.

(** Case analysis over the tests of an iteration. *)
Ltac crack :=
  repeat match goal with
         | |- context [let '(_, _) := ?c in _] => destruct c
         | |- context [if ?c then _ else _] => destruct c eqn:?
         | |- context [match ?c with Some _ => _ | None => _ end] =>
             destruct c eqn:?
         end.

Section Bounds.
Context {Sc : Scene}.
Variable maxDepth : Z.
Variable rrThreshold : Float.

Lemma geb_false (a b : Z) : (a >=? b)%Z = false -> (a < b)%Z.
Proof. rewrite Z.geb_leb. apply Z.leb_gt. Qed.

Lemma subsurface_depth (bssrdf : BSSRDF) (st st' : PathState) :
  (subsurface bssrdf st = fall st' -> depth st' = depth st)
  /\ subsurface bssrdf st <> cont st'.
Proof.
  unfold subsurface. crack; split; intro H; try discriminate H;
    injection H as <-; reflexivity.
Qed.

Lemma Li_vertex_depth (st st' : PathState) :
  (Li_vertex maxDepth st = fall st' ->
   depth st' = depth st /\ (depth st < maxDepth)%Z)
  /\ (Li_vertex maxDepth st = cont st' ->
      depth st' = (depth st - 1)%Z /\ (depth st < maxDepth)%Z).
Proof.
  unfold Li_vertex, sample_medium.
  repeat match goal with
         | |- context [let '(_, _) := ?c in _] => destruct c
         | |- context [if ?c then _ else _] => destruct c eqn:?
         | |- context [match ?c with Some _ => _ | None => _ end] =>
             destruct c eqn:?
         | |- context [subsurface ?b ?s] =>
             let H := fresh "Hsub" in
             pose proof (subsurface_depth b s st') as H;
             destruct (subsurface b s)
         end;
    split; intro H; try discriminate H;
    try (injection H as <-; cbn [depth]; split;
         [reflexivity | apply geb_false; assumption]);
    match goal with
    | Hs : (_ -> _) /\ _ |- _ =>
        destruct Hs as [Hf Hc];
        first [ exfalso; apply Hc; exact H
              | rewrite (Hf H); cbn [depth]; split;
                [reflexivity | apply geb_false; assumption] ]
    end.
Qed.

Lemma Li_roulette_depth (st st' : PathState) :
  (Li_roulette rrThreshold st = cont st' -> depth st' = depth st)
  /\ Li_roulette rrThreshold st <> fall st'.
Proof.
  unfold Li_roulette. crack; split; intro H; try discriminate H;
    injection H as <-; reflexivity.
Qed.

(** X14.  The depth counter never passes [maxDepth].  An iteration that
    does not break ran at a depth below [maxDepth], and leaves the counter
    either where it was (a bounce) or one lower (the crossing of a bare
    boundary); so with the [++depth] of the loop, a counter in
    [0, maxDepth] at the head of an iteration is in [0, maxDepth] at the
    head of the next. *)
Theorem Li_depth_bounded (st st' : PathState) :
  Li_body maxDepth rrThreshold st = cont st' ->
  (depth st < maxDepth)%Z
  /\ (depth st' = depth st \/ depth st' = (depth st - 1)%Z)
  /\ ((0 <= depth st)%Z ->
      (0 <= depth (next_depth st') <= maxDepth)%Z).
Proof.
  unfold Li_body. intro H.
  assert (Hcore : (depth st < maxDepth)%Z
                  /\ (depth st' = depth st \/ depth st' = (depth st - 1)%Z)).
  { destruct (Li_vertex maxDepth st) as [s | s | s] eqn:Hv.
    - discriminate H.
    - injection H as <-.
      destruct (proj2 (Li_vertex_depth st s) Hv) as [Hd Hlt]. tauto.
    - destruct (proj1 (Li_vertex_depth st s) Hv) as [Hd Hlt].
      destruct (Li_roulette_depth s st') as [Hr _].
      rewrite (Hr H), Hd. tauto. }
  destruct Hcore as [Hlt Hd]. split; [exact Hlt |]. split; [exact Hd |].
  intro H0. cbn [next_depth depth]. lia.
Qed.

(** The loop body ends in a [break] or a [continue]. *)
Lemma Li_body_not_fall (st st' : PathState) :
  Li_body maxDepth rrThreshold st <> fall st'.
Proof.
  unfold Li_body. destruct (Li_vertex maxDepth st); try discriminate.
  apply Li_roulette_depth.
Qed.

(** X15.  A throughput that the medium sample turns black ends the path
    at once: nothing is added to the radiance, which [Li] returns as it
    stood at the start of the iteration. *)
Theorem Li_black_throughput_ends_path (st : PathState) :
  snonzero (fst (fst (sample_medium st))) = false ->
  (exists st', Li_body maxDepth rrThreshold st = brk st' /\ L st' = L st)
  /\ forall fuel, Li_loop maxDepth rrThreshold (S fuel) st = Some (L st).
Proof.
  intro Hblack.
  assert (Hbody : exists st',
            Li_body maxDepth rrThreshold st = brk st' /\ L st' = L st).
  { unfold Li_body, Li_vertex.
    destruct (sample_medium st) as [[b m] s]. cbn [fst] in Hblack.
    rewrite Hblack. cbn [negb]. eexists. split; reflexivity. }
  split; [exact Hbody |].
  intro fuel. destruct Hbody as [st' [Hb HL]].
  cbn [Li_loop]. rewrite Hb, HL. reflexivity.
Qed.

(** A surface hit at the depth cap and an escaped ray end the path with
    the emitted light seen along the ray, and nothing else. *)
Lemma Li_loop_surface_stop (st : PathState) (fuel : nat) :
  snonzero (fst (fst (sample_medium st))) = true ->
  snd (fst (sample_medium st)) = None ->
  (maxDepth <= depth st)%Z \/ Intersect (ray st) = None ->
  Li_loop maxDepth rrThreshold (S fuel) st
  = Some (add_emitted st (Intersect (ray st)) (fst (fst (sample_medium st)))).
Proof.
  intros Hbeta Hmi Hstop. cbn [Li_loop]. unfold Li_body, Li_vertex.
  destruct (sample_medium st) as [[b m] s]. cbn [fst snd] in *.
  rewrite Hbeta. cbn [negb]. subst m.
  destruct (Intersect (ray st)) as [isect |] eqn:Hhit; [| reflexivity].
  destruct Hstop as [Hd | Hnone]; [| discriminate Hnone].
  assert (Hge : (depth st >=? maxDepth)%Z = true)
    by (rewrite Z.geb_leb; apply Z.leb_le; exact Hd).
  rewrite Hge. reflexivity.
Qed.

(** X16.  The path length cap.  At a depth of [maxDepth] or more the path
    ends in the iteration it is in, whatever the scene holds: [Li] returns
    the radiance as it stood, to which a path that is not at a vertex
    inside the medium adds at most the emitted light seen along the ray.
    No light is sampled and no direction is drawn. *)
Theorem Li_depth_cap (st : PathState) (fuel : nat) :
  (maxDepth <= depth st)%Z ->
  Li_loop maxDepth rrThreshold (S fuel) st
  = Some (let '(beta1, mi, _) := sample_medium st in
          if snonzero beta1
          then match mi with
               | Some _ => L st
               | None => add_emitted st (Intersect (ray st)) beta1
               end
          else L st).
Proof.
  intro Hd.
  assert (Hge : (depth st >=? maxDepth)%Z = true)
    by (rewrite Z.geb_leb; apply Z.leb_le; exact Hd).
  cbn [Li_loop]. unfold Li_body, Li_vertex.
  destruct (sample_medium st) as [[b m] s].
  destruct (snonzero b); cbn [negb]; [| reflexivity].
  destruct m as [m |].
  - rewrite Hge. reflexivity.
  - destruct (Intersect (ray st)) as [isect |]; [| reflexivity].
    rewrite Hge. reflexivity.
Qed.

(** X17.  A camera ray that travels outside any medium and hits nothing
    returns the light of the environment: [Li] adds the emission of every
    infinite light, with unit throughput, and stops. *)
Theorem Li_escaped_ray (nchannels fuel : nat) (r : Ray) (smp : Sampler) :
  (0 < nchannels)%nat ->
  ray_medium r = None ->
  Intersect r = None ->
  Li maxDepth rrThreshold nchannels (S fuel) r smp
  = Some (fold_left
            (fun acc light =>
               sadd acc (smul (repeat 1 nchannels) (light_Le light r)))
            infiniteLights (repeat 0 nchannels)).
Proof.
  intros Hn Hmed Hmiss. unfold Li.
  set (st := mkPathState (repeat 0 nchannels) (repeat 1 nchannels) r false
                         0%Z 1 smp).
  assert (Hsm : sample_medium st = (repeat 1 nchannels, None, smp)).
  { unfold sample_medium. subst st. cbn [ray beta sampler]. rewrite Hmed.
    reflexivity. }
  assert (Hone : snonzero (repeat 1 nchannels) = true).
  { destruct nchannels as [| k]; [lia | reflexivity]. }
  rewrite Li_loop_surface_stop.
  - rewrite Hsm. subst st. unfold add_emitted.
    cbn [fst ray depth specularBounce L Z.eqb orb]. rewrite Hmiss.
    reflexivity.
  - rewrite Hsm. exact Hone.
  - rewrite Hsm. reflexivity.
  - right. exact Hmiss.
Qed.

(** A [continue] out of the first part of the body is the crossing of a
    surface without a BSDF. *)
Lemma Li_vertex_cont_boundary (st st' : PathState) :
  Li_vertex maxDepth st = cont st' ->
  exists isect,
    Intersect (ray st) = Some isect
    /\ isect_bsdf (ComputeScatteringFunctions isect (ray st)) = None.
Proof.
  unfold Li_vertex, sample_medium.
  repeat match goal with
         | |- context [let '(_, _) := ?c in _] => destruct c
         | |- context [if ?c then _ else _] => destruct c eqn:?
         | |- context [match ?c with Some _ => _ | None => _ end] =>
             destruct c eqn:?
         | |- context [subsurface ?b ?s] =>
             let H := fresh "Hsub" in
             pose proof (proj2 (subsurface_depth b s st')) as H;
             destruct (subsurface b s)
         end;
    intro H; try discriminate H;
    try (exfalso; match goal with Hs : _ <> _ |- _ => apply Hs; exact H end);
    eexists; (split; [reflexivity | assumption]).
Qed.

(** X18.  Without bare medium boundaries the path is finite.  In a scene
    where every surface has a BSDF, each iteration either ends the path or
    raises the depth by one, so the loop ends at the latest in the
    iteration at depth [maxDepth]: [Li] returns a radiance within
    [maxDepth + 1] iterations. *)
Theorem Li_terminates
    (Hbsdf : forall isect r,
        isect_bsdf (ComputeScatteringFunctions isect r) <> None) :
  (forall fuel st,
      (Z.to_nat (maxDepth - depth st) < fuel)%nat ->
      exists Lout, Li_loop maxDepth rrThreshold fuel st = Some Lout)
  /\ (forall nchannels fuel r smp,
         (Z.to_nat maxDepth < fuel)%nat ->
         exists Lout,
           Li maxDepth rrThreshold nchannels fuel r smp = Some Lout).
Proof.
  assert (Hloop : forall fuel st,
             (Z.to_nat (maxDepth - depth st) < fuel)%nat ->
             exists Lout, Li_loop maxDepth rrThreshold fuel st = Some Lout).
  { induction fuel as [| fuel IH]; intros st Hfuel; [lia |].
    cbn [Li_loop].
    destruct (Li_body maxDepth rrThreshold st) as [s | s | s] eqn:Hb.
    - eexists. reflexivity.
    - assert (Hd : depth s = depth st /\ (depth st < maxDepth)%Z).
      { unfold Li_body in Hb.
        destruct (Li_vertex maxDepth st) as [t | t | t] eqn:Hv.
        - discriminate Hb.
        - destruct (Li_vertex_cont_boundary st Hv) as [i [_ Hnull]].
          exfalso. exact (Hbsdf i (ray st) Hnull).
        - destruct (proj1 (Li_vertex_depth st t) Hv) as [Hdt Hlt].
          rewrite (proj1 (Li_roulette_depth t s) Hb), Hdt.
          split; [reflexivity | exact Hlt]. }
      destruct Hd as [Hd Hlt].
      apply IH. cbn [next_depth depth]. rewrite Hd. lia.
    - exfalso. exact (@Li_body_not_fall st s Hb). }
  split; [exact Hloop |].
  intros nchannels fuel r smp Hfuel. unfold Li. apply Hloop.
  cbn [depth]. rewrite Z.sub_0_r. exact Hfuel.
Qed.

End Bounds.
End VolPathBounds.

(** A path one bounce away from a bare boundary; a path whose throughput
    is black; a vertex inside the fog at the depth cap; a ray into the
    sky; a camera ray into the second scene, with [maxDepth = 2]. *)
Lemma Li_depth_bounded_witness :
  let st' := VolPath.mkPathState (Sc := Run.Sc0)
               (Run.rgb 0) (Run.rgb (1 # 2))
               (Run.mkRay0 Run.straight_up false (Some 2%nat))
               false 0 1 0%nat in
  (0 <= VolPath.depth (VolPath.next_depth st') <= 5)%Z.
Proof.
  intro st'.
  apply (proj2 (proj2 (@VolPathBounds.Li_depth_bounded Run.Sc0 5%Z 1
                         Run.at_boundary _ eq_refl))).
  cbn. lia.
Defined.

Lemma Li_black_throughput_ends_path_witness :
  VolPath.Li_loop (Sc := Run.Sc0) 5 1 1 Run.spent = Some (Run.rgb (1 # 4)).
Proof.
  exact (proj2 (@VolPathBounds.Li_black_throughput_ends_path Run.Sc0 5%Z 1
                  Run.spent eq_refl) 0%nat).
Defined.

Lemma Li_depth_cap_witness :
  VolPath.Li_loop (Sc := Run.Sc1) 5 1 1 Run.in_fog = Some (Run.rgb (1 # 4)).
Proof.
  apply (@VolPathBounds.Li_depth_cap Run.Sc1 5%Z 1 Run.in_fog 0%nat).
  cbn. lia.
Defined.

Lemma Li_escaped_ray_witness :
  VolPath.Li (Sc := Run.Sc1) 5 1 3 1 Run.to_sky 0%nat
  = Some (Run.rgb (1 # 4)).
Proof.
  apply (@VolPathBounds.Li_escaped_ray Run.Sc1 5%Z 1 3%nat 0%nat
           Run.to_sky 0%nat).
  - lia.
  - reflexivity.
  - reflexivity.
Defined.

Lemma Li_terminates_witness :
  exists Lout,
    VolPath.Li (Sc := Run.Sc1) 2 1 3 3
               (Run.mkRay0 Run.straight_up false (Some 2%nat)) 0%nat
    = Some Lout.
Proof.
  apply (proj2 (@VolPathBounds.Li_terminates Run.Sc1 2%Z 1
                  (fun i r0 H => eq_ind (Some i)
                     (fun o => match o with Some _ => True | None => False end)
                     I None H))).
  cbn. lia.
Defined.

(* ===================================================================== *)
(** * The private helpers of the hair and measured distributions          *)
(* ===================================================================== *)

Section MeasuredProps.
Context {E : Externals}.

(** X19.  [u2phi] and [phi2u] are inverse to each other, and map
    [0, 1] onto [-Pi, Pi] and back. *)
Theorem Measured_phi_round_trip :
  0 < Pi ->
  (forall u, Measured_phi2u (Measured_u2phi u) == u)
  /\ (forall phi, Measured_u2phi (Measured_phi2u phi) == phi)
  /\ (forall u, 0 <= u <= 1 -> - Pi <= Measured_u2phi u <= Pi)
  /\ (forall phi, - Pi <= phi <= Pi -> 0 <= Measured_phi2u phi <= 1).
Proof.
  intro HPi. unfold Measured_phi2u, Measured_u2phi.
  split; [| split; [| split]].
  - intro u. field. lra.
  - intro phi. field. lra.
  - intros u [H0 H1]. split; nra.
  - intros phi [Hlo Hhi]. split.
    + apply Qle_shift_div_l; lra.
    + apply Qle_shift_div_r; lra.
Qed.

End MeasuredProps.

Lemma Measured_phi_round_trip_witness :
  Measured_phi2u (E := Run.E0) (Measured_u2phi (E := Run.E0) (1 # 4))
  == 1 # 4.
Proof.
  assert (HPi : 0 < Pi (Externals := Run.E0)) by reflexivity.
  exact (proj1 (@Measured_phi_round_trip Run.E0 HPi) (1 # 4)).
Defined.

Section HairProps.
Context {E : Externals}.
Variable SafeSqrt : Float -> Float.
Variable TrimmedLogistic : Float -> Float -> Float -> Float -> Float.
Variable ap_unset : Spectrum.

Lemma of_count_S (n : nat) : of_count (S n) == of_count n + 1.
Proof.
  unfold of_count. rewrite Nat2Z.inj_succ. unfold Z.succ.
  rewrite inject_Z_plus. reflexivity.
Qed.

Lemma wrap_down_spec (HPi : 0 < Pi) (n : nat) :
  forall dphi,
    dphi <= Pi + 2 * Pi * of_count n ->
    exists d k,
      wrap_down n dphi = Some d
      /\ d <= Pi
      /\ (dphi <= Pi -> d = dphi)
      /\ (Pi < dphi -> - Pi < d)
      /\ d == dphi - 2 * Pi * of_count k.
Proof.
  induction n as [| n IH]; intros dphi Hb.
  - assert (H0 : of_count 0 == 0) by reflexivity.
    assert (Hle : dphi <= Pi) by (rewrite H0 in Hb; lra).
    exists dphi, 0%nat. cbn [wrap_down].
    rewrite (proj2 (Flt_false Pi dphi) Hle).
    repeat split; try lra. rewrite H0. ring.
  - cbn [wrap_down]. destruct (dphi >? Pi) eqn:Hgt.
    + apply Flt_true in Hgt.
      destruct (IH (dphi - 2 * Pi)) as [d [k [Hw [Hd [Hsame [Hlow Hk]]]]]].
      { rewrite of_count_S in Hb. lra. }
      exists d, (S k). split; [exact Hw |]. split; [exact Hd |].
      split; [intro; lra |]. split.
      * intros _. destruct (Qlt_le_dec Pi (dphi - 2 * Pi)) as [Hfar | Hnear].
        -- exact (Hlow Hfar).
        -- rewrite (Hsame Hnear). lra.
      * rewrite Hk, of_count_S. ring.
    + apply Flt_false in Hgt. exists dphi, 0%nat.
      assert (H0 : of_count 0 == 0) by reflexivity.
      repeat split; try lra. rewrite H0. ring.
Qed.

Lemma wrap_up_spec (HPi : 0 < Pi) (n : nat) :
  forall dphi,
    - Pi - 2 * Pi * of_count n <= dphi ->
    exists d k,
      wrap_up n dphi = Some d
      /\ - Pi <= d
      /\ (- Pi <= dphi -> d = dphi)
      /\ (dphi < - Pi -> d < Pi)
      /\ d == dphi + 2 * Pi * of_count k.
Proof.
  induction n as [| n IH]; intros dphi Hb.
  - assert (H0 : of_count 0 == 0) by reflexivity.
    assert (Hle : - Pi <= dphi) by (rewrite H0 in Hb; lra).
    exists dphi, 0%nat. cbn [wrap_up].
    rewrite (proj2 (Flt_false dphi (- Pi)) Hle).
    repeat split; try lra. rewrite H0. ring.
  - cbn [wrap_up]. destruct (dphi <? - Pi) eqn:Hlt.
    + apply Flt_true in Hlt.
      destruct (IH (dphi + 2 * Pi)) as [d [k [Hw [Hd [Hsame [Hhigh Hk]]]]]].
      { rewrite of_count_S in Hb. lra. }
      exists d, (S k). split; [exact Hw |]. split; [exact Hd |].
      split; [intro; lra |]. split.
      * intros _. destruct (Qlt_le_dec (dphi + 2 * Pi) (- Pi)) as [Hfar | Hnear].
        -- exact (Hhigh Hfar).
        -- rewrite (Hsame Hnear). lra.
      * rewrite Hk, of_count_S. ring.
    + apply Flt_false in Hlt. exists dphi, 0%nat.
      assert (H0 : of_count 0 == 0) by reflexivity.
      repeat split; try lra. rewrite H0. ring.
Qed.

(** X20.  [Np] evaluates the trimmed logistic inside its support: the two
    loops end once each has had a round per whole turn to take off, and
    leave an angle in [-Pi, Pi] that differs from
    [phi - Phi(p, gamma_o, gamma_t)] by a whole number of turns. *)
Theorem Hair_Np_remap (fuel : nat) (phi : Float) (p : Z)
    (s gamma_o gamma_t : Float) :
  let dphi := phi - Hair_Phi p gamma_o gamma_t in
  0 < Pi ->
  - Pi - 2 * Pi * of_count fuel <= dphi <= Pi + 2 * Pi * of_count fuel ->
  exists (d : Float) (k : Z),
    Hair_remap fuel dphi = Some d
    /\ - Pi <= d <= Pi
    /\ d == dphi + 2 * Pi * inject_Z k
    /\ Hair_Np TrimmedLogistic fuel phi p s gamma_o gamma_t
       = Some (TrimmedLogistic d s (- Pi) Pi).
Proof.
  intros dphi HPi [Hlo Hhi].
  destruct (@wrap_down_spec HPi fuel dphi Hhi)
    as [d1 [k1 [Hw1 [Hd1 [Hsame1 [Hlow1 Hk1]]]]]].
  pose proof (of_count_nonneg fuel) as Hfuel.
  assert (Hlo1 : - Pi - 2 * Pi * of_count fuel <= d1).
  { destruct (Qlt_le_dec Pi dphi) as [Hfar | Hnear].
    - specialize (Hlow1 Hfar). nra.
    - rewrite (Hsame1 Hnear). exact Hlo. }
  destruct (@wrap_up_spec HPi fuel d1 Hlo1)
    as [d2 [k2 [Hw2 [Hd2 [Hsame2 [Hhigh2 Hk2]]]]]].
  exists d2, (Z.of_nat k2 - Z.of_nat k1)%Z.
  assert (Hremap : Hair_remap fuel dphi = Some d2).
  { unfold Hair_remap. rewrite Hw1. exact Hw2. }
  split; [exact Hremap |]. split; [| split].
  - split; [exact Hd2 |].
    destruct (Qlt_le_dec d1 (- Pi)) as [Hfar | Hnear].
    + specialize (Hhigh2 Hfar). lra.
    + rewrite (Hsame2 Hnear). exact Hd1.
  - rewrite Hk2, Hk1. unfold of_count, Z.sub.
    rewrite inject_Z_plus, inject_Z_opp. ring.
  - unfold Hair_Np. fold dphi. rewrite Hremap. reflexivity.
Qed.

Lemma Ap_sum_channels (f a : Float) :
  a == (1 - f) * (1 - f) -> 0 <= f < 1 ->
  forall (T : Spectrum) (n : nat),
    length T = n ->
    Forall (fun t => 0 <= t <= 1) T ->
    let ap1 := sscale T a in
    let ap2 := sscale (smul ap1 T) f in
    let ap3 := sdivs (smul (sscale ap2 f) T) (ssub_from 1 (sscale T f)) in
    Forall2 (fun t s => s == f + (1 - f) * (1 - f) * t / (1 - f * t)
                        /\ 0 <= s <= 1)
            T (sadd (sadd (sadd (repeat f n) ap1) ap2) ap3).
Proof.
  intros Ha [Hf0 Hf1]. cbv zeta.
  unfold sadd, smul, sdivs, sscale, ssub_from.
  induction T as [| t T IH]; intros n Hlen Hall.
  - subst n. cbn. constructor.
  - destruct n as [| n]; [discriminate Hlen |].
    injection Hlen as Hlen. inversion Hall as [| t' T' [Ht0 Ht1] Hrest]; subst.
    cbn [repeat map szip]. constructor; [| apply IH; [reflexivity | exact Hrest]].
    assert (Hft : f * t < 1) by nra.
    assert (Hs : f + t * a + t * a * t * f
                 + t * a * t * f * f * t / (1 - t * f)
                 == f + (1 - f) * (1 - f) * t / (1 - f * t)).
    { rewrite Ha. field. lra. }
    split; [exact Hs |]. rewrite Hs.
    assert (Hq : 0 <= (1 - f) * (1 - f) * t / (1 - f * t) <= 1 - f).
    { assert (Hnum : 0 <= (1 - f) * (1 - f) * t).
      { apply Qmult_le_0_compat; [apply Qmult_le_0_compat |]; lra. }
      assert (Hgap : 0 <= (1 - f) * (1 - t)).
      { apply Qmult_le_0_compat; lra. }
      split.
      - apply Qle_shift_div_l; lra.
      - apply Qle_shift_div_r; [lra | nra]. }
    split; lra.
Qed.

(** X21.  The attenuations of [Ap] conserve energy.  For a Fresnel
    reflectance [f] in [0, 1) and a transmittance [T] with channels in
    [0, 1], [Ap] returns the [pMax + 1] terms with the last one assigned,
    and in every channel they add up to
    [f + (1 - f)^2 T / (1 - f T)], which lies in [0, 1]. *)
Theorem Hair_Ap_energy (cosTheta_o eta h : Float) (T : Spectrum) :
  let f := FrDielectric (cosTheta_o * SafeSqrt (1 - h * h)) eta in
  (forall v, Sqr v == v * v) ->
  0 <= f < 1 ->
  length T = NSpectrumSamples ->
  (0 < NSpectrumSamples)%nat ->
  Forall (fun t => 0 <= t <= 1) T ->
  exists ap0 ap1 ap2 ap3,
    Hair_Ap SafeSqrt ap_unset cosTheta_o eta h T = [ap0; ap1; ap2; ap3]
    /\ Forall2 (fun t s => s == f + (1 - f) * (1 - f) * t / (1 - f * t)
                           /\ 0 <= s <= 1)
               T (sadd (sadd (sadd ap0 ap1) ap2) ap3).
Proof.
  intros f HSqr Hf Hlen Hn Hall.
  unfold Hair_Ap, pMax. fold f. cbn [Nat.sub Ap_orders app].
  assert (Hrest : snonzero (ssub_from 1 (sscale T f)) = true).
  { destruct T as [| t T']; [cbn in Hlen; lia |].
    inversion Hall as [| t' T'' [Ht0 Ht1] _]; subst.
    unfold snonzero, ssub_from, sscale. cbn [map existsb].
    assert (Hnz : (1 - t * f =? 0) = false).
    { apply Feq_false. assert (f * t < 1) by nra. lra. }
    rewrite Hnz. reflexivity. }
  rewrite Hrest. do 4 eexists. split; [reflexivity |].
  unfold SampledSpectrum.
  apply (Ap_sum_channels (HSqr (1 - f)) Hf Hlen Hall).
Qed.

End HairProps.

(** A quarter turn past two whole turns, and a hair with a grey
    transmittance. *)
Lemma Hair_Np_remap_witness :
  exists d : Float,
    Hair_Np (E := Run.E0) (fun x _ _ _ => x) 3
            (9 * Pi (Externals := Run.E0) / 2) 0 1 0 0
    = Some d
    /\ - Pi (Externals := Run.E0) <= d <= Pi (Externals := Run.E0).
Proof.
  assert (HPi : 0 < Pi (Externals := Run.E0)) by reflexivity.
  destruct (@Hair_Np_remap Run.E0 (fun x _ _ _ => x) 3
              (9 * Pi (Externals := Run.E0) / 2) 0 1 0 0 HPi)
    as [d [k [_ [Hd [_ Hnp]]]]].
  - split; vm_compute; discriminate.
  - exists d. split; [exact Hnp | exact Hd].
Defined.

Lemma Hair_Ap_energy_witness :
  exists ap0 ap1 ap2 ap3,
    Hair_Ap (E := Run.E0) (fun v => v) Run.black 1 (3 # 2) 0 Run.grey
    = [ap0; ap1; ap2; ap3]
    /\ Forall (fun s => 0 <= s <= 1) (sadd (sadd (sadd ap0 ap1) ap2) ap3).
Proof.
  destruct (@Hair_Ap_energy Run.E0 (fun v => v) Run.black 1 (3 # 2) 0
              Run.grey)
    as [ap0 [ap1 [ap2 [ap3 [Hap Hsum]]]]].
  - intro v. reflexivity.
  - split; vm_compute; [discriminate | reflexivity].
  - reflexivity.
  - cbn. lia.
  - repeat constructor; vm_compute; discriminate.
  - exists ap0, ap1, ap2, ap3. split; [exact Hap |].
    clear Hap. induction Hsum as [| t s T Sv [_ Hs] _ IH]; constructor; assumption.
Defined.
